(** * GravTile: the tiling registry and its planners

    A shallow embedding of the layout core of the GravTile GNOME Shell
    extension: [utils/Geometry.js], [constants.js], [core/StateStore.js],
    [core/LayoutEngine.js], [services/ResizeHandler.js],
    [services/SwapDetector.js] and the redistribution, insertion and swap
    handlers of [core/TileManager.js], followed by the properties proved of
    them.

    Pixel coordinates are the integers Mutter reports for frame rectangles,
    so a [Rect] carries four [Z], and [Math.floor] of a quotient is [Z.div].
    A JavaScript [Map] iterates in insertion order and the neighbour lists
    inherit that order, hence the registry is an association list with
    [Map.set] / [Map.delete] semantics.  Calls into the compositor
    ([moveResizeWindow], [raiseWindow]) are recorded, in order, next to the
    registry; what the compositor and the window tracker answer is an
    input. *)

From Stdlib Require Import ZArith List String Bool Lia.
Import ListNotations.
Open Scope Z_scope.

(* ------------------------------------------------------------------ *)
(** ** utils/Geometry.js *)

Module Geometry.

Record Rect := mkRect { x : Z; y : Z; width : Z; height : Z }.

Definition hasVerticalOverlap (a b : Rect) (minOverlap : Z) : bool :=
  let aTop := y a in
  let aBottom := y a + height a in
  let bTop := y b in
  let bBottom := y b + height b in
  let overlapStart := Z.max aTop bTop in
  let overlapEnd := Z.min aBottom bBottom in
  let overlap := overlapEnd - overlapStart in
  minOverlap <=? overlap.

Definition hasHorizontalOverlap (a b : Rect) (minOverlap : Z) : bool :=
  let aLeft := x a in
  let aRight := x a + width a in
  let bLeft := x b in
  let bRight := x b + width b in
  let overlapStart := Z.max aLeft bLeft in
  let overlapEnd := Z.min aRight bRight in
  let overlap := overlapEnd - overlapStart in
  minOverlap <=? overlap.

Definition getRightEdge (r : Rect) : Z := x r + width r.
Definition getBottomEdge (r : Rect) : Z := y r + height r.

(** [Math.floor (a / 2)] on integers is [Z.div]: it rounds towards minus
    infinity, and a single division of two pixel-sized integers is exact
    up to the floor in double precision. *)
Definition getLeftHalfRect (workArea : Rect) (gap : Z) : Rect :=
  {| x := x workArea + gap;
     y := y workArea + gap;
     width := (width workArea - gap * 3) / 2;
     height := height workArea - gap * 2 |}.

Definition getRightHalfRect (workArea : Rect) (gap : Z) : Rect :=
  let halfWidth := (width workArea - gap * 3) / 2 in
  {| x := x workArea + width workArea - halfWidth - gap;
     y := y workArea + gap;
     width := halfWidth;
     height := height workArea - gap * 2 |}.

Definition getMaximizedRect (workArea : Rect) (gap : Z) : Rect :=
  {| x := x workArea + gap;
     y := y workArea + gap;
     width := width workArea - gap * 2;
     height := height workArea - gap * 2 |}.

Definition isNearEdge (point edge threshold : Z) : bool :=
  Z.abs (point - edge) <=? threshold.

(** [getAdjacency]: the direction in which [b] lies next to [a], or [null].
    The overlap predicates are called without a threshold, so they run with
    their default of 50. *)
Definition getAdjacency (a b : Rect) (tolerance : Z) : option string :=
  if isNearEdge (getRightEdge a) (x b) tolerance && hasVerticalOverlap a b 50
  then Some "right"%string
  else if isNearEdge (x a) (getRightEdge b) tolerance
          && hasVerticalOverlap a b 50
  then Some "left"%string
  else if isNearEdge (getBottomEdge a) (y b) tolerance
          && hasHorizontalOverlap a b 50
  then Some "bottom"%string
  else if isNearEdge (y a) (getBottomEdge b) tolerance
          && hasHorizontalOverlap a b 50
  then Some "top"%string
  else None.

(** The projected overlap lengths that the two predicates compare with
    their threshold. *)
Definition verticalOverlap (a b : Rect) : Z :=
  Z.min (y a + height a) (y b + height b) - Z.max (y a) (y b).

Definition horizontalOverlap (a b : Rect) : Z :=
  Z.min (x a + width a) (x b + width b) - Z.max (x a) (x b).

End Geometry.
Export Geometry.

(* ------------------------------------------------------------------ *)
(** ** constants.js *)

Record Config := mkConfig {
  INNER_GAP : Z;
  OUTER_GAP : Z;
  SNAP_THRESHOLD : Z;
  NEIGHBOR_OVERLAP_MIN : Z;
  EDGE_TOLERANCE : Z;
  MIN_WINDOW_WIDTH : Z;
  MIN_WINDOW_HEIGHT : Z
}.

Definition CONFIG : Config :=
  {| INNER_GAP := 8;
     OUTER_GAP := 8;
     SNAP_THRESHOLD := 50;
     NEIGHBOR_OVERLAP_MIN := 50;
     EDGE_TOLERANCE := 10;
     MIN_WINDOW_WIDTH := 200;
     MIN_WINDOW_HEIGHT := 100 |}.

(* ------------------------------------------------------------------ *)
(** ** A JavaScript [Map] with integer keys, in insertion order *)

Module JSMap.
Section Ops.
Context {V : Type}.

Fixpoint get (k : Z) (m : list (Z * V)) : option V :=
  match m with
  | [] => None
  | (k', v) :: m' => if k' =? k then Some v else get k m'
  end.

Definition has (k : Z) (m : list (Z * V)) : bool :=
  match get k m with Some _ => true | None => false end.

(** [Map.prototype.set]: an existing key keeps its place, a new key goes
    to the end. *)
Fixpoint set (k : Z) (v : V) (m : list (Z * V)) : list (Z * V) :=
  match m with
  | [] => [(k, v)]
  | (k', v') :: m' =>
      if k' =? k then (k, v) :: m' else (k', v') :: set k v m'
  end.

Definition delete (k : Z) (m : list (Z * V)) : list (Z * V) :=
  filter (fun e => negb (fst e =? k)) m.

Definition values (m : list (Z * V)) : list V := map snd m.
Definition keys (m : list (Z * V)) : list Z := map fst m.
End Ops.
End JSMap.

(* ------------------------------------------------------------------ *)
(** ** core/StateStore.js *)

Module StateStore.

Record Neighbors := mkNeighbors {
  left : list Z;
  right : list Z;
  top : list Z;
  bottom : list Z
}.

Record WindowState := mkWindowState {
  id : Z;
  rect : Rect;
  originalRect : option Rect;
  zone : string;
  isTiled : bool;
  neighbors : Neighbors
}.

(** [Partial<WindowState>]: a field left out (or [null]) is [None]. *)
Record PartialState := mkPartial {
  p_rect : option Rect;
  p_originalRect : option Rect;
  p_zone : option string;
  p_isTiled : option bool;
  p_neighbors : option Neighbors
}.

Definition noFields : PartialState := mkPartial None None None None None.
Definition justRect (r : Rect) : PartialState :=
  mkPartial (Some r) None None None None.
Definition rectAndZone (r : Rect) (z : string) : PartialState :=
  mkPartial (Some r) None (Some z) None None.
Definition tiledAt (r o : Rect) (z : string) : PartialState :=
  mkPartial (Some r) (Some o) (Some z) (Some true) None.

(** The store: the [_windows] map and the number of times [_notifyChange]
    has run (every listener is called once per run). *)
Record t := mkStore {
  _windows : list (Z * WindowState);
  notified : nat
}.

Definition empty : t := mkStore [] 0.

Inductive Direction := DLeft | DRight | DTop | DBottom.

Definition side (d : Direction) (n : Neighbors) : list Z :=
  match d with
  | DLeft => left n
  | DRight => right n
  | DTop => top n
  | DBottom => bottom n
  end.

(** [a ?? b] *)
Definition orElse {A} (a b : option A) : option A :=
  match a with Some _ => a | None => b end.
Definition orDefault {A} (a : option A) (d : A) : A :=
  match a with Some v => v | None => d end.

Definition _notifyChange (s : t) : t :=
  mkStore (_windows s) (S (notified s)).

Definition getWindow (s : t) (i : Z) : option WindowState :=
  JSMap.get i (_windows s).

Definition setWindow (s : t) (i : Z) (state : PartialState) : t :=
  let existing := JSMap.get i (_windows s) in
  let windowState :=
    {| id := i;
       rect := orDefault (orElse (p_rect state) (option_map rect existing))
                 (mkRect 0 0 0 0);
       originalRect :=
         orElse (p_originalRect state)
           (match existing with Some e => originalRect e | None => None end);
       zone := orDefault (orElse (p_zone state) (option_map zone existing))
                 "none"%string;
       isTiled := orDefault
                    (orElse (p_isTiled state) (option_map isTiled existing))
                    false;
       neighbors :=
         orDefault (orElse (p_neighbors state) (option_map neighbors existing))
           (mkNeighbors [] [] [] []) |} in
  _notifyChange (mkStore (JSMap.set i windowState (_windows s)) (notified s)).

Definition without (removedId : Z) (l : list Z) : list Z :=
  filter (fun i => negb (i =? removedId)) l.

Definition purge (removedId : Z) (w : WindowState) : WindowState :=
  {| id := id w; rect := rect w; originalRect := originalRect w;
     zone := zone w; isTiled := isTiled w;
     neighbors :=
       {| left := without removedId (left (neighbors w));
          right := without removedId (right (neighbors w));
          top := without removedId (top (neighbors w));
          bottom := without removedId (bottom (neighbors w)) |} |}.

Definition _removeFromNeighbors (removedId : Z) (m : list (Z * WindowState))
  : list (Z * WindowState) :=
  map (fun e => (fst e, purge removedId (snd e))) m.

Definition removeWindow (s : t) (i : Z) : t :=
  if JSMap.has i (_windows s) then
    _notifyChange
      (mkStore (_removeFromNeighbors i (JSMap.delete i (_windows s)))
         (notified s))
  else s.

Definition getAllWindows (s : t) : list WindowState :=
  JSMap.values (_windows s).

Definition getTiledWindows (s : t) : list WindowState :=
  filter isTiled (JSMap.values (_windows s)).

Section Neighbours.
Variable cfg : Config.

Definition nearEdge (a b : Z) : bool := Z.abs (a - b) <=? EDGE_TOLERANCE cfg.

(** The loop of [_findNeighbors]; ids are pushed in the order of
    [allWindows]. *)
Fixpoint _findNeighbors (window : WindowState) (allWindows : list WindowState)
  : Neighbors :=
  match allWindows with
  | [] => mkNeighbors [] [] [] []
  | other :: rest =>
      let n := _findNeighbors window rest in
      if id other =? id window then n
      else
        let wRect := rect window in
        let oRect := rect other in
        let minOverlap := NEIGHBOR_OVERLAP_MIN cfg in
        {| right :=
             if nearEdge (getRightEdge wRect) (x oRect)
                && hasVerticalOverlap wRect oRect minOverlap
             then id other :: right n else right n;
           left :=
             if nearEdge (x wRect) (getRightEdge oRect)
                && hasVerticalOverlap wRect oRect minOverlap
             then id other :: left n else left n;
           bottom :=
             if nearEdge (getBottomEdge wRect) (y oRect)
                && hasHorizontalOverlap wRect oRect minOverlap
             then id other :: bottom n else bottom n;
           top :=
             if nearEdge (y wRect) (getBottomEdge oRect)
                && hasHorizontalOverlap wRect oRect minOverlap
             then id other :: top n else top n |}
  end.

Definition withNeighbors (w : WindowState) (n : Neighbors) : WindowState :=
  {| id := id w; rect := rect w; originalRect := originalRect w;
     zone := zone w; isTiled := isTiled w; neighbors := n |}.

(** [recalculateNeighbors] assigns [window.neighbors] on each tiled state
    object in place; ids and rectangles do not move during the loop, so
    every tiled entry receives [_findNeighbors] over the same snapshot. *)
Definition recalculateNeighbors (s : t) : t :=
  let tiledWindows := getTiledWindows s in
  mkStore
    (map (fun e =>
            if isTiled (snd e)
            then (fst e, withNeighbors (snd e)
                           (_findNeighbors (snd e) tiledWindows))
            else e)
       (_windows s))
    (notified s).
End Neighbours.

(** [getNeighbors]: ids that no longer resolve are dropped. *)
Fixpoint resolve (m : list (Z * WindowState)) (ids : list Z)
  : list WindowState :=
  match ids with
  | [] => []
  | i :: ids' =>
      match JSMap.get i m with
      | Some w => w :: resolve m ids'
      | None => resolve m ids'
      end
  end.

Definition getNeighbors (s : t) (windowId : option Z) (direction : Direction)
  : list WindowState :=
  match windowId with
  | None => []
  | Some i =>
      match JSMap.get i (_windows s) with
      | None => []
      | Some window => resolve (_windows s) (side direction (neighbors window))
      end
  end.

Definition clear (s : t) : t := _notifyChange (mkStore [] (notified s)).

(** Every entry is stored under its own id and keys are unique: what
    [setWindow] builds and a [Map] guarantees. *)
Definition wf (s : t) : Prop :=
  NoDup (JSMap.keys (_windows s)) /\
  Forall (fun e => id (snd e) = fst e) (_windows s).

End StateStore.

(* ------------------------------------------------------------------ *)
(** ** The compositor side

    [GnomeCompat.moveResizeWindow] and [raiseWindow] are recorded in the
    order they are issued; a [Meta.Window] is identified with its stable
    sequence number. *)

Inductive Call :=
| MoveResize (win : Z) (r : Rect)
| Raise (win : Z).

Record World := mkWorld {
  store : StateStore.t;
  calls : list Call
}.

Definition emit (c : Call) (w : World) : World :=
  mkWorld (store w) (calls w ++ [c]).

Definition setRect (i : Z) (r : Rect) (w : World) : World :=
  mkWorld (StateStore.setWindow (store w) i (StateStore.justRect r)) (calls w).

Definition memZ (i : Z) (l : list Z) : bool := existsb (Z.eqb i) l.

(* ------------------------------------------------------------------ *)
(** ** services/ResizeHandler.js *)

Module ResizeHandler.
Import StateStore.

Inductive GrabOp :=
| MOVING
| RESIZING_NW | RESIZING_N | RESIZING_NE | RESIZING_E
| RESIZING_SE | RESIZING_S | RESIZING_SW | RESIZING_W.

Record Edges := mkEdges {
  e_left : bool; e_right : bool; e_top : bool; e_bottom : bool
}.

Definition _isResizeOp (grabOp : GrabOp) : bool :=
  match grabOp with MOVING => false | _ => true end.

Definition _getResizeEdges (grabOp : GrabOp) : Edges :=
  {| e_left := match grabOp with
               | RESIZING_NW | RESIZING_W | RESIZING_SW => true
               | _ => false end;
     e_right := match grabOp with
                | RESIZING_NE | RESIZING_E | RESIZING_SE => true
                | _ => false end;
     e_top := match grabOp with
              | RESIZING_NW | RESIZING_N | RESIZING_NE => true
              | _ => false end;
     e_bottom := match grabOp with
                 | RESIZING_SW | RESIZING_S | RESIZING_SE => true
                 | _ => false end |}.

(** The handler's fields.  [_resizingWindow] and [_resizingWindowId] are
    assigned together in [_onGrabBegin] and cleared together in
    [_onGrabEnd]; one optional id stands for both. *)
Record t := mkHandler {
  _resizingWindowId : option Z;
  _lastRect : option Rect;
  _resizeDirection : GrabOp
}.

Section Adjust.
Variable cfg : Config.
(** ids of [GnomeCompat.getWorkspaceWindows()] *)
Variable workspace : list Z.
Variable h : t.

Definition _getMetaWindow (windowId : Z) : bool := memZ windowId workspace.

Definition place (i : Z) (newRect : Rect) (w : World) : World :=
  setRect i newRect (emit (Raise i) (emit (MoveResize i newRect) w)).

(** "Constrain the resizing window back" *)
Definition constrainBack (w : World) : World :=
  match _resizingWindowId h, _lastRect h with
  | Some rid, Some lastRect =>
      let constrainedRect :=
        mkRect (x lastRect) (y lastRect) (width lastRect) (height lastRect) in
      setRect rid constrainedRect (emit (MoveResize rid constrainedRect) w)
  | _, _ => w
  end.

(** One iteration of the loop of [_adjustRightNeighbors]. *)
Definition adjustRight (delta : Z) (w : World) (neighbor : WindowState)
  : World :=
  if negb (_getMetaWindow (id neighbor)) then w
  else
    let newNeighborWidth := width (rect neighbor) - delta in
    if (newNeighborWidth <? MIN_WINDOW_WIDTH cfg) && (0 <? delta) then
      let maxDelta := width (rect neighbor) - MIN_WINDOW_WIDTH cfg in
      if maxDelta <=? 0 then constrainBack w
      else
        place (id neighbor)
          {| x := x (rect neighbor) + maxDelta;
             y := y (rect neighbor);
             width := MIN_WINDOW_WIDTH cfg;
             height := height (rect neighbor) |} w
    else
      place (id neighbor)
        {| x := x (rect neighbor) + delta;
           y := y (rect neighbor);
           width := newNeighborWidth;
           height := height (rect neighbor) |} w.

(** One iteration of the loop of [_adjustLeftNeighbors]. *)
Definition adjustLeft (delta : Z) (w : World) (neighbor : WindowState)
  : World :=
  if negb (_getMetaWindow (id neighbor)) then w
  else
    let newNeighborWidth := width (rect neighbor) + delta in
    if (newNeighborWidth <? MIN_WINDOW_WIDTH cfg) && (delta <? 0) then
      if width (rect neighbor) <=? MIN_WINDOW_WIDTH cfg then constrainBack w
      else
        place (id neighbor)
          {| x := x (rect neighbor);
             y := y (rect neighbor);
             width := MIN_WINDOW_WIDTH cfg;
             height := height (rect neighbor) |} w
    else
      place (id neighbor)
        {| x := x (rect neighbor);
           y := y (rect neighbor);
           width := newNeighborWidth;
           height := height (rect neighbor) |} w.

Definition adjustBottom (delta : Z) (w : World) (neighbor : WindowState)
  : World :=
  if negb (_getMetaWindow (id neighbor)) then w
  else
    let newRect :=
      {| x := x (rect neighbor);
         y := y (rect neighbor) + delta;
         width := width (rect neighbor);
         height := height (rect neighbor) - delta |} in
    if height newRect <? MIN_WINDOW_HEIGHT cfg then w
    else place (id neighbor) newRect w.

Definition adjustTop (delta : Z) (w : World) (neighbor : WindowState)
  : World :=
  if negb (_getMetaWindow (id neighbor)) then w
  else
    let newRect :=
      {| x := x (rect neighbor);
         y := y (rect neighbor);
         width := width (rect neighbor);
         height := height (rect neighbor) + delta |} in
    if height newRect <? MIN_WINDOW_HEIGHT cfg then w
    else place (id neighbor) newRect w.

(** The four loops run over the state objects [getNeighbors] returned
    before the first iteration: [setWindow] stores a new object, so an
    iteration never sees what an earlier one wrote. *)
Definition _adjustRightNeighbors (delta : Z) (w : World) : World :=
  fold_left (adjustRight delta)
    (getNeighbors (store w) (_resizingWindowId h) DRight) w.

Definition _adjustLeftNeighbors (delta : Z) (w : World) : World :=
  fold_left (adjustLeft delta)
    (getNeighbors (store w) (_resizingWindowId h) DLeft) w.

Definition _adjustBottomNeighbors (delta : Z) (w : World) : World :=
  fold_left (adjustBottom delta)
    (getNeighbors (store w) (_resizingWindowId h) DBottom) w.

Definition _adjustTopNeighbors (delta : Z) (w : World) : World :=
  fold_left (adjustTop delta)
    (getNeighbors (store w) (_resizingWindowId h) DTop) w.

(** One polling tick; [currentRect] is the frame rectangle the
    compositor reports for the window being resized. *)
Definition _handleResizeUpdate (currentRect : Rect) (w : World)
  : t * World :=
  match _resizingWindowId h, _lastRect h with
  | Some rid, Some lastRect =>
      if rid =? 0 then (h, w)
      else
        let edges := _getResizeEdges (_resizeDirection h) in
        let deltaLeft := x currentRect - x lastRect in
        let deltaRight :=
          (x currentRect + width currentRect)
          - (x lastRect + width lastRect) in
        let deltaTop := y currentRect - y lastRect in
        let deltaBottom :=
          (y currentRect + height currentRect)
          - (y lastRect + height lastRect) in
        let w1 := if e_right edges && negb (deltaRight =? 0)
                  then _adjustRightNeighbors deltaRight w else w in
        let w2 := if e_left edges && negb (deltaLeft =? 0)
                  then _adjustLeftNeighbors deltaLeft w1 else w1 in
        let w3 := if e_bottom edges && negb (deltaBottom =? 0)
                  then _adjustBottomNeighbors deltaBottom w2 else w2 in
        let w4 := if e_top edges && negb (deltaTop =? 0)
                  then _adjustTopNeighbors deltaTop w3 else w3 in
        (mkHandler (_resizingWindowId h) (Some currentRect)
           (_resizeDirection h),
         setRect rid currentRect w4)
  | _, _ => (h, w)
  end.

Definition _handleResizeComplete (windowId : Z) (currentRect : Rect)
    (w : World) : World :=
  let w1 := setRect windowId currentRect w in
  mkWorld (recalculateNeighbors cfg (store w1)) (calls w1).
(** [_onGrabBegin]: only a resize of a tiled window arms the handler;
    [frame] is the frame rectangle of the window at that moment. *)
Definition _onGrabBegin (s : StateStore.t) (windowId : Z) (frame : Rect)
    (grabOp : GrabOp) : t :=
  if negb (_isResizeOp grabOp) then h
  else
    match getWindow s windowId with
    | Some state =>
        if isTiled state then mkHandler (Some windowId) (Some frame) grabOp
        else h
    | None => h
    end.
End Adjust.

End ResizeHandler.

(* ------------------------------------------------------------------ *)
(** ** services/SwapDetector.js *)

Module SwapDetector.
Import StateStore.

(** What [_onGrabBegin] records; the fields are set together there and
    cleared together in [_onGrabEnd], so an idle detector is [None]. *)
Record Drag := mkDrag {
  _draggedWindowId : Z;
  _dragStartRect : Rect;
  _potentialSwapTarget : option Z
}.

Record SwapEvent := mkSwapEvent {
  draggedWindow : Z;
  targetWindowId : Z;
  draggedTargetRect : Rect;
  targetNewRect : Rect
}.

Definition _onGrabBegin (s : StateStore.t) (isMoving isNormal : bool)
    (windowId : Z) : option Drag :=
  if negb isMoving then None
  else if negb isNormal then None
  else
    match getWindow s windowId with
    | Some state =>
        if isTiled state then Some (mkDrag windowId (rect state) None)
        else None
    | None => None
    end.

(** [getCenter] halves a width; the point is kept doubled so that it
    stays an integer: [cx2 = 2 * center.x], [cy2 = 2 * center.y]. *)
Definition _isPointInRect (cx2 cy2 : Z) (r : Rect) : bool :=
  (2 * x r <=? cx2) && (cx2 <=? 2 * (x r + width r))
  && (2 * y r <=? cy2) && (cy2 <=? 2 * (y r + height r)).

Fixpoint firstUnder (dragged : Z) (cx2 cy2 : Z) (tiledWindows : list WindowState)
  : option Z :=
  match tiledWindows with
  | [] => None
  | tiled :: rest =>
      if id tiled =? dragged then firstUnder dragged cx2 cy2 rest
      else if _isPointInRect cx2 cy2 (rect tiled) then Some (id tiled)
      else firstUnder dragged cx2 cy2 rest
  end.

(** [_checkForSwap]; a dragged id of 0 is falsy and ends the check. *)
Definition _checkForSwap (s : StateStore.t) (currentRect : Rect) (d : Drag)
  : Drag :=
  if _draggedWindowId d =? 0 then d
  else
    let newTarget :=
      firstUnder (_draggedWindowId d)
        (2 * x currentRect + width currentRect)
        (2 * y currentRect + height currentRect)
        (getTiledWindows s) in
    mkDrag (_draggedWindowId d) (_dragStartRect d) newTarget.

Definition _performSwap (s : StateStore.t) (d : Drag) : option SwapEvent :=
  if _draggedWindowId d =? 0 then None
  else
    match _potentialSwapTarget d with
    | None => None
    | Some target =>
        if target =? 0 then None
        else
          match getWindow s target with
          | None => None
          | Some targetState =>
              match getWindow s (_draggedWindowId d) with
              | None => None
              | Some draggedState =>
                  Some {| draggedWindow := _draggedWindowId d;
                          targetWindowId := target;
                          draggedTargetRect := rect targetState;
                          targetNewRect := _dragStartRect d |}
              end
          end
    end.

(** [_isInEdgeZone]; [monitor] is the work area of the monitor under the
    pointer, if there is one.  The gap and the insert detector carry the
    same function. *)
Definition _isInEdgeZone (cfg : Config) (monitor : option Rect) (px py : Z)
  : bool :=
  match monitor with
  | None => false
  | Some workArea =>
      let threshold := SNAP_THRESHOLD cfg in
      let left := px <? x workArea + threshold in
      let right := x workArea + width workArea - threshold <? px in
      let top := py <? y workArea + threshold in
      left || right || top
  end.

(** [_onGrabEnd]: edge zones win over a pending swap. *)
Definition _onGrabEnd (s : StateStore.t) (inEdgeZone : bool) (d : Drag)
  : option SwapEvent :=
  match _potentialSwapTarget d with
  | Some _ => if negb inEdgeZone then _performSwap s d else None
  | None => None
  end.

End SwapDetector.

(* ------------------------------------------------------------------ *)
(** ** core/LayoutEngine.js *)

Module LayoutEngine.

Definition _getQuadrant (workArea : Rect) (horizontal vertical : string)
    (gap : Z) : Rect :=
  let halfWidth := (width workArea - gap * 3) / 2 in
  let halfHeight := (height workArea - gap * 3) / 2 in
  let x' := if String.eqb horizontal "left"
            then x workArea + gap
            else x workArea + width workArea - halfWidth - gap in
  let y' := if String.eqb vertical "top"
            then y workArea + gap
            else y workArea + height workArea - halfHeight - gap in
  mkRect x' y' halfWidth halfHeight.

(** [calculateSnapRect]; the work area of the monitor is passed in. *)
Definition calculateSnapRect (cfg : Config) (zone : string) (workArea : Rect)
  : Rect :=
  let gap := INNER_GAP cfg in
  if String.eqb zone "left" then getLeftHalfRect workArea gap
  else if String.eqb zone "right" then getRightHalfRect workArea gap
  else if String.eqb zone "top" then getMaximizedRect workArea gap
  else if String.eqb zone "maximize" then getMaximizedRect workArea gap
  else if String.eqb zone "left-top"
       then _getQuadrant workArea "left" "top" gap
  else if String.eqb zone "right-top"
       then _getQuadrant workArea "right" "top" gap
  else if String.eqb zone "left-bottom"
       then _getQuadrant workArea "left" "bottom" gap
  else if String.eqb zone "right-bottom"
       then _getQuadrant workArea "right" "bottom" gap
  else getMaximizedRect workArea gap.

(** The [position] argument of [calculateThirdRect]. *)
Inductive Third := ThirdLeft | ThirdCenter | ThirdRight.

Definition calculateThirdRect (cfg : Config) (workArea : Rect)
    (position : Third) : Rect :=
  let gap := INNER_GAP cfg in
  let thirdWidth := (width workArea - gap * 4) / 3 in
  let x' :=
    match position with
    | ThirdLeft => x workArea + gap
    | ThirdCenter => x workArea + gap * 2 + thirdWidth
    | ThirdRight => x workArea + gap * 3 + thirdWidth * 2
    end in
  {| x := x';
     y := y workArea + gap;
     width := thirdWidth;
     height := height workArea - gap * 2 |}.

(** [calculateTwoThirdsRect]: any [side] other than ["left"] is the right
    one. *)
Definition calculateTwoThirdsRect (cfg : Config) (workArea : Rect)
    (side : string) : Rect :=
  let gap := INNER_GAP cfg in
  let thirdWidth := (width workArea - gap * 4) / 3 in
  let twoThirdsWidth := thirdWidth * 2 + gap in
  let x' := if String.eqb side "left"
            then x workArea + gap
            else x workArea + width workArea - twoThirdsWidth - gap in
  {| x := x';
     y := y workArea + gap;
     width := twoThirdsWidth;
     height := height workArea - gap * 2 |}.

End LayoutEngine.

(* ------------------------------------------------------------------ *)
(** ** core/TileManager.js *)

(** [Math.floor(tiled.rect.width * scaleFactor)] with
    [scaleFactor = remainingWidth / currentTotalWidth] rounds twice in
    double precision.  For pixel-sized integers the product differs from
    the rational [w * r / t] by far less than [1 / t], so its floor is the
    exact floor, except that it may fall one short when [w * r / t] is an
    integer which the product misses from below (as [49 * (1 / 49)] does).
    The planner is parametric in such a rounding. *)
Record Rounding := mkRounding {
  scaleFloor : Z -> Z -> Z -> Z;
  scaleFloor_bounds :
    forall w r t, 0 < t ->
      w * r / t - 1 <= scaleFloor w r t <= w * r / t
}.

Definition exactRounding : Rounding.
Proof.
  refine (mkRounding (fun w r t => w * r / t) _).
  intros w r t _. lia.
Defined.

Module TileManager.
Import StateStore.
Import SwapDetector.

(** What the manager asks of the window tracker and of the compositor. *)
Record Env := mkEnv {
  trackedWindows : list Z;      (* ids the WindowTracker resolves *)
  workspaceWindows : list Z;    (* ids of getWorkspaceWindows() *)
  workAreaOf : Z -> Rect;       (* work area of the monitor of a window *)
  frameRect : Z -> Rect         (* getWindowRect *)
}.

Definition setState (i : Z) (p : PartialState) (w : World) : World :=
  mkWorld (setWindow (store w) i p) (calls w).

Definition recalc (cfg : Config) (w : World) : World :=
  mkWorld (recalculateNeighbors cfg (store w)) (calls w).

(** Stable sort by an integer key, as [Array.prototype.sort] with the
    comparator [a.rect.x - b.rect.x]. *)
Fixpoint insertBy {A : Type} (key : A -> Z) (a : A) (l : list A) : list A :=
  match l with
  | [] => [a]
  | h :: t =>
      if key a <=? key h then a :: h :: t
      else h :: insertBy key a t
  end.

Definition sortBy {A : Type} (key : A -> Z) (l : list A) : list A :=
  fold_right (insertBy key) [] l.

(** An entry of [actualWindows] in [_correctLayoutOverlaps]. *)
Record ActualWindow := mkActual {
  a_id : Z;
  a_rect : Rect;
  isPrimary : bool
}.

Definition sumZ (l : list Z) : Z := fold_left Z.add l 0.

(** [Math.ceil(a / b)] for [b > 0] *)
Definition ceilDiv (a b : Z) : Z := - ((- a) / b).

Section Manager.
Variable cfg : Config.
Variable R : Rounding.
Variable env : Env.

Definition _findMetaWindow (windowId : Z) : bool :=
  memZ windowId (trackedWindows env) || memZ windowId (workspaceWindows env).

(** *** Removal *)

Definition layoutEqual (workArea : Rect) (gap windowWidth : Z)
    (acc : World * Z) (tiled : WindowState) : World * Z :=
  let '(w, currentX) := acc in
  let rect :=
    {| x := currentX;
       y := y workArea + gap;
       width := windowWidth;
       height := height workArea - gap * 2 |} in
  let w1 := setRect (id tiled) rect w in
  let w2 := if _findMetaWindow (id tiled)
            then emit (MoveResize (id tiled) rect) w1 else w1 in
  (w2, currentX + windowWidth + gap).

Definition _redistributeAfterRemoval (w : World) : World :=
  let tiledWindows := getTiledWindows (store w) in
  match tiledWindows with
  | [] => w
  | first :: _ =>
      if negb (_findMetaWindow (id first)) then w
      else
        let workArea := workAreaOf env (id first) in
        let gap := INNER_GAP cfg in
        let totalWindows := Z.of_nat (List.length tiledWindows) in
        let totalGaps := gap * (totalWindows + 1) in
        let availableWidth := width workArea - totalGaps in
        let windowWidth := availableWidth / totalWindows in
        recalc cfg
          (fst (fold_left (layoutEqual workArea gap windowWidth)
                  tiledWindows (w, x workArea + gap)))
  end.

(** *** Auto-tiling

    [_autoTileWindow] and [_redistributeWindows], of the revision of
    TileManager.js that tiles new windows when [_autoTileEnabled] is set. *)

Definition _redistributeWindows (newWindow : Z) (w : World) : World :=
  let tiledWindows := getTiledWindows (store w) in
  let workArea := workAreaOf env newWindow in
  let gap := INNER_GAP cfg in
  let totalWindows := Z.of_nat (List.length tiledWindows) + 1 in
  let totalGaps := gap * (totalWindows + 1) in
  let availableWidth := width workArea - totalGaps in
  let windowWidth := availableWidth / totalWindows in
  let '(w1, currentX) :=
    fold_left (layoutEqual workArea gap windowWidth) tiledWindows
      (w, x workArea + gap) in
  let newRect :=
    {| x := currentX;
       y := y workArea + gap;
       width := windowWidth;
       height := height workArea - gap * 2 |} in
  emit (MoveResize newWindow newRect)
    (setState newWindow
       (tiledAt newRect (frameRect env newWindow) "auto"%string) w1).

Definition _autoTileWindow (window : Z) (w : World) : World :=
  recalc cfg
    match getTiledWindows (store w) with
    | [] =>
        let rect :=
          LayoutEngine.calculateSnapRect cfg "maximize"
            (workAreaOf env window) in
        emit (MoveResize window rect)
          (setState window
             (tiledAt rect (frameRect env window) "maximize"%string) w)
    | _ :: _ => _redistributeWindows window w
    end.

Definition _onWindowRemoved (windowId : Z) (w : World) : World :=
  let wasTiled :=
    match getWindow (store w) windowId with
    | Some st => isTiled st
    | None => false
    end in
  let w1 := mkWorld (removeWindow (store w) windowId) (calls w) in
  if wasTiled then _redistributeAfterRemoval w1 else w1.

Definition untileWindow (windowId : Z) (w : World) : World :=
  match getWindow (store w) windowId with
  | None => w
  | Some state =>
      match originalRect state with
      | None => w
      | Some original =>
          if negb (_findMetaWindow windowId) then w
          else
            let w1 := emit (MoveResize windowId original) w in
            _redistributeAfterRemoval
              (mkWorld (removeWindow (store w1) windowId) (calls w1))
      end
  end.

(** *** Snap and gap fill *)

(** [_onSnapDetected]; the frame rectangle is read before the window is
    moved. *)
Definition _onSnapDetected (window : Z) (zone : string) (w : World) : World :=
  let targetRect :=
    LayoutEngine.calculateSnapRect cfg zone (workAreaOf env window) in
  let originalRect := frameRect env window in
  let w1 := setState window (tiledAt targetRect originalRect zone) w in
  recalc cfg (emit (MoveResize window targetRect) w1).

(** [_onGapFillDetected]; here the frame rectangle is read after the
    move, [framed] is what the compositor reports then. *)
Definition _onGapFillDetected (window : Z) (gapRect framed : Rect)
    (w : World) : World :=
  let w1 := emit (MoveResize window gapRect) w in
  recalc cfg (setState window (tiledAt gapRect framed "gap-fill"%string) w1).

(** *** Swap *)

Definition _onSwapDetected (event : SwapEvent) (w : World) : World :=
  let draggedWindowId := draggedWindow event in
  if negb (_findMetaWindow (targetWindowId event)) then w
  else
    let w1 := emit (MoveResize draggedWindowId (draggedTargetRect event)) w in
    let w2 :=
      emit (MoveResize (targetWindowId event) (targetNewRect event)) w1 in
    let draggedState := getWindow (store w2) draggedWindowId in
    let targetState := getWindow (store w2) (targetWindowId event) in
    let w3 :=
      match draggedState with
      | Some _ =>
          setState draggedWindowId
            (rectAndZone (draggedTargetRect event)
               (orDefault (option_map zone targetState) "swapped"%string))
            w2
      | None => w2
      end in
    let w4 :=
      match targetState with
      | Some _ =>
          setState (targetWindowId event)
            (rectAndZone (targetNewRect event)
               (orDefault (option_map zone draggedState) "swapped"%string))
            w3
      | None => w3
      end in
    recalc cfg w4.

(** *** Insertion *)

(** The loop that scales the existing widths and enforces the minimum:
    [(windowWidths, widthAfterMinEnforcement, windowsAtMinWidth)]. *)
Fixpoint scaleWidths (remainingWidth currentTotalWidth : Z)
    (widths : list Z) : list Z * Z * Z :=
  match widths with
  | [] => ([], 0, 0)
  | wd :: rest =>
      let '(ws, total, atMin) :=
        scaleWidths remainingWidth currentTotalWidth rest in
      let scaledWidth := scaleFloor R wd remainingWidth currentTotalWidth in
      if scaledWidth <? MIN_WINDOW_WIDTH cfg
      then (MIN_WINDOW_WIDTH cfg :: ws, MIN_WINDOW_WIDTH cfg + total,
            atMin + 1)
      else (scaledWidth :: ws, scaledWidth + total, atMin)
  end.

Definition shrink (shrinkPerWindow wd : Z) : Z :=
  if MIN_WINDOW_WIDTH cfg <? wd
  then Z.max (MIN_WINDOW_WIDTH cfg) (wd - shrinkPerWindow)
  else wd.

(** The widths [_onInsertDetected] plans for a work area of width
    [workAreaWidth] and existing (sorted) widths [widths], whose sum is
    positive: [(newWindowWidth, windowWidths)]. *)
Definition planWidths (workAreaWidth : Z) (widths : list Z) : Z * list Z :=
  let gap := INNER_GAP cfg in
  let n := Z.of_nat (List.length widths) in
  let totalWindows := n + 1 in
  let totalGapSpace := gap * 2 + gap * (totalWindows - 1) in
  let availableWidth := workAreaWidth - totalGapSpace in
  let newWindowWidth :=
    Z.max (MIN_WINDOW_WIDTH cfg) (availableWidth / totalWindows) in
  let currentTotalWidth := sumZ widths in
  let remainingWidth := availableWidth - newWindowWidth in
  let '(windowWidths, widthAfterMinEnforcement, windowsAtMinWidth) :=
    scaleWidths remainingWidth currentTotalWidth widths in
  let excessWidth :=
    (widthAfterMinEnforcement + newWindowWidth) - availableWidth in
  if (0 <? excessWidth) && (windowsAtMinWidth <? n) then
    let windowsToShrink := n - windowsAtMinWidth in
    let shrinkPerWindow := ceilDiv excessWidth windowsToShrink in
    (newWindowWidth, map (shrink shrinkPerWindow) windowWidths)
  else (newWindowWidth, windowWidths).

(** [zone.position < rect.x + rect.width / 2], doubled. *)
Fixpoint findInsertIndex (position : Z) (tiledWindows : list WindowState)
    (i : nat) : nat :=
  match tiledWindows with
  | [] => i
  | tiled :: rest =>
      if 2 * position <? 2 * x (rect tiled) + width (rect tiled) then i
      else findInsertIndex position rest (S i)
  end.

Section Reposition.
Variable insertedWindowId : Z.
(** what [getWindowRect] reports for the new window once it has been moved:
    the original rectangle is read after [moveResizeWindow] *)
Variable framed : Rect.
Variable workArea : Rect.
Variable tiledWindows : list WindowState.
Variable windowWidths : list Z.
Variable newWindowWidth : Z.
Variable insertIndex : nat.

(** The repositioning loop, [k] iterations from index [i] on.  The
    window index stays below the number of existing windows because
    [insertIndex] is at most that number. *)
Fixpoint reposition (k i windowIndex : nat) (currentX : Z) (w : World)
  : World :=
  match k with
  | O => w
  | S k' =>
      let gap := INNER_GAP cfg in
      if Nat.eqb i insertIndex then
        let rect :=
          {| x := currentX;
             y := y workArea + gap;
             width := newWindowWidth;
             height := height workArea - gap * 2 |} in
        let w1 := emit (MoveResize insertedWindowId rect) w in
        let w2 :=
          setState insertedWindowId
            (tiledAt rect framed "inserted"%string) w1 in
        reposition k' (S i) windowIndex
          (currentX + newWindowWidth + gap) w2
      else
        match nth_error tiledWindows windowIndex,
              nth_error windowWidths windowIndex with
        | Some tiled, Some wd =>
            let rect :=
              {| x := currentX;
                 y := y workArea + gap;
                 width := wd;
                 height := height workArea - gap * 2 |} in
            let w1 :=
              if _findMetaWindow (id tiled)
              then setRect (id tiled) rect
                     (emit (MoveResize (id tiled) rect) w)
              else w in
            reposition k' (S i) (S windowIndex) (currentX + wd + gap) w1
        | _, _ => w
        end
  end.
End Reposition.

(** *** Overlap correction *)

Fixpoint needsCorrection (gap : Z) (actualWindows : list ActualWindow) : bool :=
  match actualWindows with
  | current :: ((next :: _) as rest) =>
      let currentRightEdge := x (a_rect current) + width (a_rect current) in
      let expectedGap := gap in
      let actualGap := x (a_rect next) - currentRightEdge in
      (actualGap <? expectedGap - 5) || needsCorrection gap rest
  | _ => false
  end.

(** "Keep widths as they are (system enforced), just fix positions" *)
Definition moveContiguous (gap : Z) (acc : World * Z) (win : ActualWindow)
  : World * Z :=
  let '(w, currentX) := acc in
  let newX := currentX in
  let newRect :=
    {| x := newX;
       y := y (a_rect win);
       width := width (a_rect win);
       height := height (a_rect win) |} in
  let w1 := if 2 <? Z.abs (newX - x (a_rect win))
            then setRect (a_id win) newRect
                   (emit (MoveResize (a_id win) newRect) w)
            else w in
  (w1, currentX + width (a_rect win) + gap).

(** [_correctLayoutOverlaps].  Every pass reads the frame rectangles
    back from the compositor; [actuals] lists what the compositor reports
    at the first pass, at the pass the first one starts, and so on, and the
    model runs as many passes as there are reports. *)
Fixpoint _correctLayoutOverlaps (actuals : list (Z -> Rect))
    (primaryWindowId : Z) (workArea : Rect) (w : World) : World :=
  match actuals with
  | [] => w
  | actual :: later =>
      let gap := INNER_GAP cfg in
      let tiledStates :=
        filter (fun st => memZ (id st) (workspaceWindows env))
          (getTiledWindows (store w)) in
      if (List.length tiledStates <? 2)%nat then w
      else
        let actualWindows :=
          sortBy (fun a => x (a_rect a))
            (map (fun st => mkActual (id st) (actual (id st))
                              (id st =? primaryWindowId))
               (filter (fun st => _findMetaWindow (id st)) tiledStates)) in
        if negb (needsCorrection gap actualWindows) then w
        else
          let '(w1, currentX) :=
            fold_left (moveContiguous gap) actualWindows
              (w, x workArea + gap) in
          let totalUsed := currentX - gap in
          let overflow := totalUsed - (x workArea + width workArea) in
          if 0 <? overflow then
            match find isPrimary actualWindows with
            | Some primary =>
                if overflow + MIN_WINDOW_WIDTH cfg <? width (a_rect primary)
                then
                  let newWidth := width (a_rect primary) - overflow in
                  let newRect :=
                    {| x := x (a_rect primary);
                       y := y (a_rect primary);
                       width := newWidth;
                       height := height (a_rect primary) |} in
                  _correctLayoutOverlaps later primaryWindowId workArea
                    (setRect (a_id primary) newRect
                       (emit (MoveResize (a_id primary) newRect) w1))
                else w1
            | None => w1
            end
          else w1
  end.

(** *** [_onInsertDetected] *)

(** The windows the new one joins: tiled, still on the workspace, and not
    the inserted window itself. *)
Definition rowFor (insertedWindowId : Z) (w : World) : list WindowState :=
  filter (fun st => negb (id st =? insertedWindowId)
                    && memZ (id st) (workspaceWindows env))
    (getTiledWindows (store w)).

(** The planning part of [_onInsertDetected] for a non-empty row, up to
    and including [recalculateNeighbors]; [framed] is the frame rectangle
    of the new window as read back after its move. *)
Definition insertIntoRow (insertedWindowId : Z) (framed : Rect)
    (position : Z) (w : World) : World :=
  let workArea := workAreaOf env insertedWindowId in
  let gap := INNER_GAP cfg in
  let sorted := sortBy (fun st => x (rect st)) (rowFor insertedWindowId w) in
  let totalWindows := S (List.length sorted) in
  let '(newWindowWidth, windowWidths) :=
    planWidths (width workArea) (map (fun st => width (rect st)) sorted) in
  let insertIndex := findInsertIndex position sorted 0 in
  recalc cfg
    (reposition insertedWindowId framed workArea sorted windowWidths
       newWindowWidth insertIndex totalWindows 0 0 (x workArea + gap) w).

(** [_onInsertDetected]; in both branches the window is moved first and
    its frame rectangle read afterwards, [framed] being what the
    compositor reports then. *)
Definition _onInsertDetected (actuals : list (Z -> Rect))
    (insertedWindowId : Z) (framed : Rect) (position : Z) (w : World)
  : World :=
  let workArea := workAreaOf env insertedWindowId in
  match rowFor insertedWindowId w with
  | [] =>
      let rect := LayoutEngine.calculateSnapRect cfg "maximize" workArea in
      let w1 := emit (MoveResize insertedWindowId rect) w in
      setState insertedWindowId (tiledAt rect framed "maximize"%string) w1
  | _ :: _ =>
      _correctLayoutOverlaps actuals insertedWindowId workArea
        (insertIntoRow insertedWindowId framed position w)
  end.
End Manager.

End TileManager.

(* ------------------------------------------------------------------ *)
(** ** services/SnapDetector.js *)

Module SnapDetector.

Definition _detectZone (px py : Z) (workArea : Rect) (threshold : Z)
  : option string :=
  let left := px <? x workArea + threshold in
  let right := x workArea + width workArea - threshold <? px in
  let top := py <? y workArea + threshold in
  let bottom := y workArea + height workArea - threshold <? py in
  if left && top then Some "left-top"%string
  else if right && top then Some "right-top"%string
  else if left && bottom then Some "left-bottom"%string
  else if right && bottom then Some "right-bottom"%string
  else if top then Some "top"%string
  else if left then Some "left"%string
  else if right then Some "right"%string
  else None.

(** The detector's fields during a drag. *)
Record t := mkDetector {
  _grabbedWindow : option Z;
  _currentZone : option string
}.

(** [_checkCursorPosition]; nothing happens off every monitor. *)
Definition _checkCursorPosition (cfg : Config) (monitor : option Rect)
    (px py : Z) (d : t) : t :=
  match monitor with
  | None => d
  | Some workArea =>
      mkDetector (_grabbedWindow d)
        (_detectZone px py workArea (SNAP_THRESHOLD cfg))
  end.

(** [_onGrabEnd]: the window and zone of the snap event, if one is
    emitted. *)
Definition _onGrabEnd (window : Z) (d : t) : option (Z * string) :=
  match _grabbedWindow d with
  | Some grabbed =>
      if grabbed =? window then
        match _currentZone d with
        | Some zone => Some (window, zone)
        | None => None
        end
      else None
  | None => None
  end.

End SnapDetector.

(* ------------------------------------------------------------------ *)
(** ** services/GapDetector.js *)

Module GapDetector.
Import StateStore.

Record GapZone := mkGapZone {
  g_rect : Rect;
  orientation : string
}.

Definition cursorInside (cursorX cursorY : Z) (win : WindowState) : bool :=
  (x (rect win) <=? cursorX) && (cursorX <=? x (rect win) + width (rect win))
  && (y (rect win) <=? cursorY)
  && (cursorY <=? y (rect win) + height (rect win)).

Section Find.
Variable cfg : Config.
Variable workArea : Rect.
Variable cursorX : Z.

(** The zone between [gapStart] and [gapEnd], if it is wide enough and
    the cursor is in it. *)
Definition zoneBetween (gapStart gapEnd : Z) : option GapZone :=
  if MIN_WINDOW_WIDTH cfg <=? gapEnd - gapStart then
    if (gapStart <=? cursorX) && (cursorX <=? gapEnd) then
      Some {| g_rect :=
                {| x := gapStart;
                   y := y workArea + INNER_GAP cfg;
                   width := gapEnd - gapStart;
                   height := height workArea - INNER_GAP cfg * 2 |};
              orientation := "horizontal" |}
    else None
  else None.

(** "Check gaps between windows" *)
Fixpoint gapsBetween (tiledWindows : list WindowState) : option GapZone :=
  match tiledWindows with
  | leftWin :: ((rightWin :: _) as rest) =>
      let gapStart :=
        x (rect leftWin) + width (rect leftWin) + INNER_GAP cfg in
      let gapEnd := x (rect rightWin) - INNER_GAP cfg in
      match zoneBetween gapStart gapEnd with
      | Some zone => Some zone
      | None => gapsBetween rest
      end
  | _ => None
  end.

(** [_findGapAtCursor] on the work area of the monitor under the
    cursor. *)
Definition findGap (cursorY : Z) (tiledWindows : list WindowState)
  : option GapZone :=
  let gap := INNER_GAP cfg in
  let sorted := TileManager.sortBy (fun st => x (rect st)) tiledWindows in
  if existsb (cursorInside cursorX cursorY) sorted then None
  else
    match sorted with
    | [] => None
    | firstWindow :: _ =>
        let leftGapStart := x workArea + gap in
        let leftGapEnd := x (rect firstWindow) - gap in
        match zoneBetween leftGapStart leftGapEnd with
        | Some zone => Some zone
        | None =>
            match gapsBetween sorted with
            | Some zone => Some zone
            | None =>
                let lastWindow := last sorted firstWindow in
                let rightGapStart :=
                  x (rect lastWindow) + width (rect lastWindow) + gap in
                let rightGapEnd := x workArea + width workArea - gap in
                zoneBetween rightGapStart rightGapEnd
            end
        end
    end.
End Find.

Definition _findGapAtCursor (cfg : Config) (monitor : option Rect)
    (cursorX cursorY : Z) (tiledWindows : list WindowState)
  : option GapZone :=
  match monitor with
  | None => None
  | Some workArea => findGap cfg workArea cursorX cursorY tiledWindows
  end.

(** [_checkForGap]: the zone handed to [_updateGapZone]. *)
Definition _checkForGap (cfg : Config) (monitor : option Rect)
    (workspace : list Z) (draggedWindowId : option Z) (s : StateStore.t)
    (cursorX cursorY : Z) : option GapZone :=
  if SwapDetector._isInEdgeZone cfg monitor cursorX cursorY then None
  else
    let tiledWindows :=
      filter (fun st =>
                memZ (id st) workspace
                && match draggedWindowId with
                   | Some dragged => negb (id st =? dragged)
                   | None => true
                   end)
        (getTiledWindows s) in
    match tiledWindows with
    | [] => None
    | _ :: _ => _findGapAtCursor cfg monitor cursorX cursorY tiledWindows
    end.

End GapDetector.

(* ------------------------------------------------------------------ *)
(** ** services/InsertDetector.js *)

Module InsertDetector.
Import StateStore.

Record InsertZone := mkInsertZone {
  orientation : string;
  position : Z;
  affectedWindowIds : list Z;
  insertRect : Rect
}.

(** [_boundaryThreshold] *)
Definition boundaryThreshold : Z := 20.

Section Find.
Variable cfg : Config.
Variable workArea : Rect.
Variable draggedWindowId : option Z.
Variable cursorX : Z.
(** all tiled windows, as passed to [_findInsertZone] *)
Variable tiledWindows : list WindowState.

Definition isDragged (st : WindowState) : bool :=
  match draggedWindowId with
  | Some dragged => id st =? dragged
  | None => false
  end.

Definition rightNeighborsOf (win : WindowState) (rightEdge : Z)
  : list WindowState :=
  filter (fun o => negb (isDragged o) && negb (id o =? id win)
                   && (Z.abs (x (rect o) - rightEdge) <? INNER_GAP cfg * 2))
    tiledWindows.

Definition leftNeighborsOf (win : WindowState) (leftEdge : Z)
  : list WindowState :=
  filter (fun o => negb (isDragged o) && negb (id o =? id win)
                   && (Z.abs (x (rect o) + width (rect o) - leftEdge)
                       <? INNER_GAP cfg * 2))
    tiledWindows.

(** The loop of [_findInsertZone] over the windows still to visit. *)
Fixpoint scan (todo : list WindowState) : option InsertZone :=
  match todo with
  | [] => None
  | win :: rest =>
      if isDragged win then scan rest
      else
        let rightEdge := x (rect win) + width (rect win) in
        let rightNeighbors := rightNeighborsOf win rightEdge in
        if (Z.abs (cursorX - rightEdge) <? boundaryThreshold)
           && negb (Nat.eqb (List.length rightNeighbors) 0)
        then
          Some {| orientation := "vertical";
                  position := rightEdge;
                  affectedWindowIds := id win :: map id rightNeighbors;
                  insertRect :=
                    {| x := rightEdge;
                       y := y workArea + OUTER_GAP cfg;
                       width := 200;
                       height := height workArea - OUTER_GAP cfg * 2 |} |}
        else
          let leftEdge := x (rect win) in
          let leftNeighbors := leftNeighborsOf win leftEdge in
          if (Z.abs (cursorX - leftEdge) <? boundaryThreshold)
             && negb (Nat.eqb (List.length leftNeighbors) 0)
          then
            Some {| orientation := "vertical";
                    position := leftEdge;
                    affectedWindowIds := id win :: map id leftNeighbors;
                    insertRect :=
                      {| x := leftEdge - 100;
                         y := y workArea + OUTER_GAP cfg;
                         width := 200;
                         height := height workArea - OUTER_GAP cfg * 2 |} |}
          else scan rest
  end.

Definition _findInsertZone : option InsertZone := scan tiledWindows.
End Find.

(** [_checkForInsertZone]: the zone handed to [_updateInsertZone]. *)
Definition _checkForInsertZone (cfg : Config) (monitor : option Rect)
    (workArea : Rect) (draggedWindowId : option Z) (s : StateStore.t)
    (cursorX cursorY : Z) : option InsertZone :=
  match getTiledWindows s with
  | [] => None
  | _ :: _ =>
      if SwapDetector._isInEdgeZone cfg monitor cursorX cursorY then None
      else _findInsertZone cfg workArea draggedWindowId cursorX
             (getTiledWindows s)
  end.

End InsertDetector.

(* ------------------------------------------------------------------ *)
(** ** Vocabulary of the properties *)

Section Vocabulary.
Import StateStore.
Variable cfg : Config.

Definition refreshed (T : list WindowState) (w : WindowState) : WindowState :=
  withNeighbors w (_findNeighbors cfg w T).

(** The test [_findNeighbors] applies to [other] for each direction. *)
Definition adjacent (d : Direction) (w o : WindowState) : bool :=
    match d with
    | DRight => nearEdge cfg (getRightEdge (rect w)) (x (rect o))
                && hasVerticalOverlap (rect w) (rect o)
                     (NEIGHBOR_OVERLAP_MIN cfg)
    | DLeft => nearEdge cfg (x (rect w)) (getRightEdge (rect o))
               && hasVerticalOverlap (rect w) (rect o)
                    (NEIGHBOR_OVERLAP_MIN cfg)
    | DBottom => nearEdge cfg (getBottomEdge (rect w)) (y (rect o))
                 && hasHorizontalOverlap (rect w) (rect o)
                      (NEIGHBOR_OVERLAP_MIN cfg)
    | DTop => nearEdge cfg (y (rect w)) (getBottomEdge (rect o))
              && hasHorizontalOverlap (rect w) (rect o)
                   (NEIGHBOR_OVERLAP_MIN cfg)
    end.
(** A rectangle that respects both configured minima. *)
Definition bounded (r : Rect) : Prop :=
  MIN_WINDOW_WIDTH cfg <= width r /\ MIN_WINDOW_HEIGHT cfg <= height r.

(** What a resize tick may send to the compositor: a rectangle within the
    minima, or the last known rectangle of the window being resized. *)
Definition emittedOk (h : ResizeHandler.t) (c : Call) : Prop :=
  match c with
  | MoveResize i r =>
      bounded r \/
      (ResizeHandler._resizingWindowId h = Some i /\
       ResizeHandler._lastRect h = Some r)
  | Raise _ => True
  end.
(** [w'] comes from [w] by sending acceptable calls only. *)
Definition appendsOk (h : ResizeHandler.t) (w w' : World) : Prop :=
  exists new, calls w' = calls w ++ new /\ Forall (emittedOk h) new.

(** What one iteration of a resize loop does with neighbour [nb]: nothing,
    the revert of the window being resized, or a bounded rectangle for
    [nb]. *)
Inductive outcome (h : ResizeHandler.t) (nb : WindowState) (w : World)
  : World -> Prop :=
| Skipped : outcome h nb w w
| Reverted : outcome h nb w (ResizeHandler.constrainBack h w)
| Placed (r : Rect) :
    bounded r -> outcome h nb w (ResizeHandler.place (id nb) r w).

(** Every id in a neighbour list of window [rid] is another window, whose
    registry rectangle respects the minima. *)
Definition neighborsBounded (s : StateStore.t) (rid : Z) : Prop :=
  forall rS d i,
    getWindow s rid = Some rS -> In i (side d (neighbors rS)) ->
    i <> rid /\ forall st, getWindow s i = Some st -> bounded (rect st).

(** What holds of the registry throughout a tick in which [rid] is
    resized. *)
Definition tickInv (rid : Z) (w : World) : Prop :=
  StateStore.wf (store w) /\ neighborsBounded (store w) rid.
End Vocabulary.

(** One polling tick of the swap detector: the registry as it is then and
    the rectangle the compositor reports for the dragged window. *)
Definition poll (d : SwapDetector.Drag) (p : StateStore.t * Rect)
  : SwapDetector.Drag :=
  SwapDetector._checkForSwap (fst p) (snd p) d.

(** While a drag lasts the detector keeps the dragged id and the
    rectangle captured at its start, and never targets the dragged window. *)
Definition tracks (D : Z) (start : Rect) (d : SwapDetector.Drag) : Prop :=
  SwapDetector._draggedWindowId d = D /\
  SwapDetector._dragStartRect d = start /\
  forall t, SwapDetector._potentialSwapTarget d = Some t -> t <> D.

(** The rectangle equal distribution gives the window placed at
    [currentX]. *)
Definition slotAt (workArea : Rect) (gap windowWidth currentX : Z) : Rect :=
  {| x := currentX;
     y := y workArea + gap;
     width := windowWidth;
     height := height workArea - gap * 2 |}.

Import StateStore.

(** ** Example registries *)

Definition screen : Rect := mkRect 0 0 1920 1080.

(** Two windows snapped to the left and right half of [screen]. *)
Definition twoHalves : StateStore.t :=
  recalculateNeighbors CONFIG
    (setWindow
       (setWindow empty 1
          (tiledAt (getLeftHalfRect screen 8) (mkRect 100 100 640 480) "left"))
       2 (tiledAt (getRightHalfRect screen 8) (mkRect 300 200 800 600) "right")).

Definition leftHalf : WindowState :=
  mkWindowState 1 (mkRect 8 8 948 1064) (Some (mkRect 100 100 640 480))
    "left" true (mkNeighbors [] [2] [] []).

Definition rightHalf : WindowState :=
  mkWindowState 2 (mkRect 964 8 948 1064) (Some (mkRect 300 200 800 600))
    "right" true (mkNeighbors [1] [] [] []).

(** A window with two right neighbours stacked on top of each other; the
    upper one is at the minimum width. *)
Definition threeWindows : StateStore.t :=
  recalculateNeighbors CONFIG
    (setWindow
       (setWindow
          (setWindow empty 1
             (tiledAt (mkRect 8 8 600 1064) (mkRect 0 0 600 400) "left"))
          2 (tiledAt (mkRect 616 8 200 528) (mkRect 0 0 300 300) "gap-fill"))
       3 (tiledAt (mkRect 616 544 300 528) (mkRect 0 0 300 300) "gap-fill")).

Definition upperRight : WindowState :=
  mkWindowState 2 (mkRect 616 8 200 528) (Some (mkRect 0 0 300 300))
    "gap-fill" true (mkNeighbors [1] [] [] [3]).

Definition lowerRight : WindowState :=
  mkWindowState 3 (mkRect 616 544 300 528) (Some (mkRect 0 0 300 300))
    "gap-fill" true (mkNeighbors [1] [] [2] []).

Definition resizingEast : ResizeHandler.t :=
  ResizeHandler.mkHandler (Some 1) (Some (mkRect 8 8 600 1064))
    ResizeHandler.RESIZING_E.

Definition resizingWest : ResizeHandler.t :=
  ResizeHandler.mkHandler (Some 2) (Some (mkRect 964 8 948 1064))
    ResizeHandler.RESIZING_W.

Definition resizingSouth : ResizeHandler.t :=
  ResizeHandler.mkHandler (Some 2) (Some (mkRect 616 8 200 528))
    ResizeHandler.RESIZING_S.

Definition resizingNorth : ResizeHandler.t :=
  ResizeHandler.mkHandler (Some 3) (Some (mkRect 616 544 300 528))
    ResizeHandler.RESIZING_N.

(** One monitor with work area [screen] showing the windows [ids]. *)
Definition desktop (ids : list Z) : TileManager.Env :=
  TileManager.mkEnv ids ids (fun _ => screen) (fun _ => mkRect 50 50 800 600).

(** Three windows of equal width 629 side by side on [screen]. *)
Definition threeEqual : StateStore.t :=
  recalculateNeighbors CONFIG
    (setWindow
       (setWindow
          (setWindow empty 1
             (tiledAt (mkRect 8 8 629 1064) (mkRect 0 0 600 400) "auto"))
          2 (tiledAt (mkRect 645 8 629 1064) (mkRect 0 0 600 400) "auto"))
       3 (tiledAt (mkRect 1282 8 629 1064) (mkRect 0 0 600 400) "auto")).

(** Eleven windows snapped to the left half of [screen], one after the
    other. *)
Definition elevenLeft : StateStore.t :=
  recalculateNeighbors CONFIG
    (fold_left
       (fun s i =>
          setWindow s i
            (tiledAt (getLeftHalfRect screen 8) (mkRect 50 50 800 600) "left"))
       [1; 2; 3; 4; 5; 6; 7; 8; 9; 10; 11] empty).

(** What a planned rectangle of an insertion into a row looks like. *)
Definition plannedOk (cfg : Config) (workArea : Rect) (c : Call) : Prop :=
  match c with
  | MoveResize _ r =>
      MIN_WINDOW_WIDTH cfg <= width r /\
      height r = height workArea - 2 * INNER_GAP cfg
  | Raise _ => True
  end.
From Stdlib Require Import Permutation.


(* ------------------------------------------------------------------ *)
(** ** Vocabulary of the further properties *)

(** Inside the work area, with the gap as margin. *)
Definition insetIn (gap : Z) (workArea r : Rect) : Prop :=
  x workArea + gap <= x r /\ y workArea + gap <= y r /\
  getRightEdge r <= x workArea + width workArea - gap /\
  getBottomEdge r <= y workArea + height workArea - gap.

(** The operations the rest of the code performs on the registry. *)
Inductive Op :=
| OpSet (i : Z) (p : PartialState)
| OpRemove (i : Z)
| OpRecalculate
| OpClear.

Definition perform (cfg : Config) (s : StateStore.t) (o : Op) : StateStore.t :=
  match o with
  | OpSet i p => setWindow s i p
  | OpRemove i => removeWindow s i
  | OpRecalculate => recalculateNeighbors cfg s
  | OpClear => clear s
  end.

(** No caller of [setWindow] passes neighbour lists. *)
Definition plain (o : Op) : Prop :=
  match o with
  | OpSet _ p => p_neighbors p = None
  | _ => True
  end.

(** Every id in a neighbour list is a key of the registry. *)
Definition closedNeighbors (s : StateStore.t) : Prop :=
  forall st d j,
    In st (getAllWindows s) -> In j (side d (neighbors st)) ->
    getWindow s j <> None.

(** The loop of [ResizeHandler] for the neighbours on side [d]. *)
Definition adjustNeighbors (cfg : Config) (workspace : list Z)
    (h : ResizeHandler.t) (d : Direction) (delta : Z) (w : World) : World :=
  match d with
  | DRight => ResizeHandler._adjustRightNeighbors cfg workspace h delta w
  | DLeft => ResizeHandler._adjustLeftNeighbors cfg workspace h delta w
  | DBottom => ResizeHandler._adjustBottomNeighbors cfg workspace h delta w
  | DTop => ResizeHandler._adjustTopNeighbors cfg workspace h delta w
  end.

(** Rectangle [r] takes up a move by [delta] of the edge that neighbour
    [nb], on side [d], shares with the window being resized: the far edge
    and the other axis of [nb] stay, the near edge moves by [delta], or by
    less when the width stops at the minimum. *)
Definition follows (cfg : Config) (d : Direction) (delta : Z)
    (nb : WindowState) (r : Rect) : Prop :=
  match d with
  | DRight =>
      getRightEdge r = getRightEdge (rect nb) /\
      y r = y (rect nb) /\ height r = height (rect nb) /\
      (x r = x (rect nb) + delta \/
       (width r = MIN_WINDOW_WIDTH cfg /\
        x (rect nb) < x r < x (rect nb) + delta))
  | DLeft =>
      x r = x (rect nb) /\
      y r = y (rect nb) /\ height r = height (rect nb) /\
      (getRightEdge r = getRightEdge (rect nb) + delta \/
       (width r = MIN_WINDOW_WIDTH cfg /\
        getRightEdge (rect nb) + delta < getRightEdge r
          < getRightEdge (rect nb)))
  | DBottom =>
      getBottomEdge r = getBottomEdge (rect nb) /\
      x r = x (rect nb) /\ width r = width (rect nb) /\
      y r = y (rect nb) + delta /\ MIN_WINDOW_HEIGHT cfg <= height r
  | DTop =>
      y r = y (rect nb) /\
      x r = x (rect nb) /\ width r = width (rect nb) /\
      getBottomEdge r = getBottomEdge (rect nb) + delta /\
      MIN_WINDOW_HEIGHT cfg <= height r
  end.

(** What a resize loop over [snapshot] may send to the compositor: the
    last known rectangle of the window being resized, or, for a neighbour
    of the snapshot that is on the workspace, a rectangle that follows the
    moved edge, and a raise of such a neighbour. *)
Definition loopCall (cfg : Config) (workspace : list Z)
    (h : ResizeHandler.t) (d : Direction) (delta : Z)
    (snapshot : list WindowState) (c : Call) : Prop :=
  match c with
  | MoveResize i r =>
      (ResizeHandler._resizingWindowId h = Some i /\
       ResizeHandler._lastRect h = Some r) \/
      exists nb, In nb snapshot /\ id nb = i /\ memZ i workspace = true /\
                 follows cfg d delta nb r
  | Raise i =>
      exists nb, In nb snapshot /\ id nb = i /\ memZ i workspace = true
  end.

(** The body of the loop for side [d]. *)
Definition adjustStep (cfg : Config) (workspace : list Z)
    (h : ResizeHandler.t) (delta : Z) (d : Direction)
  : World -> WindowState -> World :=
  match d with
  | DRight => ResizeHandler.adjustRight cfg workspace h delta
  | DLeft => ResizeHandler.adjustLeft cfg workspace h delta
  | DBottom => ResizeHandler.adjustBottom cfg workspace delta
  | DTop => ResizeHandler.adjustTop cfg workspace delta
  end.

(** Registry [s'] holds every entry of [s], with at most the rectangle
    changed. *)
Definition rectsOnly (s s' : StateStore.t) : Prop :=
  forall i st, getWindow s i = Some st ->
    exists st', getWindow s' i = Some st' /\
      id st' = id st /\ originalRect st' = originalRect st /\
      zone st' = zone st /\ isTiled st' = isTiled st /\
      neighbors st' = neighbors st.

(** Registry [s'] has no key that [s] lacks, except possibly [rid]. *)
Definition sameKeysBut (rid : option Z) (s s' : StateStore.t) : Prop :=
  forall i, getWindow s i = None -> rid <> Some i -> getWindow s' i = None.

Definition tickFrame (rid : option Z) (s s' : StateStore.t) : Prop :=
  StateStore.wf s' /\ rectsOnly s s' /\ sameKeysBut rid s s'.

(** Everything a registry entry holds but its neighbour lists. *)
Definition fields (st : WindowState)
  : Z * Rect * option Rect * string * bool :=
  (id st, rect st, originalRect st, zone st, isTiled st).

(** Registry [s'] has the windows of [s], no other, each with the tiled
    flag and the original rectangle it has in [s]. *)
Definition keepsTiling (s s' : StateStore.t) : Prop :=
  (forall i st, getWindow s i = Some st ->
     exists st', getWindow s' i = Some st' /\
       isTiled st' = isTiled st /\ originalRect st' = originalRect st) /\
  (forall i, getWindow s i = None -> getWindow s' i = None).

(** The centre of [cur] lies in [r], edges included; centres are compared
    doubled. *)
Definition centreIn (cur r : Rect) : Prop :=
  2 * x r <= 2 * x cur + width cur <= 2 * (x r + width r) /\
  2 * y r <= 2 * y cur + height cur <= 2 * (y r + height r).

(** Registry [s'] has the windows of [s], no other, each with the id,
    original rectangle, zone and tiled flag it has in [s]; windows that
    are not tiled also keep their rectangle. *)
Definition relaid (s s' : StateStore.t) : Prop :=
  (forall i st, getWindow s i = Some st ->
     exists st', getWindow s' i = Some st' /\
       id st' = id st /\ originalRect st' = originalRect st /\
       zone st' = zone st /\ isTiled st' = isTiled st /\
       (isTiled st = false -> rect st' = rect st)) /\
  (forall i, getWindow s i = None -> getWindow s' i = None).

(** A rectangle sent to one of the windows [l] that the manager can
    find. *)
Definition targets (env : TileManager.Env) (l : list WindowState) (c : Call)
  : Prop :=
  exists t r, In t l /\ TileManager._findMetaWindow env (id t) = true /\
              c = MoveResize (id t) r.

(** A rectangle for a window other than [i] that registry [s] holds as
    tiled. *)
Definition forOtherTiled (s : StateStore.t) (i : Z) (c : Call) : Prop :=
  exists j r st, c = MoveResize j r /\ j <> i /\
                 getWindow s j = Some st /\ isTiled st = true.

(** The windows the gap detector looks at: tiled, on the workspace, and
    not the one being dragged. *)
Definition gapCandidate (workspace : list Z) (dragged : option Z)
    (s : StateStore.t) (t : WindowState) : Prop :=
  In t (getTiledWindows s) /\ memZ (id t) workspace = true /\
  dragged <> Some (id t).

(** What [_findInsertZone] reports for the boundary at an edge of [win]
    with the windows [others] on the other side of it; [near o] is the
    edge of [o] that has to be close to the boundary. *)
Definition boundaryOf (cfg : Config) (dragged : option Z)
    (tiledWindows : list WindowState) (win : WindowState)
    (others : list WindowState) (boundary : Z) (near : Rect -> Z) : Prop :=
  others <> [] /\
  In win tiledWindows /\ dragged <> Some (id win) /\
  forall o, In o others ->
    In o tiledWindows /\ dragged <> Some (id o) /\ id o <> id win /\
    Z.abs (near (rect o) - boundary) < INNER_GAP cfg * 2.

(** *** The row an insertion lays out

    The repositioning loop of [_onInsertDetected] visits the existing
    windows in order, each with its planned width, and the new window at
    index [insertIndex]. *)
Inductive Slot :=
| Existing (tiled : WindowState) (wd : Z)
| Inserted.

Definition rowPlan (sorted : list WindowState) (windowWidths : list Z)
    (insertIndex : nat) : list Slot :=
  map (fun p => Existing (fst p) (snd p))
    (firstn insertIndex (combine sorted windowWidths))
  ++ Inserted
  :: map (fun p => Existing (fst p) (snd p))
       (skipn insertIndex (combine sorted windowWidths)).

Definition slotWidth (newWindowWidth : Z) (s : Slot) : Z :=
  match s with
  | Existing _ wd => wd
  | Inserted => newWindowWidth
  end.

Definition slotId (insertedWindowId : Z) (s : Slot) : Z :=
  match s with
  | Existing tiled _ => id tiled
  | Inserted => insertedWindowId
  end.

(** The rectangle of the [j]-th slot of a row that starts at [x0]. *)
Definition slotRect (workArea : Rect) (gap newWindowWidth x0 : Z)
    (P : list Slot) (j : nat) (s : Slot) : Rect :=
  {| x := x0 + TileManager.sumZ
                 (map (fun s' => slotWidth newWindowWidth s' + gap)
                    (firstn j P));
     y := y workArea + gap;
     width := slotWidth newWindowWidth s;
     height := height workArea - gap * 2 |}.

(** One iteration of the repositioning loop, by the kind of slot;
    [framed] is the frame rectangle of the new window as read back after
    its move. *)
Definition placeSlot (cfg : Config) (env : TileManager.Env)
    (insertedWindowId : Z) (framed workArea : Rect) (newWindowWidth : Z)
    (acc : World * Z) (s : Slot) : World * Z :=
  let '(w, currentX) := acc in
  let gap := INNER_GAP cfg in
  let rect :=
    {| x := currentX;
       y := y workArea + gap;
       width := slotWidth newWindowWidth s;
       height := height workArea - gap * 2 |} in
  match s with
  | Inserted =>
      (TileManager.setState insertedWindowId
         (tiledAt rect framed "inserted"%string)
         (emit (MoveResize insertedWindowId rect) w),
       currentX + newWindowWidth + gap)
  | Existing tiled wd =>
      (if TileManager._findMetaWindow env (id tiled)
       then setRect (id tiled) rect (emit (MoveResize (id tiled) rect) w)
       else w,
       currentX + wd + gap)
  end.

(** What the overlap correction may send to the compositor, given the
    frame rectangles [actuals] it read back: a rectangle that keeps the
    vertical extent of the window as reported, and its width too unless it
    is the primary window being shrunk, which stays wider than the
    minimum and where it was reported. *)
Definition correctionCall (cfg : Config) (actuals : list (Z -> Rect))
    (primaryWindowId : Z) (c : Call) : Prop :=
  exists i r actual,
    In actual actuals /\ c = MoveResize i r /\
    y r = y (actual i) /\ height r = height (actual i) /\
    (width r = width (actual i) \/
     (i = primaryWindowId /\ x r = x (actual i) /\
      MIN_WINDOW_WIDTH cfg < width r < width (actual i))).

(** Registry [s'] has, apart from window [i], the windows of [s] and no
    other, each with its id, original rectangle, zone and tiled flag, and
    with its rectangle when it is not tiled. *)
Definition relaidExcept (i : Z) (s s' : StateStore.t) : Prop :=
  (forall j st, j <> i -> getWindow s j = Some st ->
     exists st', getWindow s' j = Some st' /\
       id st' = id st /\ originalRect st' = originalRect st /\
       zone st' = zone st /\ isTiled st' = isTiled st /\
       (isTiled st = false -> rect st' = rect st)) /\
  (forall j, j <> i -> getWindow s j = None -> getWindow s' j = None).

(** The rectangle a right neighbour gets when the shared edge moves by
    [delta] and its width stays within the minimum. *)
Definition movedRight (delta : Z) (nb : WindowState) : Rect :=
  {| x := x (rect nb) + delta;
     y := y (rect nb);
     width := width (rect nb) - delta;
     height := height (rect nb) |}.

(** A right neighbour that a move of the edge by [delta] can push: it is
    another window, tiled, on the workspace, passes the adjacency test of
    [_findNeighbors] against window [a], and stays within the minimum
    width. *)
Definition pushable (cfg : Config) (workspace : list Z) (rid : Z)
    (a : WindowState) (delta : Z) (nb : WindowState) : Prop :=
  id nb <> rid /\ isTiled nb = true /\ memZ (id nb) workspace = true /\
  MIN_WINDOW_WIDTH cfg <= width (rect nb) - delta /\
  adjacent cfg DRight a nb = true.

(** One polling tick of the snap detector: the work area of the monitor
    under the pointer, if any, and the pointer position. *)
Definition snapPoll (cfg : Config) (d : SnapDetector.t)
    (p : option Rect * (Z * Z)) : SnapDetector.t :=
  SnapDetector._checkCursorPosition cfg (fst p) (fst (snd p)) (snd (snd p)) d.

(** ** An insertion that needs correcting

    Window 3 is dropped on the boundary between the two halves of
    [screen], and the application behind window 1 refuses to be narrower
    than 700 pixels.  The frames read back overlap: the first pass pushes
    windows 3 and 2 to the right and, the row then being 62 pixels too
    wide, shrinks window 3 to 567 where it was reported; the second pass
    reads that and pushes both again, after which the row ends at the edge
    of the work area. *)
Definition reportedAfterInsert : list (Z -> Rect) :=
  [fun i => if i =? 1 then mkRect 8 8 700 1064
            else if i =? 3 then mkRect 645 8 629 1064
            else mkRect 1282 8 629 1064;
   fun i => if i =? 1 then mkRect 8 8 700 1064
            else if i =? 3 then mkRect 645 8 567 1064
            else mkRect 1353 8 629 1064].
(* ================================================================== *)
(** * Properties *)

Import StateStore.

(** ** The map *)

Section MapFacts.
Context {V : Type}.
Implicit Types (m : list (Z * V)) (k : Z) (v : V).

Lemma get_set_same k v m : JSMap.get k (JSMap.set k v m) = Some v.
Proof.
  induction m as [|[k' v'] m IH]; simpl.
  - now rewrite Z.eqb_refl.
  - destruct (k' =? k) eqn:E; simpl.
    + now rewrite Z.eqb_refl.
    + now rewrite E.
Qed.

Lemma get_set_other k k' v m :
  k <> k' -> JSMap.get k' (JSMap.set k v m) = JSMap.get k' m.
Proof.
  intros Hne. induction m as [|[k0 v0] m IH]; simpl.
  - destruct (k =? k') eqn:E; [apply Z.eqb_eq in E; lia | reflexivity].
  - destruct (k0 =? k) eqn:E; simpl.
    + apply Z.eqb_eq in E. subst k0.
      destruct (k =? k') eqn:E'; [apply Z.eqb_eq in E'; lia | reflexivity].
    + destruct (k0 =? k'); [reflexivity | exact IH].
Qed.

Lemma get_In k v m : JSMap.get k m = Some v -> In (k, v) m.
Proof.
  induction m as [|[k0 v0] m IH]; simpl; [discriminate|].
  destruct (k0 =? k) eqn:E.
  - apply Z.eqb_eq in E. intros [= ->]. subst. now left.
  - intros H. right. now apply IH.
Qed.

Lemma get_None_keys k m : JSMap.get k m = None <-> ~ In k (JSMap.keys m).
Proof.
  induction m as [|[k0 v0] m IH]; simpl.
  - split; [intros _ [] | reflexivity].
  - destruct (k0 =? k) eqn:E.
    + apply Z.eqb_eq in E. split; [discriminate | intros H; exfalso; auto].
    + apply Z.eqb_neq in E. rewrite IH. split; [intros H [?|?]; auto | auto].
Qed.

Lemma In_get k v m : NoDup (JSMap.keys m) -> In (k, v) m -> JSMap.get k m = Some v.
Proof.
  induction m as [|[k0 v0] m IH]; simpl; [intros _ []|].
  intros Hnd [Heq|Hin].
  - inversion Heq; subst. now rewrite Z.eqb_refl.
  - inversion Hnd as [|? ? Hnotin Hnd']; subst.
    destruct (k0 =? k) eqn:E.
    + apply Z.eqb_eq in E. subst k0. exfalso. apply Hnotin.
      unfold JSMap.keys. change k with (fst (k, v)). now apply in_map.
    + now apply IH.
Qed.

Lemma keys_set k v m :
  JSMap.keys (JSMap.set k v m) =
  if JSMap.has k m then JSMap.keys m else JSMap.keys m ++ [k].
Proof.
  unfold JSMap.has. induction m as [|[k0 v0] m IH]; simpl; [reflexivity|].
  destruct (k0 =? k) eqn:E; simpl.
  - apply Z.eqb_eq in E. now subst.
  - rewrite IH. now destruct (JSMap.get k m).
Qed.

Lemma get_delete_same k m : JSMap.get k (JSMap.delete k m) = None.
Proof.
  induction m as [|[k0 v0] m IH]; simpl; [reflexivity|].
  destruct (k0 =? k) eqn:E; simpl; [exact IH | now rewrite E].
Qed.

Lemma get_delete_other k k' m :
  k <> k' -> JSMap.get k' (JSMap.delete k m) = JSMap.get k' m.
Proof.
  intros Hne. induction m as [|[k0 v0] m IH]; simpl; [reflexivity|].
  destruct (k0 =? k) eqn:E; simpl.
  - apply Z.eqb_eq in E. subst k0.
    destruct (k =? k') eqn:E'; [apply Z.eqb_eq in E'; lia | exact IH].
  - destruct (k0 =? k'); [reflexivity | exact IH].
Qed.

Lemma delete_absent k m : JSMap.has k m = false -> JSMap.delete k m = m.
Proof.
  unfold JSMap.has. induction m as [|[k0 v0] m IH]; simpl; [reflexivity|].
  destruct (k0 =? k) eqn:E; simpl; [discriminate|].
  intros H. now rewrite IH.
Qed.

Lemma get_map_values (f : V -> V) k m :
  JSMap.get k (map (fun e => (fst e, f (snd e))) m)
  = option_map f (JSMap.get k m).
Proof.
  induction m as [|[k0 v0] m IH]; simpl; [reflexivity|].
  destruct (k0 =? k); [reflexivity | exact IH].
Qed.
End MapFacts.

(** ** The registry *)

Lemma In_without (i j : Z) (l : list Z) :
  In j (without i l) <-> In j l /\ j <> i.
Proof.
  unfold without. rewrite filter_In.
  split; intros [H1 H2]; split; auto.
  - apply negb_true_iff, Z.eqb_neq in H2. exact H2.
  - apply negb_true_iff, Z.eqb_neq. exact H2.
Qed.

Lemma purge_side (i : Z) (w : WindowState) (d : Direction) :
  side d (neighbors (purge i w)) = without i (side d (neighbors w)).
Proof. destruct d; reflexivity. Qed.

Lemma wf_empty : wf empty.
Proof. split; constructor. Qed.

Lemma set_ids (k : Z) (v : WindowState) (m : list (Z * WindowState)) :
  id v = k ->
  Forall (fun e => id (snd e) = fst e) m ->
  Forall (fun e => id (snd e) = fst e) (JSMap.set k v m).
Proof.
  intros Hv. induction m as [|[k0 v0] m IH]; simpl; intros H.
  - repeat constructor. exact Hv.
  - apply Forall_cons_iff in H as [H1 H2]. destruct (k0 =? k).
    + constructor; assumption.
    + constructor; [assumption | now apply IH].
Qed.

Lemma wf_setWindow (s : StateStore.t) (i : Z) (p : PartialState) :
  wf s -> wf (setWindow s i p).
Proof.
  intros [Hnd Hid]. unfold wf, setWindow. simpl. split.
  - rewrite keys_set. unfold JSMap.has.
    destruct (JSMap.get i (_windows s)) eqn:E; [exact Hnd|].
    apply get_None_keys in E.
    apply NoDup_app; [exact Hnd | repeat constructor; intros [] | ].
    intros a Ha [<-|[]]. contradiction.
  - apply set_ids; [reflexivity | exact Hid].
Qed.

Lemma wf_removeWindow (s : StateStore.t) (i : Z) :
  wf s -> wf (removeWindow s i).
Proof.
  intros [Hnd Hid]. unfold removeWindow.
  destruct (JSMap.has i (_windows s)); [|now split].
  unfold wf, _removeFromNeighbors, JSMap.delete, JSMap.keys. simpl. split.
  - rewrite map_map. simpl.
    revert Hnd. unfold JSMap.keys. generalize (_windows s). intros m.
    induction m as [|[k0 v0] m IH]; simpl; intros H; [constructor|].
    inversion H as [|? ? Hnotin Hnd']; subst.
    destruct (k0 =? i); simpl; [now apply IH|].
    constructor; [|now apply IH].
    intros Hin. apply Hnotin. apply in_map_iff in Hin as [e [<- He]].
    apply filter_In in He as [He _]. now apply in_map.
  - apply Forall_forall. intros e He.
    apply in_map_iff in He as [e0 [<- He0]]. simpl.
    apply filter_In in He0 as [He0 _].
    rewrite Forall_forall in Hid. exact (Hid e0 He0).
Qed.

Section RecalcFacts.
Variable cfg : Config.

Lemma wf_recalculateNeighbors (s : StateStore.t) :
  wf s -> wf (recalculateNeighbors cfg s).
Proof.
  intros [Hnd Hid]. unfold wf, recalculateNeighbors. simpl.
  set (T := getTiledWindows s). clearbody T. split.
  - unfold JSMap.keys in *. rewrite map_map.
    erewrite map_ext; [exact Hnd|].
    intros [k v]. simpl. now destruct (isTiled v).
  - rewrite Forall_forall in *. intros e He.
    apply in_map_iff in He as [[k v] [<- He0]]. simpl.
    specialize (Hid _ He0). simpl in Hid.
    now destruct (isTiled v).
Qed.

Lemma getWindow_recalculateNeighbors (s : StateStore.t) (i : Z) :
  getWindow (recalculateNeighbors cfg s) i =
  option_map (fun w => if isTiled w then refreshed cfg (getTiledWindows s) w
                       else w)
    (getWindow s i).
Proof.
  unfold getWindow, recalculateNeighbors. simpl.
  set (T := getTiledWindows s). clearbody T.
  induction (_windows s) as [|[k v] m IH]; simpl; [reflexivity|].
  destruct (isTiled v) eqn:Ev; simpl; destruct (k =? i); simpl;
    try rewrite Ev; auto.
Qed.

Lemma getTiledWindows_recalculateNeighbors (s : StateStore.t) :
  getTiledWindows (recalculateNeighbors cfg s) =
  map (refreshed cfg (getTiledWindows s)) (getTiledWindows s).
Proof.
  unfold getTiledWindows at 1 3. unfold recalculateNeighbors. simpl.
  set (T := getTiledWindows s). clearbody T. unfold JSMap.values.
  induction (_windows s) as [|[k v] m IH]; simpl; [reflexivity|].
  destruct (isTiled v) eqn:Ev; simpl; rewrite Ev; simpl; now rewrite IH.
Qed.

Lemma In_findNeighbors (d : Direction) (w : WindowState)
    (T : list WindowState) (j : Z) :
  In j (side d (_findNeighbors cfg w T)) <->
  exists o, In o T /\ id o = j /\ id o <> id w /\ adjacent cfg d w o = true.
Proof.
  induction T as [|o T IH].
  - destruct d; simpl; split; try tauto; intros [o [[] _]].
  - cbn [_findNeighbors].
    destruct (id o =? id w) eqn:E.
    + rewrite IH. apply Z.eqb_eq in E. split.
      * intros [o' [Hin H]]. exists o'. split; [now right | exact H].
      * intros [o' [[->|Hin] [H1 [H2 H3]]]]; [contradiction|].
        exists o'. auto.
    + apply Z.eqb_neq in E.
      assert (Hstep :
        In j (side d (_findNeighbors cfg w T)) \/
        (id o = j /\ adjacent cfg d w o = true) <->
        exists o', In o' (o :: T) /\ id o' = j /\ id o' <> id w
                   /\ adjacent cfg d w o' = true).
      { rewrite IH. split.
        - intros [[o' [Hin H]]|[H1 H2]].
          + exists o'. split; [now right | exact H].
          + exists o. split; [now left | auto].
        - intros [o' [[->|Hin] [H1 [H2 H3]]]].
          + right. auto.
          + left. exists o'. auto. }
      rewrite <- Hstep. clear Hstep IH.
      destruct d; cbn [side left right top bottom adjacent];
        match goal with
        | |- context [if ?c then _ else _] => destruct c
        end; simpl; intuition congruence.
Qed.
End RecalcFacts.

(** Two registry entries with the same id are the same entry. *)
Lemma wf_values_inj (s : StateStore.t) (a b : WindowState) :
  wf s -> In a (getAllWindows s) -> In b (getAllWindows s) ->
  id a = id b -> a = b.
Proof.
  intros [Hnd Hid] Ha Hb Hab. unfold getAllWindows, JSMap.values in *.
  rewrite Forall_forall in Hid.
  apply in_map_iff in Ha as [[ka va] [<- Ha]].
  apply in_map_iff in Hb as [[kb vb] [<- Hb]]. simpl in *.
  pose proof (Hid _ Ha) as Ia. pose proof (Hid _ Hb) as Ib. simpl in *.
  assert (ka = kb) by congruence. subst kb.
  apply (In_get _ _ _ Hnd) in Ha. apply (In_get _ _ _ Hnd) in Hb.
  congruence.
Qed.

Lemma tiled_in_all (s : StateStore.t) (a : WindowState) :
  In a (getTiledWindows s) -> In a (getAllWindows s).
Proof. unfold getTiledWindows. intros H. now apply filter_In in H. Qed.

(** After a recomputation, membership in a neighbour list of a tiled
    window is exactly the adjacency test against another tiled window. *)
Lemma recalc_neighbor_iff (cfg : Config) (s : StateStore.t)
    (A B : WindowState) (d : Direction) :
  wf s ->
  In A (getTiledWindows (recalculateNeighbors cfg s)) ->
  In B (getTiledWindows (recalculateNeighbors cfg s)) ->
  In (id B) (side d (neighbors A)) <->
  id B <> id A /\ adjacent cfg d A B = true.
Proof.
  intros Hwf HA HB.
  rewrite getTiledWindows_recalculateNeighbors in HA, HB.
  apply in_map_iff in HA as [A0 [<- HA0]].
  apply in_map_iff in HB as [B0 [<- HB0]].
  unfold refreshed at 2. cbn [neighbors withNeighbors].
  rewrite In_findNeighbors.
  change (id (refreshed cfg (getTiledWindows s) B0)) with (id B0).
  change (id (refreshed cfg (getTiledWindows s) A0)) with (id A0).
  assert (Hadj : forall o, adjacent cfg d (refreshed cfg (getTiledWindows s) A0)
                             (refreshed cfg (getTiledWindows s) o)
                           = adjacent cfg d A0 o)
    by (intros o; destruct d; reflexivity).
  rewrite Hadj. split.
  - intros [o [Ho [Hid [Hne Ho']]]].
    assert (o = B0) as ->.
    { apply (wf_values_inj s); auto using tiled_in_all. }
    auto.
  - intros [Hne Ho]. exists B0. auto.
Qed.

Lemma nearEdge_sym (cfg : Config) (a b : Z) : nearEdge cfg a b = nearEdge cfg b a.
Proof.
  unfold nearEdge. replace (b - a) with (- (a - b)) by lia.
  now rewrite Z.abs_opp.
Qed.

Lemma hasVerticalOverlap_sym (a b : Rect) (m : Z) :
  hasVerticalOverlap a b m = hasVerticalOverlap b a m.
Proof.
  unfold hasVerticalOverlap. cbv zeta.
  now rewrite Z.max_comm, Z.min_comm.
Qed.

Lemma hasHorizontalOverlap_sym (a b : Rect) (m : Z) :
  hasHorizontalOverlap a b m = hasHorizontalOverlap b a m.
Proof.
  unfold hasHorizontalOverlap. cbv zeta.
  now rewrite Z.max_comm, Z.min_comm.
Qed.

Lemma adjacent_right_left (cfg : Config) (a b : WindowState) :
  adjacent cfg DRight a b = adjacent cfg DLeft b a.
Proof.
  unfold adjacent.
  now rewrite nearEdge_sym, hasVerticalOverlap_sym.
Qed.

Lemma adjacent_bottom_top (cfg : Config) (a b : WindowState) :
  adjacent cfg DBottom a b = adjacent cfg DTop b a.
Proof.
  unfold adjacent.
  now rewrite nearEdge_sym, hasHorizontalOverlap_sym.
Qed.

Lemma adjacent_spec (cfg : Config) (d : Direction) (a b : WindowState) :
  adjacent cfg d a b = true ->
  match d with
  | DRight =>
      Z.abs (getRightEdge (rect a) - x (rect b)) <= EDGE_TOLERANCE cfg /\
      NEIGHBOR_OVERLAP_MIN cfg <= verticalOverlap (rect a) (rect b)
  | DLeft =>
      Z.abs (x (rect a) - getRightEdge (rect b)) <= EDGE_TOLERANCE cfg /\
      NEIGHBOR_OVERLAP_MIN cfg <= verticalOverlap (rect a) (rect b)
  | DBottom =>
      Z.abs (getBottomEdge (rect a) - y (rect b)) <= EDGE_TOLERANCE cfg /\
      NEIGHBOR_OVERLAP_MIN cfg <= horizontalOverlap (rect a) (rect b)
  | DTop =>
      Z.abs (y (rect a) - getBottomEdge (rect b)) <= EDGE_TOLERANCE cfg /\
      NEIGHBOR_OVERLAP_MIN cfg <= horizontalOverlap (rect a) (rect b)
  end.
Proof.
  destruct d; unfold adjacent, nearEdge, hasVerticalOverlap,
    hasHorizontalOverlap, verticalOverlap, horizontalOverlap; cbv zeta;
    intros H; apply andb_true_iff in H as [H1 H2];
    apply Z.leb_le in H1, H2; split; assumption.
Qed.

Lemma wf_twoHalves : wf twoHalves.
Proof.
  unfold twoHalves.
  apply wf_recalculateNeighbors.
  do 2 apply wf_setWindow. exact wf_empty.
Qed.

Lemma twoHalves_windows : getTiledWindows twoHalves = [leftHalf; rightHalf].
Proof. reflexivity. Qed.

(* ------------------------------------------------------------------ *)
(** ** Neighbour lists after [recalculateNeighbors] *)

(** C5: immediately after [recalculateNeighbors], whenever the id of a
    tiled window [B] is in the right list of a tiled window [A], the right
    edge of [A] is within [EDGE_TOLERANCE] of the left edge of [B] and the
    two project onto the vertical axis with an overlap of at least
    [NEIGHBOR_OVERLAP_MIN]; likewise for the left, bottom and top lists with
    the matching edges and, for bottom and top, the horizontal overlap. *)
Theorem C5_neighbors_are_adjacent (cfg : Config) (s : StateStore.t)
    (A B : WindowState) :
  wf s ->
  In A (getTiledWindows (recalculateNeighbors cfg s)) ->
  In B (getTiledWindows (recalculateNeighbors cfg s)) ->
  (In (id B) (right (neighbors A)) ->
     Z.abs (getRightEdge (rect A) - x (rect B)) <= EDGE_TOLERANCE cfg /\
     NEIGHBOR_OVERLAP_MIN cfg <= verticalOverlap (rect A) (rect B)) /\
  (In (id B) (left (neighbors A)) ->
     Z.abs (x (rect A) - getRightEdge (rect B)) <= EDGE_TOLERANCE cfg /\
     NEIGHBOR_OVERLAP_MIN cfg <= verticalOverlap (rect A) (rect B)) /\
  (In (id B) (bottom (neighbors A)) ->
     Z.abs (getBottomEdge (rect A) - y (rect B)) <= EDGE_TOLERANCE cfg /\
     NEIGHBOR_OVERLAP_MIN cfg <= horizontalOverlap (rect A) (rect B)) /\
  (In (id B) (top (neighbors A)) ->
     Z.abs (y (rect A) - getBottomEdge (rect B)) <= EDGE_TOLERANCE cfg /\
     NEIGHBOR_OVERLAP_MIN cfg <= horizontalOverlap (rect A) (rect B)).
Proof.
  intros Hwf HA HB.
  assert (H : forall d, In (id B) (side d (neighbors A)) ->
                        adjacent cfg d A B = true).
  { intros d Hin.
    now apply (recalc_neighbor_iff cfg s A B d Hwf HA HB) in Hin. }
  split; [|split; [|split]]; intros Hin.
  - exact (adjacent_spec cfg DRight A B (H DRight Hin)).
  - exact (adjacent_spec cfg DLeft A B (H DLeft Hin)).
  - exact (adjacent_spec cfg DBottom A B (H DBottom Hin)).
  - exact (adjacent_spec cfg DTop A B (H DTop Hin)).
Qed.

Lemma C5_witness :
  Z.abs (getRightEdge (rect leftHalf) - x (rect rightHalf)) <= 10 /\
  50 <= verticalOverlap (rect leftHalf) (rect rightHalf).
Proof.
  assert (Hs : wf (setWindow
       (setWindow empty 1
          (tiledAt (getLeftHalfRect screen 8) (mkRect 100 100 640 480) "left"))
       2 (tiledAt (getRightHalfRect screen 8) (mkRect 300 200 800 600) "right")))
    by (do 2 apply wf_setWindow; exact wf_empty).
  refine (proj1 (C5_neighbors_are_adjacent CONFIG _ leftHalf rightHalf Hs _ _) _).
  - simpl. left. reflexivity.
  - simpl. right. left. reflexivity.
  - simpl. left. reflexivity.
Defined.

(** C10: immediately after [recalculateNeighbors] the neighbour graph over
    tiled windows is symmetric: [B] is a right neighbour of [A] exactly
    when [A] is a left neighbour of [B], and [B] is a bottom neighbour of
    [A] exactly when [A] is a top neighbour of [B]. *)
Theorem C10_neighbors_symmetric (cfg : Config) (s : StateStore.t)
    (A B : WindowState) :
  wf s ->
  In A (getTiledWindows (recalculateNeighbors cfg s)) ->
  In B (getTiledWindows (recalculateNeighbors cfg s)) ->
  (In (id B) (right (neighbors A)) <-> In (id A) (left (neighbors B))) /\
  (In (id B) (bottom (neighbors A)) <-> In (id A) (top (neighbors B))).
Proof.
  intros Hwf HA HB. split.
  - rewrite (recalc_neighbor_iff cfg s A B DRight Hwf HA HB).
    rewrite (recalc_neighbor_iff cfg s B A DLeft Hwf HB HA).
    rewrite adjacent_right_left. intuition congruence.
  - rewrite (recalc_neighbor_iff cfg s A B DBottom Hwf HA HB).
    rewrite (recalc_neighbor_iff cfg s B A DTop Hwf HB HA).
    rewrite adjacent_bottom_top. intuition congruence.
Qed.

Lemma C10_witness :
  In (id rightHalf) (right (neighbors leftHalf)) <->
  In (id leftHalf) (left (neighbors rightHalf)).
Proof.
  assert (Hs : wf (setWindow
       (setWindow empty 1
          (tiledAt (getLeftHalfRect screen 8) (mkRect 100 100 640 480) "left"))
       2 (tiledAt (getRightHalfRect screen 8) (mkRect 300 200 800 600) "right")))
    by (do 2 apply wf_setWindow; exact wf_empty).
  refine (proj1 (C10_neighbors_symmetric CONFIG _ leftHalf rightHalf Hs _ _)).
  - simpl. left. reflexivity.
  - simpl. right. left. reflexivity.
Defined.

(* ------------------------------------------------------------------ *)
(** ** Snap rectangles *)

(** C8: for every work area and gap the rectangle of the "left" snap zone
    has width [floor ((workArea.width - 3 * gap) / 2)], height
    [workArea.height - 2 * gap] and origin
    [(workArea.x + gap, workArea.y + gap)]; on the work area
    [{0, 0, 1920, 1080}] with gap 8 it is [{8, 8, 948, 1064}]. *)
Theorem C8_left_snap_rect (cfg : Config) (workArea : Rect) (gap : Z) :
  getLeftHalfRect workArea gap =
    mkRect (x workArea + gap) (y workArea + gap)
      ((width workArea - 3 * gap) / 2) (height workArea - 2 * gap) /\
  LayoutEngine.calculateSnapRect cfg "left" workArea =
    getLeftHalfRect workArea (INNER_GAP cfg) /\
  LayoutEngine.calculateSnapRect CONFIG "left" (mkRect 0 0 1920 1080) =
    mkRect 8 8 948 1064.
Proof.
  split; [|split].
  - unfold getLeftHalfRect. f_equal; f_equal; lia.
  - reflexivity.
  - reflexivity.
Qed.

(* ------------------------------------------------------------------ *)
(** ** Removal from the registry *)

Lemma has_get {V : Type} (k : Z) (m : list (Z * V)) :
  JSMap.has k m = false <-> JSMap.get k m = None.
Proof.
  unfold JSMap.has. destruct (JSMap.get k m); split; congruence.
Qed.

(** C9: [removeWindow id] with [id] present deletes the entry, leaves every
    other entry in place with [id] filtered out of its four lists, so that
    afterwards no neighbour list of the registry contains [id], and notifies
    once; with [id] absent the registry, notification count included, is
    unchanged. *)
Theorem C9_removeWindow (s : StateStore.t) (i : Z) :
  (getWindow s i <> None ->
     getWindow (removeWindow s i) i = None /\
     (forall j w, j <> i -> getWindow s j = Some w ->
        getWindow (removeWindow s i) j = Some (purge i w)) /\
     (forall w d, In w (getAllWindows (removeWindow s i)) ->
        ~ In i (side d (neighbors w))) /\
     notified (removeWindow s i) = S (notified s)) /\
  (getWindow s i = None -> removeWindow s i = s).
Proof.
  unfold getWindow, removeWindow. split.
  - intros Hpresent.
    destruct (JSMap.has i (_windows s)) eqn:Hhas;
      [|apply has_get in Hhas; contradiction].
    simpl. unfold _removeFromNeighbors. repeat split.
    + rewrite get_map_values, get_delete_same. reflexivity.
    + intros j w Hne Hj.
      rewrite get_map_values, get_delete_other by auto.
      now rewrite Hj.
    + intros w d Hin. unfold getAllWindows, JSMap.values in Hin. simpl in Hin.
      rewrite map_map in Hin. simpl in Hin.
      apply in_map_iff in Hin as [e [<- _]].
      rewrite purge_side, In_without. intros [_ H]. now apply H.
  - intros Habsent. apply has_get in Habsent. now rewrite Habsent.
Qed.

Lemma C9_witness :
  getWindow (removeWindow twoHalves 2) 2 = None /\
  removeWindow twoHalves 7 = twoHalves.
Proof.
  split.
  - refine (proj1 (proj1 (C9_removeWindow twoHalves 2) _)).
    simpl. discriminate.
  - refine (proj2 (C9_removeWindow twoHalves 7) _).
    reflexivity.
Defined.

(* ------------------------------------------------------------------ *)
(** ** Resize propagation *)

Import ResizeHandler.

Lemma store_emit (c : Call) (w : World) : store (emit c w) = store w.
Proof. reflexivity. Qed.

Lemma getWindow_setRect_other (i j : Z) (r : Rect) (w : World) :
  i <> j -> getWindow (store (setRect i r w)) j = getWindow (store w) j.
Proof.
  intros Hne. unfold setRect, getWindow, setWindow. simpl.
  now apply get_set_other.
Qed.

Lemma getWindow_setRect_same (i : Z) (r : Rect) (w : World) :
  exists st, getWindow (store (setRect i r w)) i = Some st /\ rect st = r /\
    neighbors st =
      orDefault (option_map neighbors (getWindow (store w) i))
        (mkNeighbors [] [] [] []).
Proof.
  unfold setRect, getWindow, setWindow. simpl. rewrite get_set_same.
  eexists. split; [reflexivity|]. split; reflexivity.
Qed.

Lemma rect_setRect_same (i : Z) (r : Rect) (w : World) :
  option_map rect (getWindow (store (setRect i r w)) i) = Some r.
Proof.
  destruct (getWindow_setRect_same i r w) as [st [E [Hr _]]].
  now rewrite E, <- Hr.
Qed.

Lemma wf_get_id (s : StateStore.t) (i : Z) (st : WindowState) :
  wf s -> getWindow s i = Some st -> id st = i.
Proof.
  intros [_ Hid] Hget. apply get_In in Hget.
  rewrite Forall_forall in Hid. exact (Hid _ Hget).
Qed.

Section ResizeFacts.
Variable cfg : Config.
Variable workspace : list Z.
Variable h : ResizeHandler.t.

Lemma appendsOk_refl (w : World) : appendsOk cfg h w w.
Proof. exists []. now rewrite app_nil_r. Qed.

Lemma appendsOk_trans (w1 w2 w3 : World) :
  appendsOk cfg h w1 w2 -> appendsOk cfg h w2 w3 -> appendsOk cfg h w1 w3.
Proof.
  intros [n1 [E1 F1]] [n2 [E2 F2]]. exists (n1 ++ n2). split.
  - now rewrite E2, E1, app_assoc.
  - apply Forall_app. now split.
Qed.

Lemma outcome_appends (nb : WindowState) (w w' : World) :
  outcome cfg h nb w w' -> appendsOk cfg h w w'.
Proof.
  intros [| |r Hr].
  - apply appendsOk_refl.
  - unfold constrainBack.
    destruct (_resizingWindowId h) as [rid|] eqn:Er; [|apply appendsOk_refl].
    destruct (_lastRect h) as [[lx ly lw lh]|] eqn:El;
      [|apply appendsOk_refl].
    exists [MoveResize rid (mkRect lx ly lw lh)]. split; [reflexivity|].
    constructor; [|constructor]. right. auto.
  - exists [MoveResize (id nb) r; Raise (id nb)]. split.
    + unfold place, setRect, emit. simpl. now rewrite <- app_assoc.
    + constructor; [now left | constructor; [exact I | constructor]].
Qed.

(** A loop whose iterations have such outcomes sends acceptable calls
    only. *)
Lemma fold_appends (step : World -> WindowState -> World)
    (P : WindowState -> Prop) (l : list WindowState) (w : World) :
  (forall w0 nb, P nb -> outcome cfg h nb w0 (step w0 nb)) ->
  Forall P l ->
  appendsOk cfg h w (fold_left step l w).
Proof.
  intros Hstep. revert w. induction l as [|nb l IH]; intros w Hl;
    cbn [fold_left].
  - apply appendsOk_refl.
  - apply Forall_cons_iff in Hl as [Hnb Hl].
    eapply appendsOk_trans; [|apply IH; exact Hl].
    eapply outcome_appends. apply Hstep. exact Hnb.
Qed.

Lemma adjustRight_outcome (delta : Z) (w : World) (nb : WindowState) :
  bounded cfg (rect nb) ->
  outcome cfg h nb w (adjustRight cfg workspace h delta w nb).
Proof.
  intros [Hw Hh]. unfold adjustRight.
  destruct (negb _); [constructor|].
  destruct ((width (rect nb) - delta <? MIN_WINDOW_WIDTH cfg) && (0 <? delta))
    eqn:Ec.
  - destruct (width (rect nb) - MIN_WINDOW_WIDTH cfg <=? 0); [constructor|].
    constructor. split; simpl; lia.
  - constructor. split; simpl; [|exact Hh].
    apply andb_false_iff in Ec as [Ec|Ec].
    + apply Z.ltb_ge in Ec. exact Ec.
    + apply Z.ltb_ge in Ec. lia.
Qed.

Lemma adjustLeft_outcome (delta : Z) (w : World) (nb : WindowState) :
  bounded cfg (rect nb) ->
  outcome cfg h nb w (adjustLeft cfg workspace h delta w nb).
Proof.
  intros [Hw Hh]. unfold adjustLeft.
  destruct (negb _); [constructor|].
  destruct ((width (rect nb) + delta <? MIN_WINDOW_WIDTH cfg) && (delta <? 0))
    eqn:Ec.
  - destruct (width (rect nb) <=? MIN_WINDOW_WIDTH cfg); [constructor|].
    constructor. split; simpl; lia.
  - constructor. split; simpl; [|exact Hh].
    apply andb_false_iff in Ec as [Ec|Ec].
    + apply Z.ltb_ge in Ec. exact Ec.
    + apply Z.ltb_ge in Ec. lia.
Qed.

Lemma adjustBottom_outcome (delta : Z) (w : World) (nb : WindowState) :
  bounded cfg (rect nb) ->
  outcome cfg h nb w (adjustBottom cfg workspace delta w nb).
Proof.
  intros [Hw Hh]. unfold adjustBottom.
  destruct (negb _); [constructor|]. cbn [height].
  destruct (height (rect nb) - delta <? MIN_WINDOW_HEIGHT cfg) eqn:Ec;
    [constructor|].
  apply Z.ltb_ge in Ec. constructor. split; simpl; assumption.
Qed.

Lemma adjustTop_outcome (delta : Z) (w : World) (nb : WindowState) :
  bounded cfg (rect nb) ->
  outcome cfg h nb w (adjustTop cfg workspace delta w nb).
Proof.
  intros [Hw Hh]. unfold adjustTop.
  destruct (negb _); [constructor|]. cbn [height].
  destruct (height (rect nb) + delta <? MIN_WINDOW_HEIGHT cfg) eqn:Ec;
    [constructor|].
  apply Z.ltb_ge in Ec. constructor. split; simpl; assumption.
Qed.

(** *** A whole tick *)

Variable rid : Z.
Hypothesis resizing : _resizingWindowId h = Some rid.

Lemma inv_setRect_resizer (r : Rect) (w : World) :
  tickInv cfg rid w -> tickInv cfg rid (setRect rid r w).
Proof.
  intros [Hwf Hnb]. split; [now apply wf_setWindow|].
  intros rS d i HrS Hin.
  destruct (getWindow_setRect_same rid r w) as [st [E [_ Hn]]].
  rewrite E in HrS. injection HrS as <-. rewrite Hn in Hin.
  destruct (getWindow (store w) rid) as [old|] eqn:Eold;
    [|destruct d; contradiction].
  cbn [option_map orDefault] in Hin.
  destruct (Hnb old d i Eold Hin) as [Hne Hb]. split; [exact Hne|].
  intros st' Hst'. rewrite getWindow_setRect_other in Hst' by auto.
  now apply Hb.
Qed.

Lemma inv_setRect_neighbor (j : Z) (r : Rect) (w : World) :
  j <> rid -> bounded cfg r -> tickInv cfg rid w -> tickInv cfg rid (setRect j r w).
Proof.
  intros Hj Hr [Hwf Hnb]. split; [now apply wf_setWindow|].
  intros rS d i HrS Hin.
  rewrite getWindow_setRect_other in HrS by exact Hj.
  destruct (Hnb rS d i HrS Hin) as [Hne Hb]. split; [exact Hne|].
  intros st' Hst'. destruct (Z.eq_dec j i) as [->|Hji].
  - destruct (getWindow_setRect_same i r w) as [st [E [Hrect _]]].
    rewrite E in Hst'. injection Hst' as <-. now rewrite Hrect.
  - rewrite getWindow_setRect_other in Hst' by exact Hji. now apply Hb.
Qed.

Lemma outcome_inv (nb : WindowState) (w w' : World) :
  id nb <> rid -> outcome cfg h nb w w' -> tickInv cfg rid w -> tickInv cfg rid w'.
Proof.
  intros Hne [| |r Hr] Hinv.
  - exact Hinv.
  - unfold constrainBack. rewrite resizing.
    destruct (_lastRect h) as [lr|]; [|exact Hinv].
    apply inv_setRect_resizer. exact Hinv.
  - unfold place. apply inv_setRect_neighbor; auto.
Qed.

Lemma fold_inv (step : World -> WindowState -> World)
    (l : list WindowState) (w : World) :
  (forall w0 nb, bounded cfg (rect nb) -> outcome cfg h nb w0 (step w0 nb)) ->
  Forall (fun nb => id nb <> rid /\ bounded cfg (rect nb)) l ->
  tickInv cfg rid w -> tickInv cfg rid (fold_left step l w).
Proof.
  intros Hstep. revert w. induction l as [|nb l IH]; intros w Hl Hinv;
    cbn [fold_left]; [exact Hinv|].
  apply Forall_cons_iff in Hl as [[Hne Hb] Hl].
  apply IH; [exact Hl|].
  eapply outcome_inv; [exact Hne | apply Hstep; exact Hb | exact Hinv].
Qed.

Lemma snapshot_bounded (d : Direction) (w : World) :
  tickInv cfg rid w ->
  Forall (fun nb => id nb <> rid /\ bounded cfg (rect nb))
    (getNeighbors (store w) (Some rid) d).
Proof.
  intros [Hwf Hnb]. unfold getNeighbors.
  destruct (JSMap.get rid (_windows (store w))) as [rS|] eqn:ErS;
    [|constructor].
  assert (Hin : forall i, In i (side d (neighbors rS)) ->
                          In i (side d (neighbors rS))) by auto.
  revert Hin. generalize (side d (neighbors rS)) at 1 3. intros ids.
  induction ids as [|i ids IH]; intros Hin; cbn [resolve]; [constructor|].
  destruct (JSMap.get i (_windows (store w))) as [st|] eqn:Est.
  - constructor; [|apply IH; intros; apply Hin; now right].
    destruct (Hnb rS d i ErS (Hin i (or_introl eq_refl))) as [Hne Hb].
    rewrite (wf_get_id (store w) i st Hwf Est). split; [exact Hne|].
    now apply Hb.
  - apply IH. intros. apply Hin. now right.
Qed.

Lemma loop_ok (step : World -> WindowState -> World) (d : Direction)
    (w : World) :
  (forall w0 nb, bounded cfg (rect nb) -> outcome cfg h nb w0 (step w0 nb)) ->
  tickInv cfg rid w ->
  tickInv cfg rid (fold_left step (getNeighbors (store w) (Some rid) d) w) /\
  appendsOk cfg h w (fold_left step (getNeighbors (store w) (Some rid) d) w).
Proof.
  intros Hstep Hinv. pose proof (snapshot_bounded d w Hinv) as Hsnap. split.
  - now apply fold_inv.
  - apply fold_appends with (P := fun nb => bounded cfg (rect nb)); auto.
    eapply Forall_impl; [|exact Hsnap]. now intros nb [_ Hb].
Qed.

Lemma guarded_loop_ok (b : bool) (step : World -> WindowState -> World)
    (d : Direction) (w : World) :
  (forall w0 nb, bounded cfg (rect nb) -> outcome cfg h nb w0 (step w0 nb)) ->
  tickInv cfg rid w ->
  let w' := if b
            then fold_left step (getNeighbors (store w) (Some rid) d) w
            else w in
  tickInv cfg rid w' /\ appendsOk cfg h w w'.
Proof.
  intros Hstep Hinv. destruct b; cbv zeta.
  - now apply loop_ok.
  - split; [exact Hinv | apply appendsOk_refl].
Qed.

Lemma handleResizeUpdate_ok (currentRect : Rect) (w : World) :
  wf (store w) -> neighborsBounded cfg (store w) rid ->
  appendsOk cfg h w (snd (_handleResizeUpdate cfg workspace h currentRect w)).
Proof.
  intros Hwf Hnb. assert (I0 : tickInv cfg rid w) by (split; assumption).
  unfold _handleResizeUpdate. rewrite resizing.
  destruct (_lastRect h) as [lastRect|]; [|apply appendsOk_refl].
  destruct (rid =? 0); [apply appendsOk_refl|].
  unfold _adjustRightNeighbors, _adjustLeftNeighbors, _adjustBottomNeighbors,
    _adjustTopNeighbors. rewrite resizing.
  set (edges := _getResizeEdges (_resizeDirection h)).
  set (dl := x currentRect - x lastRect).
  set (dr := x currentRect + width currentRect - (x lastRect + width lastRect)).
  set (dt := y currentRect - y lastRect).
  set (db := y currentRect + height currentRect
             - (y lastRect + height lastRect)).
  destruct (guarded_loop_ok (e_right edges && negb (dr =? 0))
              (adjustRight cfg workspace h dr) DRight w) as [I1 A1];
    [intros; now apply adjustRight_outcome | exact I0 |].
  set (w1 := if e_right edges && negb (dr =? 0) then _ else w) in *.
  destruct (guarded_loop_ok (e_left edges && negb (dl =? 0))
              (adjustLeft cfg workspace h dl) DLeft w1) as [I2 A2];
    [intros; now apply adjustLeft_outcome | exact I1 |].
  set (w2 := if e_left edges && negb (dl =? 0) then _ else w1) in *.
  destruct (guarded_loop_ok (e_bottom edges && negb (db =? 0))
              (adjustBottom cfg workspace db) DBottom w2) as [I3 A3];
    [intros; now apply adjustBottom_outcome | exact I2 |].
  set (w3 := if e_bottom edges && negb (db =? 0) then _ else w2) in *.
  destruct (guarded_loop_ok (e_top edges && negb (dt =? 0))
              (adjustTop cfg workspace dt) DTop w3) as [I4 A4];
    [intros; now apply adjustTop_outcome | exact I3 |].
  set (w4 := if e_top edges && negb (dt =? 0) then _ else w3) in *.
  cbn [snd].
  assert (A5 : appendsOk cfg h w4 (setRect rid currentRect w4))
    by (exists []; now rewrite app_nil_r).
  eauto using appendsOk_trans.
Qed.
End ResizeFacts.

(** C4: in a resize tick, for every signed delta, if the neighbours on a
    side all have width at least [MIN_WINDOW_WIDTH] and height at least
    [MIN_WINDOW_HEIGHT], then every rectangle the propagation on that side
    sends to the compositor is within both minima, the only other rectangle
    sent being the last known rectangle of the window being resized; so it
    is for a whole tick of [_handleResizeUpdate] on a registry in which the
    neighbours of the window being resized are other windows within the
    minima. *)
Theorem C4_resize_respects_minimum (cfg : Config) (workspace : list Z)
    (h : ResizeHandler.t) (delta : Z) (w : World) :
  (Forall (fun nb => bounded cfg (rect nb))
     (getNeighbors (store w) (_resizingWindowId h) DRight) ->
   exists new,
     calls (_adjustRightNeighbors cfg workspace h delta w) = calls w ++ new
     /\ Forall (emittedOk cfg h) new) /\
  (Forall (fun nb => bounded cfg (rect nb))
     (getNeighbors (store w) (_resizingWindowId h) DLeft) ->
   exists new,
     calls (_adjustLeftNeighbors cfg workspace h delta w) = calls w ++ new
     /\ Forall (emittedOk cfg h) new) /\
  (Forall (fun nb => bounded cfg (rect nb))
     (getNeighbors (store w) (_resizingWindowId h) DBottom) ->
   exists new,
     calls (_adjustBottomNeighbors cfg workspace h delta w) = calls w ++ new
     /\ Forall (emittedOk cfg h) new) /\
  (Forall (fun nb => bounded cfg (rect nb))
     (getNeighbors (store w) (_resizingWindowId h) DTop) ->
   exists new,
     calls (_adjustTopNeighbors cfg workspace h delta w) = calls w ++ new
     /\ Forall (emittedOk cfg h) new) /\
  (forall rid currentRect,
     _resizingWindowId h = Some rid ->
     wf (store w) ->
     neighborsBounded cfg (store w) rid ->
     exists new,
       calls (snd (_handleResizeUpdate cfg workspace h currentRect w))
       = calls w ++ new
       /\ Forall (emittedOk cfg h) new).
Proof.
  split; [|split; [|split; [|split]]].
  - intros Hall. unfold _adjustRightNeighbors.
    apply fold_appends with (P := fun nb => bounded cfg (rect nb)); auto.
    intros w0 nb Hnb. now apply adjustRight_outcome.
  - intros Hall. unfold _adjustLeftNeighbors.
    apply fold_appends with (P := fun nb => bounded cfg (rect nb)); auto.
    intros w0 nb Hnb. now apply adjustLeft_outcome.
  - intros Hall. unfold _adjustBottomNeighbors.
    apply fold_appends with (P := fun nb => bounded cfg (rect nb)); auto.
    intros w0 nb Hnb. now apply adjustBottom_outcome.
  - intros Hall. unfold _adjustTopNeighbors.
    apply fold_appends with (P := fun nb => bounded cfg (rect nb)); auto.
    intros w0 nb Hnb. now apply adjustTop_outcome.
  - intros rid currentRect Hrid Hwf Hnb.
    now apply (handleResizeUpdate_ok cfg workspace h rid Hrid).
Qed.

Lemma wf_threeWindows : wf threeWindows.
Proof.
  unfold threeWindows. apply wf_recalculateNeighbors.
  do 3 apply wf_setWindow. exact wf_empty.
Qed.

Lemma neighborsBounded_threeWindows : neighborsBounded CONFIG threeWindows 1.
Proof.
  intros rS d i HrS Hin. injection HrS as <-.
  destruct d; cbn in Hin; try contradiction.
  destruct Hin as [<-|[<-|[]]]; (split; [lia|]);
    intros st Hst; injection Hst as <-; split; simpl; lia.
Qed.

Lemma C4_witness :
  (exists new,
     calls (_adjustRightNeighbors CONFIG [1; 2; 3] resizingEast 50
              (mkWorld threeWindows [])) = [] ++ new
     /\ Forall (emittedOk CONFIG resizingEast) new) /\
  (exists new,
     calls (_adjustLeftNeighbors CONFIG [1; 2] resizingWest (-100)
              (mkWorld twoHalves [])) = [] ++ new
     /\ Forall (emittedOk CONFIG resizingWest) new) /\
  (exists new,
     calls (_adjustBottomNeighbors CONFIG [1; 2; 3] resizingSouth 500
              (mkWorld threeWindows [])) = [] ++ new
     /\ Forall (emittedOk CONFIG resizingSouth) new) /\
  (exists new,
     calls (_adjustTopNeighbors CONFIG [1; 2; 3] resizingNorth (-40)
              (mkWorld threeWindows [])) = [] ++ new
     /\ Forall (emittedOk CONFIG resizingNorth) new) /\
  (exists new,
     calls (snd (_handleResizeUpdate CONFIG [1; 2; 3] resizingEast
                   (mkRect 8 8 650 1064) (mkWorld threeWindows [])))
     = [] ++ new
     /\ Forall (emittedOk CONFIG resizingEast) new).
Proof.
  split; [|split; [|split; [|split]]].
  - refine (proj1 (C4_resize_respects_minimum CONFIG [1; 2; 3] resizingEast 50
                     (mkWorld threeWindows [])) _).
    change (Forall (fun nb => bounded CONFIG (rect nb))
              [upperRight; lowerRight]).
    repeat (constructor; [split; simpl; lia|]). constructor.
  - refine (proj1 (proj2 (C4_resize_respects_minimum CONFIG [1; 2]
                            resizingWest (-100) (mkWorld twoHalves []))) _).
    change (Forall (fun nb => bounded CONFIG (rect nb)) [leftHalf]).
    repeat (constructor; [split; simpl; lia|]). constructor.
  - refine (proj1 (proj2 (proj2 (C4_resize_respects_minimum CONFIG [1; 2; 3]
                     resizingSouth 500 (mkWorld threeWindows [])))) _).
    change (Forall (fun nb => bounded CONFIG (rect nb)) [lowerRight]).
    repeat (constructor; [split; simpl; lia|]). constructor.
  - refine (proj1 (proj2 (proj2 (proj2
              (C4_resize_respects_minimum CONFIG [1; 2; 3]
                 resizingNorth (-40) (mkWorld threeWindows []))))) _).
    change (Forall (fun nb => bounded CONFIG (rect nb)) [upperRight]).
    repeat (constructor; [split; simpl; lia|]). constructor.
  - refine (proj2 (proj2 (proj2 (proj2
              (C4_resize_respects_minimum CONFIG [1; 2; 3]
                 resizingEast 0 (mkWorld threeWindows [])))))
              1 (mkRect 8 8 650 1064) _ _ _).
    + reflexivity.
    + exact wf_threeWindows.
    + exact neighborsBounded_threeWindows.
Defined.





(* ------------------------------------------------------------------ *)
(** ** Redistribution after a removal *)

Import TileManager.

Lemma rect_recalc (cfg : Config) (s : StateStore.t) (i : Z) :
  option_map rect (getWindow (recalculateNeighbors cfg s) i)
  = option_map rect (getWindow s i).
Proof.
  rewrite getWindow_recalculateNeighbors.
  destruct (getWindow s i) as [w|]; [|reflexivity].
  simpl. now destruct (isTiled w).
Qed.

Lemma zone_recalc (cfg : Config) (s : StateStore.t) (i : Z) :
  option_map zone (getWindow (recalculateNeighbors cfg s) i)
  = option_map zone (getWindow s i).
Proof.
  rewrite getWindow_recalculateNeighbors.
  destruct (getWindow s i) as [w|]; [|reflexivity].
  simpl. now destruct (isTiled w).
Qed.

Lemma NoDup_tiled_ids (s : StateStore.t) :
  wf s -> NoDup (map id (getTiledWindows s)).
Proof.
  intros [Hnd Hid]. unfold getTiledWindows, JSMap.values, JSMap.keys in *.
  induction (_windows s) as [|[k v] m IH]; simpl in *; [constructor|].
  apply Forall_cons_iff in Hid as [Hk Hid]. simpl in Hk.
  inversion Hnd as [|? ? Hnotin Hnd']; subst.
  destruct (isTiled v); simpl; [|now apply IH].
  constructor; [|now apply IH].
  intros Hin. apply Hnotin.
  apply in_map_iff in Hin as [o [Ho Hin]]. apply filter_In in Hin as [Hin _].
  apply in_map_iff in Hin as [[k' v'] [<- Hin]]. simpl in *.
  rewrite Forall_forall in Hid. pose proof (Hid _ Hin) as Hk'. simpl in Hk'.
  rewrite <- Ho, Hk'. change k' with (fst (k', v')). now apply in_map.
Qed.

Section RemovalFacts.
Variable cfg : Config.
Variable env : Env.
Variable workArea : Rect.
Variable gap windowWidth : Z.

Lemma layoutEqual_store (w : World) (currentX : Z) (t : WindowState) :
  store (fst (layoutEqual env workArea gap windowWidth (w, currentX) t)) =
    setWindow (store w) (id t) (justRect (slotAt workArea gap windowWidth currentX)) /\
  snd (layoutEqual env workArea gap windowWidth (w, currentX) t) = currentX + windowWidth + gap.
Proof.
  unfold layoutEqual. simpl.
  destruct (_findMetaWindow env (id t)); simpl; auto.
Qed.

Lemma layoutEqual_untouched (l : list WindowState) (w : World)
    (currentX : Z) (i : Z) :
  ~ In i (map id l) ->
  getWindow (store (fst (fold_left (layoutEqual env workArea gap windowWidth) l (w, currentX)))) i
  = getWindow (store w) i.
Proof.
  revert w currentX. induction l as [|t l IH]; intros w cx Hni;
    cbn [fold_left]; [reflexivity|].
  destruct (layoutEqual env workArea gap windowWidth (w, cx) t) as [w1 cx1] eqn:E.
  rewrite IH by (intros H; apply Hni; now right).
  pose proof (layoutEqual_store w cx t) as [Hs _]. rewrite E in Hs.
  simpl in Hs. rewrite Hs. unfold getWindow, setWindow. simpl.
  apply get_set_other. intros Heq. apply Hni. left. exact Heq.
Qed.

Lemma layoutEqual_slots (l : list WindowState) (w : World) (currentX : Z)
    (k : nat) (t : WindowState) :
  NoDup (map id l) ->
  nth_error l k = Some t ->
  option_map rect
    (getWindow (store (fst (fold_left (layoutEqual env workArea gap windowWidth) l (w, currentX)))) (id t))
  = Some (slotAt workArea gap windowWidth (currentX + Z.of_nat k * (windowWidth + gap))).
Proof.
  revert w currentX k. induction l as [|t0 l IH]; intros w cx k Hnd Hk.
  - destruct k; discriminate.
  - simpl in Hnd. inversion Hnd as [|? ? Hnotin Hnd']; subst.
    cbn [fold_left]. destruct (layoutEqual env workArea gap windowWidth (w, cx) t0) as [w1 cx1] eqn:E.
    pose proof (layoutEqual_store w cx t0) as [Hs Hx]. rewrite E in Hs, Hx.
    simpl in Hs, Hx.
    destruct k as [|k]; simpl in Hk.
    + injection Hk as ->.
      rewrite layoutEqual_untouched by exact Hnotin.
      rewrite Hs. unfold getWindow, setWindow. simpl.
      rewrite get_set_same. simpl. f_equal. f_equal. lia.
    + rewrite (IH w1 cx1 k Hnd' Hk). f_equal. f_equal. lia.
Qed.

(** What the loop sends to the compositor: the slot of every window. *)
Lemma layoutEqual_calls (l : list WindowState) (w : World) (currentX : Z) :
  exists new,
    calls (fst (fold_left (layoutEqual env workArea gap windowWidth) l (w, currentX))) = calls w ++ new /\
    Forall (fun c => exists i cx, c = MoveResize i (slotAt workArea gap windowWidth cx)) new.
Proof.
  revert w currentX. induction l as [|t l IH]; intros w cx; cbn [fold_left].
  - exists []. now rewrite app_nil_r.
  - destruct (layoutEqual env workArea gap windowWidth (w, cx) t) as [w1 cx1] eqn:E.
    destruct (IH w1 cx1) as [new [E1 F1]].
    unfold layoutEqual in E.
    destruct (_findMetaWindow env (id t)); injection E as <- <-.
    + exists (MoveResize (id t) (slotAt workArea gap windowWidth cx) :: new). split.
      * rewrite E1. simpl. now rewrite <- app_assoc.
      * constructor; [now exists (id t), cx | exact F1].
    + exists new. split; [exact E1 | exact F1].
Qed.
End RemovalFacts.

(** Three equal windows, the middle one closes, and the first of the two
    that remain is known neither to the window tracker nor to the
    workspace: the redistribution returns at once and both keep their 629
    pixels instead of taking 948. *)
Lemma C7_counterexample :
  getTiledWindows (removeWindow threeEqual 2)
  = [mkWindowState 1 (mkRect 8 8 629 1064) (Some (mkRect 0 0 600 400))
       "auto" true (mkNeighbors [] [] [] []);
     mkWindowState 3 (mkRect 1282 8 629 1064) (Some (mkRect 0 0 600 400))
       "auto" true (mkNeighbors [] [] [] [])] /\
  _findMetaWindow (desktop [3]) 1 = false /\
  (1920 - 8 * (2 + 1)) / 2 = 948 /\
  map (fun st => (id st, rect st))
    (getTiledWindows
       (store (_onWindowRemoved CONFIG (desktop [3]) 2
                 (mkWorld threeEqual []))))
  = [(1, mkRect 8 8 629 1064); (3, mkRect 1282 8 629 1064)] /\
  calls (_onWindowRemoved CONFIG (desktop [3]) 2 (mkWorld threeEqual [])) = [].
Proof. repeat split; reflexivity. Qed.

(** C7, amended: a redistribution after a removal over the [n >= 1]
    remaining tiled windows, the first of which (in registry order) the
    manager can find, gives each of them the width
    [floor ((W - g * (n + 1)) / n)] and the height [H - 2 * g], the first at
    [x = workArea.x + g] and each next one [width + g] further right; when
    that first window cannot be found the redistribution returns at once
    and changes nothing.  Removing one of three equal windows on a 1920
    wide work area with gap 8, all of them known, leaves two windows of
    width 948. *)
Theorem C7_redistribute_after_removal (cfg : Config) (env : Env) (w : World)
    (first : WindowState) (rest : list WindowState) :
  wf (store w) ->
  getTiledWindows (store w) = first :: rest ->
  let workArea := workAreaOf env (id first) in
  let g := INNER_GAP cfg in
  let n := Z.of_nat (List.length (first :: rest)) in
  let windowWidth := (width workArea - g * (n + 1)) / n in
  (_findMetaWindow env (id first) = true ->
   forall k t, nth_error (first :: rest) k = Some t ->
     option_map rect
       (getWindow (store (_redistributeAfterRemoval cfg env w)) (id t))
     = Some {| x := x workArea + g + Z.of_nat k * (windowWidth + g);
               y := y workArea + g;
               width := windowWidth;
               height := height workArea - 2 * g |}) /\
  (_findMetaWindow env (id first) = false ->
   _redistributeAfterRemoval cfg env w = w) /\
  map (fun st => (id st, rect st))
    (getTiledWindows
       (store (_onWindowRemoved CONFIG (desktop [1; 3]) 2
                 (mkWorld threeEqual []))))
  = [(1, mkRect 8 8 948 1064); (3, mkRect 964 8 948 1064)].
Proof.
  intros Hwf Htiled workArea g n windowWidth.
  split; [|split; [|reflexivity]]; cycle 1.
  { intros Hlost. unfold _redistributeAfterRemoval.
    now rewrite Htiled, Hlost. }
  intros Hfound k t Hk. unfold _redistributeAfterRemoval.
  rewrite Htiled, Hfound. cbn [negb]. unfold recalc. cbn [store].
  rewrite rect_recalc.
  rewrite (layoutEqual_slots env (workAreaOf env (id first)) (INNER_GAP cfg)
             ((width (workAreaOf env (id first))
               - INNER_GAP cfg * (Z.of_nat (List.length (first :: rest)) + 1))
              / Z.of_nat (List.length (first :: rest)))
             (first :: rest) w _ k t).
  - unfold slotAt. subst workArea g n windowWidth. f_equal. f_equal; lia.
  - rewrite <- Htiled. now apply NoDup_tiled_ids.
  - exact Hk.
Qed.

Lemma C7_witness :
  option_map rect
    (getWindow
       (store (_redistributeAfterRemoval CONFIG (desktop [1; 2])
                 (mkWorld twoHalves []))) 2)
  = Some (mkRect (0 + 8 + 1 * ((1920 - 8 * (2 + 1)) / 2 + 8)) (0 + 8)
            ((1920 - 8 * (2 + 1)) / 2) (1080 - 2 * 8)).
Proof.
  refine (proj1 (C7_redistribute_after_removal CONFIG (desktop [1; 2])
                   (mkWorld twoHalves []) leftHalf [rightHalf] _ _)
            _ 1%nat rightHalf _).
  - exact wf_twoHalves.
  - reflexivity.
  - reflexivity.
  - reflexivity.
Defined.

(* ------------------------------------------------------------------ *)
(** ** Swap *)

Import SwapDetector.

Lemma firstUnder_other (dragged cx2 cy2 : Z) (l : list WindowState) (t : Z) :
  firstUnder dragged cx2 cy2 l = Some t -> t <> dragged.
Proof.
  induction l as [|o l IH]; simpl; [discriminate|].
  destruct (id o =? dragged) eqn:E; [exact IH|].
  destruct (_isPointInRect cx2 cy2 (rect o)); [|exact IH].
  intros [= <-]. now apply Z.eqb_neq.
Qed.

Lemma polls_track (D : Z) (start : Rect) (polls : list (StateStore.t * Rect))
    (d : Drag) :
  tracks D start d -> tracks D start (fold_left poll polls d).
Proof.
  revert d. induction polls as [|[s cur] polls IH]; intros d Hd;
    cbn [fold_left]; [exact Hd|].
  apply IH. destruct Hd as [H1 [H2 H3]]. unfold poll, _checkForSwap. simpl.
  destruct (_draggedWindowId d =? 0); [now repeat split|].
  repeat split; simpl; auto.
  intros t Ht. rewrite <- H1. exact (firstUnder_other _ _ _ _ _ Ht).
Qed.

Lemma onGrabBegin_tracks (s0 : StateStore.t) (D : Z) (d0 : Drag) :
  _onGrabBegin s0 true true D = Some d0 ->
  exists st0, getWindow s0 D = Some st0 /\ tracks D (rect st0) d0.
Proof.
  unfold _onGrabBegin. simpl.
  destruct (getWindow s0 D) as [st0|]; [|discriminate].
  destruct (isTiled st0); [|discriminate].
  intros [= <-]. exists st0. split; [reflexivity|].
  repeat split. simpl. discriminate.
Qed.

Lemma getWindow_setState_same (i : Z) (p : PartialState) (w : World) :
  exists st, getWindow (store (setState i p w)) i = Some st /\
    (forall r, p_rect p = Some r -> rect st = r) /\
    (forall z, p_zone p = Some z -> zone st = z).
Proof.
  unfold setState, getWindow, setWindow. simpl. rewrite get_set_same.
  eexists. split; [reflexivity|]. split; simpl.
  - intros r ->. reflexivity.
  - intros z ->. reflexivity.
Qed.

Lemma getWindow_setState_other (i j : Z) (p : PartialState) (w : World) :
  i <> j -> getWindow (store (setState i p w)) j = getWindow (store w) j.
Proof.
  intros Hne. unfold setState, getWindow, setWindow. simpl.
  now apply get_set_other.
Qed.

(** Window 1 is dragged over window 2 and released outside the edge
    zones; both are in the registry, so the detector emits the swap, but
    window 2 is known neither to the window tracker nor to the workspace:
    the manager returns at once, nothing is sent, and both keep their
    rectangle and zone. *)
Lemma C6_counterexample :
  _onGrabBegin twoHalves true true 1
  = Some (mkDrag 1 (mkRect 8 8 948 1064) None) /\
  _onGrabEnd twoHalves false
    (fold_left poll [(twoHalves, mkRect 1000 100 948 1064)]
       (mkDrag 1 (mkRect 8 8 948 1064) None))
  = Some (mkSwapEvent 1 2 (mkRect 964 8 948 1064) (mkRect 8 8 948 1064)) /\
  getWindow twoHalves 1 = Some leftHalf /\
  getWindow twoHalves 2 = Some rightHalf /\
  _findMetaWindow (desktop [1]) 2 = false /\
  _onSwapDetected CONFIG (desktop [1])
    (mkSwapEvent 1 2 (mkRect 964 8 948 1064) (mkRect 8 8 948 1064))
    (mkWorld twoHalves [])
  = mkWorld twoHalves [] /\
  option_map rect (getWindow twoHalves 1) <> Some (rect rightHalf) /\
  option_map zone (getWindow twoHalves 1) <> Some (zone rightHalf).
Proof.
  repeat split; try reflexivity; discriminate.
Qed.

(** C6, amended: a drag of [D] that began on registry [s0], went through
    any number of polls and is released outside the edge zones over target
    [T], both in the registry, commits as follows when the manager can
    find the window of [T]: the registry rectangle of [D] becomes the
    rectangle [T] has in the registry at commit, that of [T] becomes the
    rectangle [D] had in the registry when the drag began, and the two
    zones are exchanged.  When the window of [T] cannot be found, the
    commit does nothing: no call, and the registry as it was. *)
Theorem C6_swap_commit (cfg : Config) (env : Env) (s0 : StateStore.t)
    (D : Z) (d0 : Drag) (polls : list (StateStore.t * Rect)) (w : World)
    (ev : SwapEvent) (dS tS : WindowState) :
  _onGrabBegin s0 true true D = Some d0 ->
  _onGrabEnd (store w) false (fold_left poll polls d0) = Some ev ->
  getWindow (store w) D = Some dS ->
  getWindow (store w) (targetWindowId ev) = Some tS ->
  let T := targetWindowId ev in
  let w' := _onSwapDetected cfg env ev w in
  draggedWindow ev = D /\ T <> D /\
  (_findMetaWindow env T = true ->
   option_map rect (getWindow (store w') D) = Some (rect tS) /\
   option_map rect (getWindow (store w') T)
     = option_map rect (getWindow s0 D) /\
   option_map zone (getWindow (store w') D) = Some (zone tS) /\
   option_map zone (getWindow (store w') T) = Some (zone dS)) /\
  (_findMetaWindow env T = false -> w' = w).
Proof.
  intros Hbegin Hend HdS HtS T w'.
  destruct (onGrabBegin_tracks s0 D d0 Hbegin) as [st0 [Hst0 Htr0]].
  pose proof (polls_track D (rect st0) polls d0 Htr0) as [HD [Hstart Hne]].
  set (d := fold_left poll polls d0) in *.
  unfold _onGrabEnd in Hend.
  destruct (_potentialSwapTarget d) as [t|] eqn:Et; [|discriminate].
  cbn [negb] in Hend. unfold _performSwap in Hend. rewrite Et, HD in Hend.
  destruct (D =? 0); [discriminate|].
  destruct (t =? 0); [discriminate|].
  destruct (getWindow (store w) t) as [targetState|] eqn:Ets; [|discriminate].
  rewrite HdS in Hend. injection Hend as <-.
  subst T w'. cbn [targetWindowId draggedWindow] in *.
  rewrite Ets in HtS. injection HtS as ->.
  pose proof (Hne t eq_refl) as HtD.
  split; [reflexivity|]. split; [exact HtD|].
  unfold _onSwapDetected.
  cbn [targetWindowId draggedWindow draggedTargetRect targetNewRect].
  split; [|intros Hlost; now rewrite Hlost].
  intros Hfound. rewrite Hfound. cbn [negb]. rewrite !store_emit.
  rewrite HdS, Ets. cbn [option_map orDefault].
  unfold recalc. cbn [store]. rewrite !rect_recalc, !zone_recalc.
  match goal with
  | |- context [setState t ?p (setState D ?q ?w0)] =>
      destruct (getWindow_setState_same t p (setState D q w0))
        as [tS' [EtS' [RtS' ZtS']]];
      destruct (getWindow_setState_same D q w0) as [dS' [EdS' [RdS' ZdS']]];
      rewrite (getWindow_setState_other t D p (setState D q w0) HtD)
  end.
  rewrite EtS', EdS', Hst0. cbn [option_map].
  rewrite (RdS' _ eq_refl), (ZdS' _ eq_refl), (RtS' _ eq_refl),
    (ZtS' _ eq_refl), Hstart.
  auto.
Qed.

Lemma C6_witness :
  let ev := mkSwapEvent 1 2 (mkRect 964 8 948 1064) (mkRect 8 8 948 1064) in
  let w' := _onSwapDetected CONFIG (desktop [1; 2]) ev (mkWorld twoHalves []) in
  option_map rect (getWindow (store w') 1) = Some (rect rightHalf) /\
  option_map rect (getWindow (store w') 2)
    = option_map rect (getWindow twoHalves 1) /\
  option_map zone (getWindow (store w') 1) = Some (zone rightHalf) /\
  option_map zone (getWindow (store w') 2) = Some (zone leftHalf).
Proof.
  refine (proj1 (proj2 (proj2
            (C6_swap_commit CONFIG (desktop [1; 2]) twoHalves 1
               (mkDrag 1 (mkRect 8 8 948 1064) None)
               [(twoHalves, mkRect 1000 100 948 1064)]
               (mkWorld twoHalves [])
               (mkSwapEvent 1 2 (mkRect 964 8 948 1064) (mkRect 8 8 948 1064))
               leftHalf rightHalf _ _ _ _))) _).
  - reflexivity.
  - reflexivity.
  - reflexivity.
  - reflexivity.
  - reflexivity.
Defined.

(* ------------------------------------------------------------------ *)
(** ** Planned widths *)

Lemma fold_add_shift (l : list Z) (a : Z) :
  fold_left Z.add l a = a + fold_left Z.add l 0.
Proof.
  revert a. induction l as [|b l IH]; intros a; simpl; [lia|].
  rewrite (IH (a + b)), (IH b). lia.
Qed.

Lemma sumZ_cons (a : Z) (l : list Z) : sumZ (a :: l) = a + sumZ l.
Proof. unfold sumZ. simpl. apply fold_add_shift. Qed.

Lemma sumZ_repeat (a : Z) (n : nat) : sumZ (repeat a n) = Z.of_nat n * a.
Proof.
  induction n as [|n IH]; [reflexivity|].
  cbn [repeat]. rewrite sumZ_cons, IH. lia.
Qed.

Lemma sumZ_lower (a : Z) (l : list Z) :
  Forall (fun c => a <= c) l -> Z.of_nat (List.length l) * a <= sumZ l.
Proof.
  induction 1 as [|c l Hc Hl IH]; [reflexivity|].
  rewrite sumZ_cons. cbn [List.length]. lia.
Qed.

Lemma sumZ_upper (b : Z) (l : list Z) :
  Forall (fun c => c <= b) l -> sumZ l <= Z.of_nat (List.length l) * b.
Proof.
  induction 1 as [|c l Hc Hl IH]; [reflexivity|].
  rewrite sumZ_cons. cbn [List.length]. lia.
Qed.

Section PlanFacts.
Variable cfg : Config.
Variable R : Rounding.

Lemma scaleWidths_spec (rem tot : Z) (widths : list Z) :
  let '(ws, total, atMin) := scaleWidths cfg R rem tot widths in
  List.length ws = List.length widths /\ total = sumZ ws /\
  Forall (fun c => MIN_WINDOW_WIDTH cfg <= c) ws /\
  0 <= atMin <= Z.of_nat (List.length widths).
Proof.
  induction widths as [|wd widths IH]; cbn [scaleWidths].
  - repeat split; try constructor; simpl; lia.
  - destruct (scaleWidths cfg R rem tot widths) as [[ws total] atMin].
    destruct IH as [Hlen [Hsum [Hmin Hat]]].
    destruct (scaleFloor R wd rem tot <? MIN_WINDOW_WIDTH cfg) eqn:E.
    + repeat split; cbn [List.length]; try lia.
      * rewrite sumZ_cons. lia.
      * constructor; [lia | exact Hmin].
    + apply Z.ltb_ge in E. repeat split; cbn [List.length]; try lia.
      * rewrite sumZ_cons. lia.
      * constructor; [exact E | exact Hmin].
Qed.

Lemma scaleWidths_upper (rem tot b : Z) (widths : list Z) :
  MIN_WINDOW_WIDTH cfg <= b ->
  (forall wd, In wd widths -> scaleFloor R wd rem tot <= b) ->
  Forall (fun c => c <= b) (fst (fst (scaleWidths cfg R rem tot widths))).
Proof.
  intros Hb. induction widths as [|wd widths IH]; intros Hall;
    cbn [scaleWidths]; [constructor|].
  destruct (scaleWidths cfg R rem tot widths) as [[ws total] atMin].
  cbn [fst] in IH.
  assert (Hrest : Forall (fun c => c <= b) ws)
    by (apply IH; intros; apply Hall; now right).
  destruct (scaleFloor R wd rem tot <? MIN_WINDOW_WIDTH cfg) eqn:E;
    cbn [fst]; constructor; auto.
  apply Hall. now left.
Qed.

Lemma shrink_min (s wd : Z) :
  MIN_WINDOW_WIDTH cfg <= wd -> MIN_WINDOW_WIDTH cfg <= shrink cfg s wd.
Proof. unfold shrink. destruct (_ <? _); lia. Qed.

(** Whatever the work area and the existing widths, no planned width of
    an insertion into a row is below the minimum. *)
Lemma planWidths_min (W : Z) (widths : list Z) :
  MIN_WINDOW_WIDTH cfg <= fst (planWidths cfg R W widths) /\
  Forall (fun c => MIN_WINDOW_WIDTH cfg <= c) (snd (planWidths cfg R W widths)) /\
  List.length (snd (planWidths cfg R W widths)) = List.length widths.
Proof.
  unfold planWidths.
  match goal with
  | |- context [scaleWidths cfg R ?rem ?tot widths] =>
      pose proof (scaleWidths_spec rem tot widths) as Hs;
      destruct (scaleWidths cfg R rem tot widths) as [[ws total] atMin]
  end.
  destruct Hs as [Hlen [Hsum [Hmin Hat]]].
  destruct (_ && _); cbn [fst snd].
  - split; [lia|]. split.
    + apply Forall_forall. intros c Hc.
      apply in_map_iff in Hc as [c0 [<- Hc0]]. apply shrink_min.
      rewrite Forall_forall in Hmin. now apply Hmin.
    + now rewrite length_map.
  - split; [lia|]. split; assumption.
Qed.
End PlanFacts.

(** Inserting a tenth window into a row of nine windows of width 204 (what
    equal distribution gives nine windows on a 1920 wide work area with
    gap 8): every planned width is 200, and ten such widths with their
    eleven gaps need 2088 pixels. *)
Lemma C3_counterexample :
  (1920 - 8 * (9 + 1)) / 9 = 204 /\
  planWidths CONFIG exactRounding 1920 (repeat 204 9) = (200, repeat 200 9) /\
  ~ (200 + sumZ (repeat 200 9) + (9 + 2) * INNER_GAP CONFIG <= 1920).
Proof.
  split; [reflexivity|]. split; [reflexivity|].
  vm_compute. intros H. now apply H.
Qed.

(** C3, amended: an insertion into a row of [n >= 1] existing tiled windows
    of one width (at least [MIN_WINDOW_WIDTH]) on a work area of width [W]
    with gap [g] plans [n + 1] widths that are all at least
    [MIN_WINDOW_WIDTH]; their sum plus [(n + 2) * g] is at most [W] exactly
    when [W] has room for [n + 1] windows of the minimum width, that is when
    [(n + 1) * MIN_WINDOW_WIDTH + (n + 2) * g <= W]. *)
Theorem C3_insert_widths (cfg : Config) (R : Rounding) (W wd : Z) (n : nat) :
  (1 <= n)%nat ->
  MIN_WINDOW_WIDTH cfg <= wd ->
  0 < wd ->
  let g := INNER_GAP cfg in
  let newWindowWidth := fst (planWidths cfg R W (repeat wd n)) in
  let windowWidths := snd (planWidths cfg R W (repeat wd n)) in
  List.length windowWidths = n /\
  MIN_WINDOW_WIDTH cfg <= newWindowWidth /\
  Forall (fun c => MIN_WINDOW_WIDTH cfg <= c) windowWidths /\
  (newWindowWidth + sumZ windowWidths + (Z.of_nat n + 2) * g <= W <->
   (Z.of_nat n + 1) * MIN_WINDOW_WIDTH cfg + (Z.of_nat n + 2) * g <= W).
Proof.
  intros Hn Hwd Hpos g newWindowWidth windowWidths.
  destruct (planWidths_min cfg R W (repeat wd n)) as [Hnew [Hall Hlen]].
  rewrite repeat_length in Hlen.
  fold newWindowWidth windowWidths in Hnew, Hall, Hlen.
  split; [exact Hlen|]. split; [exact Hnew|]. split; [exact Hall|].
  split.
  - intros Hfit. pose proof (sumZ_lower _ _ Hall) as Hsum.
    rewrite Hlen in Hsum. lia.
  - intros Hroom. subst newWindowWidth windowWidths.
    unfold planWidths. rewrite repeat_length, sumZ_repeat. fold g.
    set (N := Z.of_nat n) in *.
    assert (HN : 1 <= N) by (subst N; lia).
    replace (g * 2 + g * (N + 1 - 1)) with ((N + 2) * g) by lia.
    set (avail := W - (N + 2) * g).
    assert (Havail : (N + 1) * MIN_WINDOW_WIDTH cfg <= avail)
      by (subst avail; lia).
    assert (Hq : MIN_WINDOW_WIDTH cfg <= avail / (N + 1))
      by (apply Z.div_le_lower_bound; lia).
    replace (Z.max (MIN_WINDOW_WIDTH cfg) (avail / (N + 1)))
      with (avail / (N + 1)) by lia.
    set (new := avail / (N + 1)) in *.
    assert (Hnewle : (N + 1) * new <= avail)
      by (subst new; apply Z.mul_div_le; lia).
    set (rem := avail - new).
    assert (Hrem : N * MIN_WINDOW_WIDTH cfg <= rem) by (subst rem; nia).
    assert (Hb : MIN_WINDOW_WIDTH cfg <= rem / N)
      by (apply Z.div_le_lower_bound; lia).
    pose proof (scaleWidths_spec cfg R rem (N * wd) (repeat wd n)) as Hs.
    pose proof (scaleWidths_upper cfg R rem (N * wd) (rem / N) (repeat wd n) Hb)
      as Hup.
    destruct (scaleWidths cfg R rem (N * wd) (repeat wd n))
      as [[ws total] atMin].
    destruct Hs as [Hl [Hsum [_ _]]]. rewrite repeat_length in Hl.
    cbn [fst] in Hup.
    assert (Hws : Forall (fun c => c <= rem / N) ws).
    { apply Hup. intros wd' Hin. apply repeat_spec in Hin. subst wd'.
      destruct (scaleFloor_bounds R wd rem (N * wd)) as [_ Hle]; [nia|].
      replace (wd * rem / (N * wd)) with (rem / N) in Hle; [exact Hle|].
      rewrite (Z.mul_comm N wd). symmetry. apply Z.div_mul_cancel_l; lia. }
    apply sumZ_upper in Hws. rewrite Hl in Hws. fold N in Hws.
    assert (Hdiv : N * (rem / N) <= rem) by (apply Z.mul_div_le; lia).
    assert (Hex : (0 <? total + new - avail) = false)
      by (apply Z.ltb_ge; subst rem; lia).
    rewrite Hex. cbn [andb fst snd]. subst rem. lia.
Qed.

Lemma C3_witness :
  let newWindowWidth :=
    fst (planWidths CONFIG exactRounding 1920 (repeat 948 2)) in
  let windowWidths :=
    snd (planWidths CONFIG exactRounding 1920 (repeat 948 2)) in
  List.length windowWidths = 2%nat /\
  200 <= newWindowWidth /\
  Forall (fun c => 200 <= c) windowWidths /\
  (newWindowWidth + sumZ windowWidths + (2 + 2) * 8 <= 1920 <->
   (2 + 1) * 200 + (2 + 2) * 8 <= 1920).
Proof.
  refine (C3_insert_widths CONFIG exactRounding 1920 948 2 _ _ _).
  - lia.
  - simpl. lia.
  - lia.
Defined.

(* ------------------------------------------------------------------ *)
(** ** Rectangles sent by the planners *)

Lemma reposition_calls (cfg : Config) (env : Env) (inserted : Z)
    (framed workArea : Rect) (tiledWindows : list WindowState)
    (windowWidths : list Z) (newWindowWidth : Z) (insertIndex : nat) :
  MIN_WINDOW_WIDTH cfg <= newWindowWidth ->
  Forall (fun c => MIN_WINDOW_WIDTH cfg <= c) windowWidths ->
  forall (k i windowIndex : nat) (currentX : Z) (w : World),
  exists new,
    calls (reposition cfg env inserted framed workArea tiledWindows
             windowWidths newWindowWidth insertIndex k i windowIndex
             currentX w)
    = calls w ++ new /\
    Forall (plannedOk cfg workArea) new.
Proof.
  intros Hnew Hall. induction k as [|k IH]; intros i wi cx w;
    cbn [reposition].
  - exists []. now rewrite app_nil_r.
  - destruct (Nat.eqb i insertIndex).
    + match goal with
      | |- context [reposition _ _ _ _ _ _ _ _ _ k ?i' ?wi' ?cx' ?w'] =>
          destruct (IH i' wi' cx' w') as [new [E F]]
      end.
      eexists. split.
      * rewrite E. unfold setState, emit. cbn [calls store].
        rewrite <- app_assoc. reflexivity.
      * constructor; [|exact F]. unfold plannedOk. cbn [width height].
           split; lia.
    + destruct (nth_error tiledWindows wi) as [tiled|] eqn:Et;
        [|exists []; now rewrite app_nil_r].
      destruct (nth_error windowWidths wi) as [wd|] eqn:Ew;
        [|exists []; now rewrite app_nil_r].
      assert (Hwd : MIN_WINDOW_WIDTH cfg <= wd).
      { rewrite Forall_forall in Hall. apply Hall.
        eapply nth_error_In. exact Ew. }
      match goal with
      | |- context [reposition _ _ _ _ _ _ _ _ _ k ?i' ?wi' ?cx' ?w'] =>
          destruct (IH i' wi' cx' w') as [new [E F]]
      end.
      destruct (_findMetaWindow env (id tiled)).
      * eexists. split.
        -- rewrite E. unfold setRect, emit. cbn [calls store].
           rewrite <- app_assoc. reflexivity.
        -- constructor; [|exact F]. unfold plannedOk. cbn [width height].
           split; lia.
      * exists new. split; [exact E | exact F].
Qed.

(** With eleven windows snapped to the left half, closing one spreads the
    ten that remain over the 1920 pixels of the work area: each gets
    [floor ((1920 - 88) / 10) = 183] pixels, below the minimum width. *)
Lemma C2_counterexample :
  List.length (getTiledWindows elevenLeft) = 11%nat /\
  In (MoveResize 1 (mkRect 8 8 183 1064))
    (calls (_onWindowRemoved CONFIG (desktop [1; 2; 3; 4; 5; 6; 7; 8; 9; 10])
              11 (mkWorld elevenLeft []))) /\
  map (fun st => width (rect st))
    (getTiledWindows
       (store (_onWindowRemoved CONFIG
                 (desktop [1; 2; 3; 4; 5; 6; 7; 8; 9; 10])
                 11 (mkWorld elevenLeft []))))
  = repeat 183 10 /\
  183 < MIN_WINDOW_WIDTH CONFIG.
Proof.
  split; [reflexivity|]. split; [vm_compute; left; reflexivity|].
  split; [reflexivity|]. reflexivity.
Qed.

(** C2, amended: an insertion into a row (at least one other tiled window
    on the workspace, with existing widths that sum to something positive)
    sends, before the overlap correction, only rectangles whose width is at
    least [MIN_WINDOW_WIDTH]; their height is that of the work area minus
    two gaps.  Equal distribution, after a removal or for a new window,
    enforces no minimum: the [n] windows laid out receive rectangles of
    width [floor ((W - g * (n + 1)) / n)] and height [H - 2 * g], which
    reach the minimum width exactly when
    [n * MIN_WINDOW_WIDTH + g * (n + 1) <= W] and the minimum height exactly
    when [MIN_WINDOW_HEIGHT + 2 * g <= H]. *)
Theorem C2_planned_sizes (cfg : Config) (R : Rounding) (env : Env) (w : World) :
  (forall inserted framed position,
     rowFor env inserted w <> [] ->
     0 < sumZ (map (fun st => width (rect st)) (rowFor env inserted w)) ->
     (forall actuals,
        _onInsertDetected cfg R env actuals inserted framed position w =
        _correctLayoutOverlaps cfg env actuals inserted
          (workAreaOf env inserted)
          (insertIntoRow cfg R env inserted framed position w)) /\
     exists new,
       calls (insertIntoRow cfg R env inserted framed position w)
       = calls w ++ new /\
       Forall (plannedOk cfg (workAreaOf env inserted)) new) /\
  (forall first rest,
     getTiledWindows (store w) = first :: rest ->
     _findMetaWindow env (id first) = true ->
     let workArea := workAreaOf env (id first) in
     let g := INNER_GAP cfg in
     let n := Z.of_nat (List.length (first :: rest)) in
     let windowWidth := (width workArea - g * (n + 1)) / n in
     (exists new,
        calls (_redistributeAfterRemoval cfg env w) = calls w ++ new /\
        Forall (fun c => exists i cx,
                  c = MoveResize i (slotAt workArea g windowWidth cx)) new) /\
     (MIN_WINDOW_WIDTH cfg <= windowWidth <->
      n * MIN_WINDOW_WIDTH cfg + g * (n + 1) <= width workArea) /\
     (MIN_WINDOW_HEIGHT cfg <= height workArea - g * 2 <->
      MIN_WINDOW_HEIGHT cfg + 2 * g <= height workArea)) /\
  (forall newWindow,
     let workArea := workAreaOf env newWindow in
     let g := INNER_GAP cfg in
     let n := Z.of_nat (List.length (getTiledWindows (store w))) + 1 in
     let windowWidth := (width workArea - g * (n + 1)) / n in
     (exists new,
        calls (_redistributeWindows cfg env newWindow w) = calls w ++ new /\
        Forall (fun c => exists i cx,
                  c = MoveResize i (slotAt workArea g windowWidth cx)) new) /\
     (MIN_WINDOW_WIDTH cfg <= windowWidth <->
      n * MIN_WINDOW_WIDTH cfg + g * (n + 1) <= width workArea)).
Proof.
  split; [|split].
  - intros inserted framed position Hrow _. split.
    + intros actuals. unfold _onInsertDetected.
      destruct (rowFor env inserted w); [contradiction | reflexivity].
    + unfold insertIntoRow.
      set (sorted := sortBy (fun st => x (rect st)) (rowFor env inserted w)).
      destruct (planWidths_min cfg R (width (workAreaOf env inserted))
                  (map (fun st => width (rect st)) sorted))
        as [Hnew [Hall _]].
      destruct (planWidths cfg R (width (workAreaOf env inserted))
                  (map (fun st => width (rect st)) sorted))
        as [newWindowWidth windowWidths].
      cbn [fst snd] in Hnew, Hall. unfold recalc. cbn [calls].
      apply reposition_calls; assumption.
  - intros first rest Htiled Hfound workArea g n windowWidth.
    assert (Hn : 0 < n) by (subst n; cbn [List.length]; lia).
    split; [|split].
    + unfold _redistributeAfterRemoval. rewrite Htiled, Hfound.
      cbn [negb]. unfold recalc. cbn [calls].
      apply layoutEqual_calls.
    + subst windowWidth. split; intros H.
      * pose proof (Z.mul_div_le (width workArea - g * (n + 1)) n Hn). nia.
      * apply Z.div_le_lower_bound; lia.
    + lia.
  - intros newWindow workArea g n windowWidth.
    assert (Hn : 0 < n) by (subst n; lia).
    split.
    + unfold _redistributeWindows. fold workArea g n windowWidth.
      destruct (layoutEqual_calls env workArea g windowWidth
                  (getTiledWindows (store w)) w (x workArea + g))
        as [new [E F]].
      destruct (fold_left (layoutEqual env workArea g windowWidth)
                  (getTiledWindows (store w)) (w, x workArea + g))
        as [w1 currentX].
      cbn [fst] in E.
      exists (new ++ [MoveResize newWindow
                        (slotAt workArea g windowWidth currentX)]).
      split.
      * unfold emit, setState. cbn [calls store]. rewrite E.
        now rewrite app_assoc.
      * apply Forall_app. split; [exact F|].
        constructor; [|constructor]. now exists newWindow, currentX.
    + subst windowWidth. split; intros H.
      * pose proof (Z.mul_div_le (width workArea - g * (n + 1)) n Hn). nia.
      * apply Z.div_le_lower_bound; lia.
Qed.

Lemma C2_witness :
  ((forall actuals,
      _onInsertDetected CONFIG exactRounding (desktop [1; 2; 3]) actuals 3
        (mkRect 645 8 629 1064) 956 (mkWorld twoHalves []) =
      _correctLayoutOverlaps CONFIG (desktop [1; 2; 3]) actuals 3 screen
        (insertIntoRow CONFIG exactRounding (desktop [1; 2; 3]) 3
           (mkRect 645 8 629 1064) 956 (mkWorld twoHalves []))) /\
   exists new,
     calls (insertIntoRow CONFIG exactRounding (desktop [1; 2; 3]) 3
              (mkRect 645 8 629 1064) 956 (mkWorld twoHalves []))
     = [] ++ new /\
     Forall (plannedOk CONFIG screen) new) /\
  (exists new,
     calls (_redistributeAfterRemoval CONFIG (desktop [1; 2])
              (mkWorld twoHalves [])) = [] ++ new /\
     Forall (fun c => exists i cx,
               c = MoveResize i
                     (slotAt screen 8 ((1920 - 8 * (2 + 1)) / 2) cx)) new).
Proof.
  split.
  - refine (proj1 (C2_planned_sizes CONFIG exactRounding (desktop [1; 2; 3])
                     (mkWorld twoHalves [])) 3 (mkRect 645 8 629 1064) 956
              _ _).
    + simpl. discriminate.
    + vm_compute. reflexivity.
  - refine (proj1 (proj1 (proj2 (C2_planned_sizes CONFIG exactRounding
                            (desktop [1; 2]) (mkWorld twoHalves [])))
                     leftHalf [rightHalf] _ _)).
    + reflexivity.
    + reflexivity.
Defined.

(* ================================================================== *)
(** * Further properties of the code *)

(* ------------------------------------------------------------------ *)
(** ** Snap rectangles and zones *)

(** X1: the left and the right half have the same size, keep the gap to
    the edges of the work area, and are separated by the gap, or by one
    pixel more when the halved width was rounded down. *)
Theorem halves_side_by_side (workArea : Rect) (gap : Z) :
  let l := getLeftHalfRect workArea gap in
  let r := getRightHalfRect workArea gap in
  width l = width r /\ height l = height r /\ y l = y r /\
  x l = x workArea + gap /\
  getRightEdge r = x workArea + width workArea - gap /\
  gap <= x r - getRightEdge l <= gap + 1.
Proof.
  cbv zeta. unfold getLeftHalfRect, getRightHalfRect, getRightEdge.
  cbn [x y width height].
  pose proof (Z.mul_div_le (width workArea - gap * 3) 2 ltac:(lia)).
  pose proof (Z.mul_succ_div_gt (width workArea - gap * 3) 2 ltac:(lia)).
  repeat split; lia.
Qed.

(** X2: whatever the zone name, known or not, the snap rectangle lies in
    the work area with the gap as margin and is at least one pixel wide and
    high, provided the gap is positive and the work area measures at least
    six gaps each way. *)
Theorem snap_rect_inside (cfg : Config) (zone : string) (workArea : Rect) :
  1 <= INNER_GAP cfg ->
  6 * INNER_GAP cfg <= width workArea ->
  6 * INNER_GAP cfg <= height workArea ->
  let r := LayoutEngine.calculateSnapRect cfg zone workArea in
  insetIn (INNER_GAP cfg) workArea r /\ 1 <= width r /\ 1 <= height r.
Proof.
  intros Hg HW HH.
  pose proof (Z.mul_div_le (width workArea - INNER_GAP cfg * 3) 2 ltac:(lia)).
  pose proof (Z.mul_succ_div_gt (width workArea - INNER_GAP cfg * 3) 2
                ltac:(lia)).
  pose proof (Z.mul_div_le (height workArea - INNER_GAP cfg * 3) 2 ltac:(lia)).
  pose proof (Z.mul_succ_div_gt (height workArea - INNER_GAP cfg * 3) 2
                ltac:(lia)).
  cbv zeta. unfold LayoutEngine.calculateSnapRect.
  repeat match goal with
         | |- context [String.eqb zone ?z] => destruct (String.eqb zone z)
         end;
    unfold insetIn, getLeftHalfRect, getRightHalfRect, getMaximizedRect,
      LayoutEngine._getQuadrant, getRightEdge, getBottomEdge;
    cbn [x y width height String.eqb Ascii.eqb Bool.eqb];
    repeat split; lia.
Qed.

Lemma snap_rect_inside_witness :
  insetIn 8 screen (LayoutEngine.calculateSnapRect CONFIG "right-bottom" screen)
  /\ 1 <= width (LayoutEngine.calculateSnapRect CONFIG "right-bottom" screen)
  /\ 1 <= height (LayoutEngine.calculateSnapRect CONFIG "right-bottom" screen).
Proof.
  refine (snap_rect_inside CONFIG "right-bottom" screen _ _ _);
    simpl; lia.
Defined.

(** X3: the three thirds follow each other exactly one gap apart and end
    at most two pixels short of the right margin; the left two-thirds
    rectangle spans exactly the left and the centre third, and the right
    two-thirds rectangle ends at the right margin and leaves the left third
    free with at least a gap between them. *)
Theorem thirds_layout (cfg : Config) (workArea : Rect) (side : string) :
  let g := INNER_GAP cfg in
  let l := LayoutEngine.calculateThirdRect cfg workArea LayoutEngine.ThirdLeft in
  let c := LayoutEngine.calculateThirdRect cfg workArea LayoutEngine.ThirdCenter in
  let r := LayoutEngine.calculateThirdRect cfg workArea LayoutEngine.ThirdRight in
  let ll := LayoutEngine.calculateTwoThirdsRect cfg workArea "left" in
  let rr := LayoutEngine.calculateTwoThirdsRect cfg workArea side in
  x l = x workArea + g /\
  x c = getRightEdge l + g /\
  x r = getRightEdge c + g /\
  0 <= x workArea + width workArea - g - getRightEdge r <= 2 /\
  x ll = x l /\ getRightEdge ll = getRightEdge c /\
  (String.eqb side "left" = false ->
   getRightEdge rr = x workArea + width workArea - g /\
   width rr = width ll /\
   g <= x rr - getRightEdge l <= g + 2).
Proof.
  cbv zeta.
  pose proof (Z.mul_div_le (width workArea - INNER_GAP cfg * 4) 3 ltac:(lia)).
  pose proof (Z.mul_succ_div_gt (width workArea - INNER_GAP cfg * 4) 3
                ltac:(lia)).
  unfold LayoutEngine.calculateThirdRect, LayoutEngine.calculateTwoThirdsRect,
    getRightEdge.
  cbn [x y width height String.eqb Ascii.eqb Bool.eqb].
  repeat split; try lia; rewrite H1; cbn [x width]; lia.
Qed.

Lemma thirds_layout_witness :
  getRightEdge (LayoutEngine.calculateTwoThirdsRect CONFIG screen "right")
  = 0 + 1920 - 8.
Proof.
  refine (proj1 (proj2 (proj2 (proj2 (proj2 (proj2 (proj2
            (thirds_layout CONFIG screen "right")))))) _)).
  reflexivity.
Defined.

(* ------------------------------------------------------------------ *)
(** ** Adjacency of two rectangles *)

Lemma isNearEdge_sym (p e t : Z) : isNearEdge p e t = isNearEdge e p t.
Proof.
  unfold isNearEdge. replace (e - p) with (- (p - e)) by lia.
  now rewrite Z.abs_opp.
Qed.

Lemma isNearEdge_true (p e t : Z) :
  isNearEdge p e t = true -> - t <= p - e <= t.
Proof. unfold isNearEdge. intros H. apply Z.leb_le in H. lia. Qed.

(** X4: [getAdjacency] reverses with its arguments: when [b] is to the
    left of, or above, [a], then [a] is to the right of, or below, [b], and
    no direction one way means none the other way; from right to left and
    from bottom to top the same holds as soon as the two rectangles are
    together wider, respectively higher, than twice the tolerance (two
    slivers within the tolerance of each other are "right" of each other
    both ways). *)
Theorem getAdjacency_reverse (a b : Rect) (tolerance : Z) :
  (getAdjacency a b tolerance = Some "left"%string ->
   getAdjacency b a tolerance = Some "right"%string) /\
  (getAdjacency a b tolerance = Some "top"%string ->
   getAdjacency b a tolerance = Some "bottom"%string) /\
  (getAdjacency a b tolerance = None -> getAdjacency b a tolerance = None) /\
  (getAdjacency a b tolerance = Some "right"%string ->
   2 * tolerance < width a + width b ->
   getAdjacency b a tolerance = Some "left"%string) /\
  (getAdjacency a b tolerance = Some "bottom"%string ->
   2 * tolerance < height a + height b ->
   getAdjacency b a tolerance = Some "top"%string).
Proof.
  unfold getAdjacency.
  rewrite (isNearEdge_sym (getRightEdge b) (x a)),
    (isNearEdge_sym (x b) (getRightEdge a)),
    (isNearEdge_sym (getBottomEdge b) (y a)),
    (isNearEdge_sym (y b) (getBottomEdge a)),
    (hasVerticalOverlap_sym b a), (hasHorizontalOverlap_sym b a).
  destruct (isNearEdge (getRightEdge a) (x b) tolerance
            && hasVerticalOverlap a b 50) eqn:C1;
  destruct (isNearEdge (x a) (getRightEdge b) tolerance
            && hasVerticalOverlap a b 50) eqn:C2;
  destruct (isNearEdge (getBottomEdge a) (y b) tolerance
            && hasHorizontalOverlap a b 50) eqn:C3;
  destruct (isNearEdge (y a) (getBottomEdge b) tolerance
            && hasHorizontalOverlap a b 50) eqn:C4;
  cbv iota; repeat split; intros; try discriminate; try reflexivity;
    exfalso.
  all: try (apply andb_true_iff in C1 as [N1 _];
            apply andb_true_iff in C2 as [N2 _];
            apply isNearEdge_true in N1, N2;
            unfold getRightEdge in *; lia).
  all: apply andb_true_iff in C3 as [N3 _];
    apply andb_true_iff in C4 as [N4 _];
    apply isNearEdge_true in N3, N4;
    unfold getBottomEdge in *; lia.
Qed.

Lemma getAdjacency_reverse_witness :
  getAdjacency (mkRect 964 8 948 1064) (mkRect 8 8 948 1064) 10
  = Some "left"%string.
Proof.
  refine (proj1 (proj2 (proj2 (proj2
            (getAdjacency_reverse (mkRect 8 8 948 1064)
               (mkRect 964 8 948 1064) 10)))) _ _).
  - reflexivity.
  - simpl. lia.
Defined.

(* ------------------------------------------------------------------ *)
(** ** Edge zones *)

(** X5: the edge test of the swap, gap and insert detectors holds exactly
    where the snap detector finds a zone (the bottom strip alone is none),
    and there a release commits no swap and the gap and insert detectors
    report no zone: edge snapping wins over all three. *)
Theorem edge_zones_win (cfg : Config) (workArea : Rect) (px py : Z) :
  (SwapDetector._isInEdgeZone cfg (Some workArea) px py = true <->
   SnapDetector._detectZone px py workArea (SNAP_THRESHOLD cfg) <> None) /\
  (SnapDetector._detectZone px py workArea (SNAP_THRESHOLD cfg) <> None ->
   (forall s d,
      SwapDetector._onGrabEnd s
        (SwapDetector._isInEdgeZone cfg (Some workArea) px py) d = None) /\
   (forall workspace dragged s,
      GapDetector._checkForGap cfg (Some workArea) workspace dragged s px py
      = None) /\
   (forall area dragged s,
      InsertDetector._checkForInsertZone cfg (Some workArea) area dragged s
        px py = None)).
Proof.
  assert (Hiff : SwapDetector._isInEdgeZone cfg (Some workArea) px py = true <->
                 SnapDetector._detectZone px py workArea (SNAP_THRESHOLD cfg)
                 <> None).
  { unfold SwapDetector._isInEdgeZone, SnapDetector._detectZone. cbv zeta.
    destruct (px <? x workArea + SNAP_THRESHOLD cfg);
      destruct (x workArea + width workArea - SNAP_THRESHOLD cfg <? px);
      destruct (py <? y workArea + SNAP_THRESHOLD cfg);
      destruct (y workArea + height workArea - SNAP_THRESHOLD cfg <? py);
      cbn; split; congruence. }
  split; [exact Hiff|]. intros Hzone. apply Hiff in Hzone.
  split; [|split].
  - intros s d. rewrite Hzone. unfold SwapDetector._onGrabEnd.
    now destruct (SwapDetector._potentialSwapTarget d).
  - intros workspace dragged s. unfold GapDetector._checkForGap.
    now rewrite Hzone.
  - intros area dragged s. unfold InsertDetector._checkForInsertZone.
    rewrite Hzone. now destruct (getTiledWindows s).
Qed.

Lemma edge_zones_win_witness :
  GapDetector._checkForGap CONFIG (Some screen) [1; 2] (Some 1) twoHalves
    1900 500 = None.
Proof.
  refine (proj1 (proj2 (proj2 (edge_zones_win CONFIG screen 1900 500) _))
            [1; 2] (Some 1) twoHalves).
  discriminate.
Defined.

(* ------------------------------------------------------------------ *)
(** ** The registry *)

(** X6: [setWindow] followed by [getWindow]: the entry carries the id it is
    stored under, every field that was passed is read back, and every field
    that was left out keeps the value of the entry that was there or, when
    there was none, takes its default, field by field: the zero rectangle,
    no original rectangle, zone "none", not tiled, empty neighbour lists.
    No other entry changes, the order of the keys is kept with a new key at
    the end, and the listeners are notified once. *)
Theorem setWindow_getWindow (s : StateStore.t) (i : Z) (p : PartialState) :
  (forall j, j <> i -> getWindow (setWindow s i p) j = getWindow s j) /\
  JSMap.keys (_windows (setWindow s i p)) =
    (if JSMap.has i (_windows s) then JSMap.keys (_windows s)
     else JSMap.keys (_windows s) ++ [i]) /\
  notified (setWindow s i p) = S (notified s) /\
  exists st,
    getWindow (setWindow s i p) i = Some st /\ id st = i /\
    (forall r, p_rect p = Some r -> rect st = r) /\
    (forall o, p_originalRect p = Some o -> originalRect st = Some o) /\
    (forall z, p_zone p = Some z -> zone st = z) /\
    (forall b, p_isTiled p = Some b -> isTiled st = b) /\
    (forall n, p_neighbors p = Some n -> neighbors st = n) /\
    (forall old, getWindow s i = Some old ->
       (p_rect p = None -> rect st = rect old) /\
       (p_originalRect p = None -> originalRect st = originalRect old) /\
       (p_zone p = None -> zone st = zone old) /\
       (p_isTiled p = None -> isTiled st = isTiled old) /\
       (p_neighbors p = None -> neighbors st = neighbors old)) /\
    (getWindow s i = None ->
       (p_rect p = None -> rect st = mkRect 0 0 0 0) /\
       (p_originalRect p = None -> originalRect st = None) /\
       (p_zone p = None -> zone st = "none"%string) /\
       (p_isTiled p = None -> isTiled st = false) /\
       (p_neighbors p = None -> neighbors st = mkNeighbors [] [] [] [])).
Proof.
  split; [|split; [|split]].
  - intros j Hne. unfold getWindow, setWindow. simpl.
    apply get_set_other. congruence.
  - unfold setWindow. simpl. apply keys_set.
  - reflexivity.
  - unfold getWindow, setWindow. simpl. rewrite get_set_same.
    eexists. split; [reflexivity|]. split; [reflexivity|].
    cbn [rect originalRect zone isTiled neighbors].
    split; [intros r ->; reflexivity|].
    split; [intros o ->; reflexivity|].
    split; [intros z ->; reflexivity|].
    split; [intros b ->; reflexivity|].
    split; [intros n ->; reflexivity|].
    split.
    + intros old ->. cbn [option_map].
      repeat split; intros ->; reflexivity.
    + intros ->. cbn [option_map].
      repeat split; intros ->; reflexivity.
Qed.

(** A new entry that is given a rectangle only. *)
Lemma setWindow_getWindow_witness :
  exists st,
    getWindow (setWindow twoHalves 5 (justRect (mkRect 1 2 3 4))) 5 = Some st /\
    id st = 5 /\ rect st = mkRect 1 2 3 4 /\
    originalRect st = None /\ zone st = "none"%string /\
    isTiled st = false /\ neighbors st = mkNeighbors [] [] [] [].
Proof.
  destruct (setWindow_getWindow twoHalves 5 (justRect (mkRect 1 2 3 4)))
    as [_ [_ [_ [st [H1 [H2 [H3 [_ [_ [_ [_ [_ Hnew]]]]]]]]]]]].
  destruct (Hnew eq_refl) as [_ [N2 [N3 [N4 N5]]]].
  exists st. split; [exact H1|]. split; [exact H2|].
  split; [exact (H3 _ eq_refl)|]. split; [exact (N2 eq_refl)|].
  split; [exact (N3 eq_refl)|]. split; [exact (N4 eq_refl)|].
  exact (N5 eq_refl).
Defined.

Lemma wf_clear (s : StateStore.t) : wf (clear s).
Proof. split; constructor. Qed.

Lemma wf_perform (cfg : Config) (s : StateStore.t) (o : Op) :
  wf s -> wf (perform cfg s o).
Proof.
  destruct o; simpl; intros H.
  - now apply wf_setWindow.
  - now apply wf_removeWindow.
  - now apply wf_recalculateNeighbors.
  - apply wf_clear.
Qed.

(** X7: whatever sequence of [setWindow], [removeWindow],
    [recalculateNeighbors] and [clear] is run on a fresh store, the keys of
    the registry stay unique, [getWindow id] only ever returns a state that
    carries [id], and no two tiled windows share an id. *)
Theorem registry_well_formed (cfg : Config) (ops : list Op) :
  let s := fold_left (perform cfg) ops empty in
  NoDup (JSMap.keys (_windows s)) /\
  (forall i st, getWindow s i = Some st -> id st = i) /\
  NoDup (map id (getTiledWindows s)).
Proof.
  cbv zeta.
  assert (Hwf : wf (fold_left (perform cfg) ops empty)).
  { generalize wf_empty. generalize empty.
    induction ops as [|o ops IH]; intros s Hs; simpl; [exact Hs|].
    apply IH. now apply wf_perform. }
  split; [exact (proj1 Hwf)|]. split.
  - intros i st. now apply wf_get_id.
  - now apply NoDup_tiled_ids.
Qed.

Lemma findNeighbors_of_refreshed (cfg : Config) (w : WindowState)
    (n : Neighbors) (L : list WindowState) :
  _findNeighbors cfg (withNeighbors w n) L = _findNeighbors cfg w L.
Proof.
  induction L as [|o L IH]; [reflexivity|].
  cbn [_findNeighbors]. rewrite IH. reflexivity.
Qed.

Lemma findNeighbors_over_refreshed (cfg : Config) (w : WindowState)
    (T L : list WindowState) :
  _findNeighbors cfg w (map (refreshed cfg T) L) = _findNeighbors cfg w L.
Proof.
  induction L as [|o L IH]; [reflexivity|].
  cbn [map _findNeighbors]. rewrite IH. reflexivity.
Qed.

(** X8: [recalculateNeighbors] rewrites neighbour lists and nothing else:
    keys and their order, the notification count and, for every entry, id,
    rectangle, original rectangle, zone and tiled flag are as before, and an
    untiled entry is not touched at all; running it a second time changes
    nothing. *)
Theorem recalculateNeighbors_only_neighbors (cfg : Config) (s : StateStore.t) :
  recalculateNeighbors cfg (recalculateNeighbors cfg s)
  = recalculateNeighbors cfg s /\
  JSMap.keys (_windows (recalculateNeighbors cfg s)) = JSMap.keys (_windows s) /\
  notified (recalculateNeighbors cfg s) = notified s /\
  (forall i st, getWindow s i = Some st ->
     exists st', getWindow (recalculateNeighbors cfg s) i = Some st' /\
       id st' = id st /\ rect st' = rect st /\
       originalRect st' = originalRect st /\ zone st' = zone st /\
       isTiled st' = isTiled st /\
       (isTiled st = false -> st' = st)) /\
  (forall i, getWindow s i = None ->
     getWindow (recalculateNeighbors cfg s) i = None).
Proof.
  split; [|split; [|split; [|split]]].
  - unfold recalculateNeighbors at 1. cbv zeta.
    rewrite getTiledWindows_recalculateNeighbors.
    unfold recalculateNeighbors. cbn [_windows notified]. f_equal.
    set (T := getTiledWindows s). rewrite map_map. apply map_ext.
    intros [k v]. cbn [fst snd].
    destruct (isTiled v) eqn:Ev; cbn [fst snd]; [|now rewrite Ev].
    cbn [isTiled withNeighbors]. rewrite Ev. f_equal.
    rewrite findNeighbors_of_refreshed, findNeighbors_over_refreshed.
    reflexivity.
  - unfold recalculateNeighbors, JSMap.keys. cbn [_windows].
    rewrite map_map. apply map_ext. intros [k v]. cbn [fst snd].
    now destruct (isTiled v).
  - reflexivity.
  - intros i st Hst. rewrite getWindow_recalculateNeighbors, Hst.
    cbn [option_map]. eexists. split; [reflexivity|].
    destruct (isTiled st) eqn:Et; cbn; repeat split; auto; discriminate.
  - intros i Hi. now rewrite getWindow_recalculateNeighbors, Hi.
Qed.

Lemma recalculateNeighbors_only_neighbors_witness :
  exists st', getWindow (recalculateNeighbors CONFIG twoHalves) 1 = Some st' /\
    id st' = id leftHalf /\ rect st' = rect leftHalf /\
    originalRect st' = originalRect leftHalf /\ zone st' = zone leftHalf /\
    isTiled st' = isTiled leftHalf /\
    (isTiled leftHalf = false -> st' = leftHalf).
Proof.
  refine (proj1 (proj2 (proj2 (proj2
            (recalculateNeighbors_only_neighbors CONFIG twoHalves))))
            1 leftHalf _).
  reflexivity.
Defined.

Lemma getWindow_of_value (s : StateStore.t) (o : WindowState) :
  wf s -> In o (getAllWindows s) -> getWindow s (id o) = Some o.
Proof.
  intros [Hnd Hid] Hin. unfold getAllWindows, JSMap.values in Hin.
  apply in_map_iff in Hin as [[k v] [<- Hin]]. cbn [snd].
  rewrite Forall_forall in Hid. pose proof (Hid _ Hin) as Hk. cbn in Hk.
  rewrite Hk. now apply In_get.
Qed.

Lemma value_of_getWindow (s : StateStore.t) (i : Z) (st : WindowState) :
  getWindow s i = Some st -> In st (getAllWindows s).
Proof.
  intros H. apply get_In in H. unfold getAllWindows, JSMap.values.
  change st with (snd (i, st)). now apply in_map.
Qed.

Lemma NoDup_findNeighbors (cfg : Config) (d : Direction) (w : WindowState)
    (T : list WindowState) :
  NoDup (map id T) -> NoDup (side d (_findNeighbors cfg w T)).
Proof.
  induction T as [|o T IH]; intros Hnd.
  - destruct d; constructor.
  - cbn [map] in Hnd. inversion Hnd as [|? ? Hnotin Hnd']; subst.
    specialize (IH Hnd').
    assert (Hfresh : ~ In (id o) (side d (_findNeighbors cfg w T))).
    { intros Hin. apply In_findNeighbors in Hin as [o' [Ho' [Hid _]]].
      apply Hnotin. rewrite <- Hid. now apply in_map. }
    cbn [_findNeighbors]. destruct (id o =? id w); [exact IH|].
    destruct d; cbn [side left right top bottom];
      match goal with
      | |- context [if ?c then _ else _] => destruct c
      end; try exact IH; constructor; assumption.
Qed.

(** X9: after [recalculateNeighbors] each neighbour list of a tiled window
    is free of duplicates and holds only ids of other tiled windows of the
    registry, never the window's own. *)
Theorem neighbor_lists_after_recalculate (cfg : Config) (s : StateStore.t)
    (A : WindowState) (d : Direction) :
  wf s ->
  In A (getTiledWindows (recalculateNeighbors cfg s)) ->
  NoDup (side d (neighbors A)) /\
  forall j, In j (side d (neighbors A)) ->
    j <> id A /\
    exists B, In B (getTiledWindows (recalculateNeighbors cfg s)) /\ id B = j.
Proof.
  intros Hwf HA. rewrite getTiledWindows_recalculateNeighbors in *.
  apply in_map_iff in HA as [A0 [<- HA0]].
  unfold refreshed at 1 2 3. cbn [neighbors id withNeighbors]. split.
  - apply NoDup_findNeighbors. now apply NoDup_tiled_ids.
  - intros j Hj. apply In_findNeighbors in Hj as [o [Ho [Hid [Hne _]]]].
    split; [congruence|].
    exists (refreshed cfg (getTiledWindows s) o). split.
    + now apply in_map.
    + exact Hid.
Qed.

Lemma neighbor_lists_after_recalculate_witness :
  NoDup (side DRight (neighbors leftHalf)) /\
  forall j, In j (side DRight (neighbors leftHalf)) ->
    j <> id leftHalf /\
    exists B, In B (getTiledWindows (recalculateNeighbors CONFIG twoHalves))
              /\ id B = j.
Proof.
  refine (neighbor_lists_after_recalculate CONFIG twoHalves leftHalf DRight
            wf_twoHalves _).
  simpl. left. reflexivity.
Defined.

Lemma closed_empty : closedNeighbors empty.
Proof. intros st d j []. Qed.

Lemma closed_clear (s : StateStore.t) : closedNeighbors (clear s).
Proof. intros st d j []. Qed.

Lemma In_set {V : Type} (k : Z) (v : V) (m : list (Z * V)) (e : Z * V) :
  In e (JSMap.set k v m) -> e = (k, v) \/ In e m.
Proof.
  induction m as [|[k0 v0] m IH]; cbn [JSMap.set].
  - intros [<-|[]]. now left.
  - destruct (k0 =? k).
    + intros [<-|H]; [now left | right; now right].
    + intros [<-|H]; [right; now left|].
      destruct (IH H) as [->|H']; [now left | right; now right].
Qed.

Lemma setWindow_keeps_keys (s : StateStore.t) (i : Z) (p : PartialState)
    (k : Z) :
  getWindow s k <> None -> getWindow (setWindow s i p) k <> None.
Proof.
  intros Hk. destruct (Z.eq_dec k i) as [->|Hne].
  - unfold getWindow, setWindow. simpl. rewrite get_set_same. discriminate.
  - unfold getWindow, setWindow in *. simpl.
    rewrite get_set_other by congruence. exact Hk.
Qed.

Lemma closed_setWindow (s : StateStore.t) (i : Z) (p : PartialState) :
  p_neighbors p = None -> closedNeighbors s -> closedNeighbors (setWindow s i p).
Proof.
  intros Hp Hc st d j Hst Hj. apply setWindow_keeps_keys.
  unfold getAllWindows, JSMap.values in Hst.
  apply in_map_iff in Hst as [e [<- Hin]].
  unfold setWindow in Hin. cbn [_windows _notifyChange] in Hin.
  apply In_set in Hin as [->|Hin].
  - cbn [snd neighbors] in Hj. rewrite Hp in Hj. cbn [orElse] in Hj.
    destruct (JSMap.get i (_windows s)) as [old|] eqn:Eold.
    + cbn [option_map orDefault] in Hj.
      apply (Hc old d j); [|exact Hj].
      now apply (value_of_getWindow s i).
    + cbn [option_map orDefault] in Hj. destruct d; destruct Hj.
  - apply (Hc (snd e) d j); [|exact Hj].
    unfold getAllWindows, JSMap.values. now apply in_map.
Qed.

Lemma closed_removeWindow (s : StateStore.t) (i : Z) :
  closedNeighbors s -> closedNeighbors (removeWindow s i).
Proof.
  intros Hc. unfold removeWindow.
  destruct (JSMap.has i (_windows s)); [|exact Hc].
  intros st d j Hst Hj.
  unfold getAllWindows, JSMap.values in Hst. cbn [_windows _notifyChange] in Hst.
  unfold _removeFromNeighbors in Hst. rewrite map_map in Hst. cbn [snd] in Hst.
  apply in_map_iff in Hst as [e [<- Hin]].
  unfold JSMap.delete in Hin. apply filter_In in Hin as [Hin _].
  rewrite purge_side in Hj. apply In_without in Hj as [Hj Hne].
  unfold getWindow. cbn [_windows _notifyChange].
  unfold _removeFromNeighbors. rewrite get_map_values, get_delete_other by auto.
  assert (Hs : getWindow s j <> None).
  { apply (Hc (snd e) d j); [|exact Hj].
    unfold getAllWindows, JSMap.values. now apply in_map. }
  unfold getWindow in Hs. destruct (JSMap.get j (_windows s)); [discriminate|].
  contradiction.
Qed.

Lemma closed_recalculateNeighbors (cfg : Config) (s : StateStore.t) :
  wf s -> closedNeighbors s -> closedNeighbors (recalculateNeighbors cfg s).
Proof.
  intros Hwf Hc st d j Hst Hj.
  assert (Hkeep : forall k, getWindow s k <> None ->
                            getWindow (recalculateNeighbors cfg s) k <> None).
  { intros k Hk. rewrite getWindow_recalculateNeighbors.
    destruct (getWindow s k); [discriminate | contradiction]. }
  apply Hkeep.
  unfold getAllWindows, JSMap.values, recalculateNeighbors in Hst.
  cbn [_windows] in Hst. rewrite map_map in Hst.
  apply in_map_iff in Hst as [[k v] [<- Hin]]. cbn [fst snd] in Hj.
  assert (Hv : In v (getAllWindows s)).
  { unfold getAllWindows, JSMap.values. change v with (snd (k, v)).
    now apply in_map. }
  destruct (isTiled v); cbn [snd] in Hj.
  - cbn [neighbors withNeighbors] in Hj.
    apply In_findNeighbors in Hj as [o [Ho [<- _]]].
    rewrite (getWindow_of_value s o Hwf (tiled_in_all s o Ho)). discriminate.
  - exact (Hc v d j Hv Hj).
Qed.

(** X10: as long as [setWindow] is not handed neighbour lists (no caller
    does), every id in any neighbour list of the registry is the key of an
    entry of the registry, whatever sequence of [setWindow],
    [removeWindow], [recalculateNeighbors] and [clear] has run since the
    store was created: removal purges the id everywhere, and recomputation
    lists registered windows only. *)
Theorem neighbor_ids_are_registered (cfg : Config) (ops : list Op) :
  Forall plain ops ->
  closedNeighbors (fold_left (perform cfg) ops empty).
Proof.
  intros Hplain.
  assert (H : wf (fold_left (perform cfg) ops empty) /\
              closedNeighbors (fold_left (perform cfg) ops empty)).
  { assert (H0 : wf empty /\ closedNeighbors empty)
      by (split; [exact wf_empty | exact closed_empty]).
    revert H0. generalize empty.
    induction Hplain as [|o ops Ho Hops IH]; intros s [Hwf Hc];
      cbn [fold_left]; [now split|].
    apply IH. split; [now apply wf_perform|].
    destruct o; cbn [perform].
    - now apply closed_setWindow.
    - now apply closed_removeWindow.
    - now apply closed_recalculateNeighbors.
    - apply closed_clear. }
  exact (proj2 H).
Qed.

Lemma neighbor_ids_are_registered_witness :
  closedNeighbors
    (fold_left (perform CONFIG)
       [OpSet 1 (tiledAt (mkRect 8 8 948 1064) (mkRect 0 0 10 10) "left");
        OpSet 2 (tiledAt (mkRect 964 8 948 1064) (mkRect 0 0 10 10) "right");
        OpRecalculate; OpRemove 1]
       empty).
Proof.
  apply neighbor_ids_are_registered.
  repeat constructor.
Defined.

(* ------------------------------------------------------------------ *)
(** ** [getNeighbors] *)

Lemma resolve_In (m : list (Z * WindowState)) (ids : list Z)
    (n : WindowState) :
  In n (resolve m ids) <-> exists j, In j ids /\ JSMap.get j m = Some n.
Proof.
  induction ids as [|i ids IH]; cbn [resolve].
  - split; [intros [] | intros [j [[] _]]].
  - destruct (JSMap.get i m) as [st|] eqn:E.
    + cbn [In]. rewrite IH. split.
      * intros [Heq|[j [Hj Hg]]].
        -- exists i. split; [now left | congruence].
        -- exists j. split; [now right | exact Hg].
      * intros [j [[Heq|Hj] Hg]].
        -- left. congruence.
        -- right. exists j. now split.
    + rewrite IH. split.
      * intros [j [Hj Hg]]. exists j. split; [now right | exact Hg].
      * intros [j [[Heq|Hj] Hg]]; [congruence|]. exists j. now split.
Qed.

Lemma resolve_ids (m : list (Z * WindowState)) (ids : list Z) :
  Forall (fun e => id (snd e) = fst e) m ->
  NoDup (JSMap.keys m) ->
  map id (resolve m ids) = filter (fun k => JSMap.has k m) ids.
Proof.
  intros Hid Hnd. induction ids as [|i ids IH]; cbn [resolve filter]; auto.
  unfold JSMap.has at 1. destruct (JSMap.get i m) as [st|] eqn:E.
  - cbn [map]. rewrite IH. f_equal.
    apply get_In in E. rewrite Forall_forall in Hid. exact (Hid _ E).
  - exact IH.
Qed.

Lemma getNeighbors_entries (s : StateStore.t) (i : Z) (d : Direction)
    (n : WindowState) :
  wf s -> In n (getNeighbors s (Some i) d) -> getWindow s (id n) = Some n.
Proof.
  intros Hwf Hn. unfold getNeighbors in Hn.
  destruct (JSMap.get i (_windows s)) as [st|]; [|destruct Hn].
  apply resolve_In in Hn as [k [_ Hk]].
  rewrite (wf_get_id s k n Hwf Hk). exact Hk.
Qed.

(** X11: [getNeighbors] never returns a stale window.  For an id that is
    not registered the result is empty; otherwise the result lists, in the
    order of the neighbour list, exactly the ids that are still registered,
    each with its current registry entry; and once [removeWindow j] has
    run, no answer of [getNeighbors] contains window [j]. *)
Theorem getNeighbors_current (s : StateStore.t) (i j : Z) (d : Direction) :
  wf s ->
  (getWindow s i = None -> getNeighbors s (Some i) d = []) /\
  (forall st, getWindow s i = Some st ->
     map id (getNeighbors s (Some i) d)
     = filter (fun k => JSMap.has k (_windows s)) (side d (neighbors st))) /\
  (forall n, In n (getNeighbors s (Some i) d) ->
     getWindow s (id n) = Some n) /\
  (forall n, In n (getNeighbors (removeWindow s j) (Some i) d) -> id n <> j).
Proof.
  intros Hwf.
  assert (Hcur : forall s0 n, wf s0 -> In n (getNeighbors s0 (Some i) d) ->
                   getWindow s0 (id n) = Some n)
    by (intros s0 n; apply getNeighbors_entries).
  split; [|split; [|split]].
  - unfold getWindow, getNeighbors. now intros ->.
  - intros st Hst. unfold getWindow in Hst. unfold getNeighbors.
    rewrite Hst. destruct Hwf as [Hnd Hid]. now apply resolve_ids.
  - intros n. now apply Hcur.
  - intros n Hn Heq.
    apply Hcur in Hn; [|now apply wf_removeWindow].
    rewrite Heq in Hn. unfold removeWindow in Hn.
    destruct (JSMap.has j (_windows s)) eqn:Ehas.
    + unfold getWindow in Hn. cbn [_windows _notifyChange] in Hn.
      unfold _removeFromNeighbors in Hn.
      rewrite get_map_values, get_delete_same in Hn. discriminate.
    + apply has_get in Ehas. unfold getWindow in Hn. congruence.
Qed.

Lemma getNeighbors_current_witness :
  map id (getNeighbors twoHalves (Some 1) DRight)
  = filter (fun k => JSMap.has k (_windows twoHalves))
      (side DRight (neighbors leftHalf)).
Proof.
  exact (proj1 (proj2 (getNeighbors_current twoHalves 1 2 DRight wf_twoHalves))
           leftHalf eq_refl).
Defined.

(* ------------------------------------------------------------------ *)
(** ** The resize loops *)

Section Follow.
Import ResizeHandler.
Variable cfg : Config.
Variable workspace : list Z.
Variable h : ResizeHandler.t.
Variable delta : Z.

Lemma constrainBack_calls (w : World) :
  exists new,
    calls (constrainBack h w) = calls w ++ new /\
    forall d S, Forall (loopCall cfg workspace h d delta S) new.
Proof.
  unfold constrainBack.
  destruct (_resizingWindowId h) as [rid|] eqn:Erid;
    [destruct (_lastRect h) as [l|] eqn:El|].
  - exists [MoveResize rid (mkRect (x l) (y l) (width l) (height l))].
    split; [reflexivity|]. intros d S. constructor; [|constructor].
    left. split; [exact Erid|]. rewrite El. now destruct l.
  - exists []. split; [now rewrite app_nil_r | constructor].
  - exists []. split; [now rewrite app_nil_r | constructor].
Qed.

Lemma place_calls (d : Direction) (nb : WindowState) (r : Rect) (w : World) :
  _getMetaWindow workspace (id nb) = true ->
  follows cfg d delta nb r ->
  exists new,
    calls (place (id nb) r w) = calls w ++ new /\
    Forall (loopCall cfg workspace h d delta [nb]) new.
Proof.
  intros Hm Hf. exists [MoveResize (id nb) r; Raise (id nb)]. split.
  - unfold place, setRect, emit. cbn [calls]. now rewrite <- app_assoc.
  - constructor; [|constructor; [|constructor]].
    + right. exists nb. repeat split; auto. now left.
    + exists nb. repeat split; auto. now left.
Qed.

Lemma skip_calls (d : Direction) (S : list WindowState) (w : World) :
  exists new,
    calls w = calls w ++ new /\
    Forall (loopCall cfg workspace h d delta S) new.
Proof. exists []. split; [now rewrite app_nil_r | constructor]. Qed.

Lemma adjustStep_calls (d : Direction) (w : World) (nb : WindowState) :
  exists new,
    calls (adjustStep cfg workspace h delta d w nb) = calls w ++ new /\
    Forall (loopCall cfg workspace h d delta [nb]) new.
Proof.
  destruct d; cbn [adjustStep].
  - unfold adjustLeft.
    destruct (_getMetaWindow workspace (id nb)) eqn:Hm; cbn [negb];
      [|apply skip_calls].
    destruct ((width (rect nb) + delta <? MIN_WINDOW_WIDTH cfg) && (delta <? 0))
      eqn:Hc.
    + apply andb_true_iff in Hc as [H1 H2].
      apply Z.ltb_lt in H1. apply Z.ltb_lt in H2.
      destruct (width (rect nb) <=? MIN_WINDOW_WIDTH cfg) eqn:Hw.
      * destruct (constrainBack_calls w) as [new [Hn Hall]].
        exists new. split; [exact Hn | apply Hall].
      * apply Z.leb_gt in Hw. apply place_calls; [exact Hm|].
        unfold follows, getRightEdge. cbn [x y width height].
        repeat split; try reflexivity. right. lia.
    + apply place_calls; [exact Hm|].
      unfold follows, getRightEdge. cbn [x y width height].
      repeat split; try reflexivity. left. lia.
  - unfold adjustRight.
    destruct (_getMetaWindow workspace (id nb)) eqn:Hm; cbn [negb];
      [|apply skip_calls].
    destruct ((width (rect nb) - delta <? MIN_WINDOW_WIDTH cfg) && (0 <? delta))
      eqn:Hc.
    + apply andb_true_iff in Hc as [H1 H2].
      apply Z.ltb_lt in H1. apply Z.ltb_lt in H2.
      destruct (width (rect nb) - MIN_WINDOW_WIDTH cfg <=? 0) eqn:Hw.
      * destruct (constrainBack_calls w) as [new [Hn Hall]].
        exists new. split; [exact Hn | apply Hall].
      * apply Z.leb_gt in Hw. apply place_calls; [exact Hm|].
        unfold follows, getRightEdge. cbn [x y width height].
        split; [lia|]. split; [reflexivity|]. split; [reflexivity|].
        right. lia.
    + apply place_calls; [exact Hm|].
      unfold follows, getRightEdge. cbn [x y width height].
      split; [lia|]. split; [reflexivity|]. split; [reflexivity|].
      now left.
  - unfold adjustTop.
    destruct (_getMetaWindow workspace (id nb)) eqn:Hm; cbn [negb];
      [|apply skip_calls].
    cbn [height].
    destruct (height (rect nb) + delta <? MIN_WINDOW_HEIGHT cfg) eqn:Hc;
      [apply skip_calls|].
    apply Z.ltb_ge in Hc. apply place_calls; [exact Hm|].
    unfold follows, getBottomEdge. cbn [x y width height].
    repeat split; try reflexivity; lia.
  - unfold adjustBottom.
    destruct (_getMetaWindow workspace (id nb)) eqn:Hm; cbn [negb];
      [|apply skip_calls].
    cbn [height].
    destruct (height (rect nb) - delta <? MIN_WINDOW_HEIGHT cfg) eqn:Hc;
      [apply skip_calls|].
    apply Z.ltb_ge in Hc. apply place_calls; [exact Hm|].
    unfold follows, getBottomEdge. cbn [x y width height].
    repeat split; try reflexivity; lia.
Qed.

Lemma loopCall_incl (d : Direction) (S S' : list WindowState) (c : Call) :
  incl S S' ->
  loopCall cfg workspace h d delta S c ->
  loopCall cfg workspace h d delta S' c.
Proof.
  intros Hincl. destruct c as [i r|i]; cbn [loopCall].
  - intros [Hrev|[nb [Hin Hrest]]]; [now left|].
    right. exists nb. split; [now apply Hincl | exact Hrest].
  - intros [nb [Hin Hrest]]. exists nb. split; [now apply Hincl | exact Hrest].
Qed.

Lemma adjustFold_calls (d : Direction) (S l : list WindowState) :
  incl l S ->
  forall w, exists new,
    calls (fold_left (adjustStep cfg workspace h delta d) l w) = calls w ++ new /\
    Forall (loopCall cfg workspace h d delta S) new.
Proof.
  induction l as [|nb l IH]; intros Hincl w; cbn [fold_left].
  - apply skip_calls.
  - destruct (adjustStep_calls d w nb) as [n1 [E1 F1]].
    destruct (IH (fun a Ha => Hincl a (or_intror Ha)) (adjustStep cfg workspace h delta d w nb))
      as [n2 [E2 F2]].
    exists (n1 ++ n2). split.
    + rewrite E2, E1. now rewrite app_assoc.
    + apply Forall_app. split; [|exact F2].
      eapply Forall_impl; [|exact F1].
      intros c. apply loopCall_incl.
      intros a [<-|[]]. apply Hincl. now left.
Qed.

End Follow.

(** X13: what a resize loop sends to the compositor.  Apart from the
    revert of the window being resized to its last known rectangle, every
    rectangle goes to a neighbour that [getNeighbors] returned for that side
    before the loop and that is on the workspace; it leaves the neighbour's
    far edge and its extent on the other axis as they are in the registry
    and moves the shared edge by [delta], or by less when the width stops at
    [MIN_WINDOW_WIDTH]; only such neighbours are raised. *)
Theorem resize_loop_follows (cfg : Config) (workspace : list Z)
    (h : ResizeHandler.t) (d : Direction) (delta : Z) (w : World) :
  exists new,
    calls (adjustNeighbors cfg workspace h d delta w) = calls w ++ new /\
    Forall
      (loopCall cfg workspace h d delta
         (getNeighbors (store w) (ResizeHandler._resizingWindowId h) d))
      new.
Proof.
  destruct d; cbn [adjustNeighbors].
  - apply (adjustFold_calls cfg workspace h delta DLeft), incl_refl.
  - apply (adjustFold_calls cfg workspace h delta DRight), incl_refl.
  - apply (adjustFold_calls cfg workspace h delta DTop), incl_refl.
  - apply (adjustFold_calls cfg workspace h delta DBottom), incl_refl.
Qed.

(* ------------------------------------------------------------------ *)
(** ** A resize tick as a whole *)

Lemma getWindow_setWindow_same (s : StateStore.t) (i : Z) (p : PartialState) :
  getWindow (setWindow s i p) i =
  Some {| id := i;
          rect := orDefault (orElse (p_rect p) (option_map rect (getWindow s i)))
                    (mkRect 0 0 0 0);
          originalRect :=
            orElse (p_originalRect p)
              (match getWindow s i with
               | Some e => originalRect e
               | None => None
               end);
          zone := orDefault (orElse (p_zone p) (option_map zone (getWindow s i)))
                    "none"%string;
          isTiled := orDefault
                       (orElse (p_isTiled p)
                          (option_map isTiled (getWindow s i)))
                       false;
          neighbors :=
            orDefault (orElse (p_neighbors p)
                         (option_map neighbors (getWindow s i)))
              (mkNeighbors [] [] [] []) |}.
Proof.
  unfold getWindow, setWindow. cbn [_windows _notifyChange].
  now rewrite get_set_same.
Qed.

Lemma getWindow_setWindow_other (s : StateStore.t) (i j : Z)
    (p : PartialState) :
  i <> j -> getWindow (setWindow s i p) j = getWindow s j.
Proof.
  intros Hne. unfold getWindow, setWindow. cbn [_windows _notifyChange].
  now rewrite get_set_other.
Qed.

Lemma tickFrame_refl (o : option Z) (s : StateStore.t) :
  wf s -> tickFrame o s s.
Proof.
  intros Hwf. split; [exact Hwf|]. split.
  - intros i st Hst. exists st. repeat split; auto.
  - intros i Hi _. exact Hi.
Qed.

Lemma tickFrame_trans (o : option Z) (s1 s2 s3 : StateStore.t) :
  tickFrame o s1 s2 -> tickFrame o s2 s3 -> tickFrame o s1 s3.
Proof.
  intros [_ [R12 K12]] [W3 [R23 K23]]. split; [exact W3|]. split.
  - intros i st Hst.
    destruct (R12 i st Hst) as [st2 [H2 [E1 [E2 [E3 [E4 E5]]]]]].
    destruct (R23 i st2 H2) as [st3 [H3 [F1 [F2 [F3 [F4 F5]]]]]].
    exists st3. repeat split; congruence.
  - intros i Hi Hne. apply K23; [|exact Hne]. now apply K12.
Qed.

Lemma tickFrame_setRect (o : option Z) (j : Z) (r : Rect) (w : World) :
  wf (store w) ->
  getWindow (store w) j <> None \/ o = Some j ->
  tickFrame o (store w) (store (setRect j r w)).
Proof.
  intros Hwf Hj. split; [now apply wf_setWindow|]. split.
  - intros i st Hst. destruct (Z.eq_dec j i) as [->|Hne].
    + unfold setRect. cbn [store]. rewrite getWindow_setWindow_same, Hst.
      eexists. split; [reflexivity|]. cbn.
      repeat split; auto. symmetry. exact (wf_get_id _ _ _ Hwf Hst).
    + rewrite getWindow_setRect_other by exact Hne. exists st.
      repeat split; auto.
  - intros i Hi Hne. rewrite getWindow_setRect_other; [exact Hi|].
    intros ->. destruct Hj as [Hj| ->]; [now apply Hj | now apply Hne].
Qed.

Section TickFrame.
Import ResizeHandler.
Variable cfg : Config.
Variable workspace : list Z.
Variable h : ResizeHandler.t.

Let o := _resizingWindowId h.

Lemma tickFrame_place (j : Z) (r : Rect) (w : World) :
  wf (store w) -> getWindow (store w) j <> None ->
  tickFrame o (store w) (store (place j r w)).
Proof.
  intros Hwf Hj. unfold place.
  apply (tickFrame_setRect o j r (emit (Raise j) (emit (MoveResize j r) w)));
    [exact Hwf | now left].
Qed.

Lemma tickFrame_constrainBack (w : World) :
  wf (store w) -> tickFrame o (store w) (store (constrainBack h w)).
Proof.
  intros Hwf. unfold constrainBack. subst o.
  destruct (_resizingWindowId h) as [rid|];
    [destruct (_lastRect h) as [l|]|]; try now apply tickFrame_refl.
  apply (tickFrame_setRect (Some rid) rid _
           (emit (MoveResize rid (mkRect (x l) (y l) (width l) (height l))) w));
    [exact Hwf | now right].
Qed.

Lemma tickFrame_step (delta : Z) (d : Direction) (w : World)
    (nb : WindowState) :
  wf (store w) -> getWindow (store w) (id nb) <> None ->
  tickFrame o (store w) (store (adjustStep cfg workspace h delta d w nb)).
Proof.
  intros Hwf Hnb.
  assert (Hskip := tickFrame_refl o (store w) Hwf).
  assert (Hback := tickFrame_constrainBack w Hwf).
  assert (Hplace := fun r => tickFrame_place (id nb) r w Hwf Hnb).
  destruct d; cbn [adjustStep];
    unfold adjustLeft, adjustRight, adjustTop, adjustBottom;
    destruct (_getMetaWindow workspace (id nb)); cbn [negb]; auto.
  - destruct ((width (rect nb) + delta <? MIN_WINDOW_WIDTH cfg) && (delta <? 0));
      [destruct (width (rect nb) <=? MIN_WINDOW_WIDTH cfg)|]; auto.
  - destruct ((width (rect nb) - delta <? MIN_WINDOW_WIDTH cfg) && (0 <? delta));
      [destruct (width (rect nb) - MIN_WINDOW_WIDTH cfg <=? 0)|]; auto.
  - cbn [height].
    destruct (height (rect nb) + delta <? MIN_WINDOW_HEIGHT cfg); auto.
  - cbn [height].
    destruct (height (rect nb) - delta <? MIN_WINDOW_HEIGHT cfg); auto.
Qed.

Lemma tickFrame_fold (delta : Z) (d : Direction) (w0 : World)
    (l : list WindowState) :
  Forall (fun nb => getWindow (store w0) (id nb) <> None) l ->
  forall w, tickFrame o (store w0) (store w) ->
    tickFrame o (store w0)
      (store (fold_left (adjustStep cfg workspace h delta d) l w)).
Proof.
  induction 1 as [|nb l Hnb Hl IH]; intros w Hw; cbn [fold_left]; [exact Hw|].
  apply IH. apply (tickFrame_trans o _ (store w)); [exact Hw|].
  apply tickFrame_step; [exact (proj1 Hw)|].
  destruct (getWindow (store w0) (id nb)) as [st|] eqn:E; [|contradiction].
  destruct (proj1 (proj2 Hw) _ _ E) as [st' [-> _]]. discriminate.
Qed.

Lemma tickFrame_loop (b : bool) (delta : Z) (d : Direction) (w0 w : World) :
  tickFrame o (store w0) (store w) ->
  tickFrame o (store w0)
    (store (if b then adjustNeighbors cfg workspace h d delta w else w)).
Proof.
  intros Hw. destruct b; [|exact Hw].
  apply (tickFrame_trans o _ (store w)); [exact Hw|].
  assert (Hfold :
    tickFrame o (store w)
      (store (fold_left (adjustStep cfg workspace h delta d)
                (getNeighbors (store w) (_resizingWindowId h) d) w))).
  { apply tickFrame_fold; [|apply tickFrame_refl; exact (proj1 Hw)].
    apply Forall_forall. intros nb Hin.
    unfold getNeighbors in Hin.
    destruct (_resizingWindowId h) as [rid|]; [|destruct Hin].
    destruct (JSMap.get rid (_windows (store w))); [|destruct Hin].
    apply resolve_In in Hin as [k [_ Hk]].
    assert (Hid := wf_get_id (store w) k nb (proj1 Hw) Hk).
    unfold getWindow. rewrite Hid, Hk. discriminate. }
  destruct d; exact Hfold.
Qed.

End TickFrame.

(** X14: one tick of [_handleResizeUpdate] changes rectangles only.  Every
    registered window keeps its id, original rectangle, zone, tiled flag
    and neighbour lists (the lists are not refreshed before the resize
    ends), and no entry is added except possibly one for the window being
    resized; at the end of the tick the registry holds the reported
    rectangle for that window, also when a neighbour at the minimum had it
    sent back to the last rectangle, and the same rectangle is the new
    last rectangle.  A handler that is idle, or whose window id is 0, does
    nothing. *)
Theorem resize_tick_changes_rectangles_only (cfg : Config)
    (workspace : list Z) (h : ResizeHandler.t) (currentRect : Rect)
    (w : World) :
  wf (store w) ->
  let h' := fst (ResizeHandler._handleResizeUpdate cfg workspace h currentRect w) in
  let w' := snd (ResizeHandler._handleResizeUpdate cfg workspace h currentRect w) in
  rectsOnly (store w) (store w') /\
  sameKeysBut (ResizeHandler._resizingWindowId h) (store w) (store w') /\
  (forall rid l,
     ResizeHandler._resizingWindowId h = Some rid ->
     ResizeHandler._lastRect h = Some l -> rid <> 0 ->
     h' = ResizeHandler.mkHandler (Some rid) (Some currentRect)
            (ResizeHandler._resizeDirection h) /\
     option_map rect (getWindow (store w') rid) = Some currentRect) /\
  (ResizeHandler._resizingWindowId h = None \/
   ResizeHandler._lastRect h = None \/
   ResizeHandler._resizingWindowId h = Some 0 ->
   h' = h /\ w' = w).
Proof.
  intros Hwf h' w'. subst h' w'.
  assert (Hrefl := tickFrame_refl (ResizeHandler._resizingWindowId h)
                     (store w) Hwf).
  unfold ResizeHandler._handleResizeUpdate.
  destruct (ResizeHandler._resizingWindowId h) as [rid|] eqn:Erid;
    [destruct (ResizeHandler._lastRect h) as [l|] eqn:El;
     [destruct (rid =? 0) eqn:E0|]|]; cbn [fst snd].
  1, 3, 4: split; [exact (proj1 (proj2 Hrefl))|];
    (split; [exact (proj2 (proj2 Hrefl))|]);
    (split; [|auto]);
    intros rid' l' Hr Hl Hne; try discriminate;
    apply Z.eqb_eq in E0; congruence.
  apply Z.eqb_neq in E0. cbv zeta.
  match goal with
  | |- context [setRect rid currentRect ?W] =>
      assert (H4 : tickFrame (ResizeHandler._resizingWindowId h)
                     (store w) (store W))
  end.
  { apply (tickFrame_loop cfg workspace h _ _ DTop).
    apply (tickFrame_loop cfg workspace h _ _ DBottom).
    apply (tickFrame_loop cfg workspace h _ _ DLeft).
    apply (tickFrame_loop cfg workspace h _ _ DRight).
    now apply tickFrame_refl. }
  rewrite Erid in H4.
  match type of H4 with
  | tickFrame _ _ (store ?W) =>
      assert (H5 : tickFrame (Some rid) (store w)
                     (store (setRect rid currentRect W)))
  end.
  { eapply tickFrame_trans; [exact H4|].
    apply tickFrame_setRect; [exact (proj1 H4) | now right]. }
  split; [exact (proj1 (proj2 H5))|].
  split; [exact (proj2 (proj2 H5))|].
  split.
  - intros rid' l' Hr Hl Hne. injection Hr as <-. split; [reflexivity|].
    apply rect_setRect_same.
  - intros [H|[H|H]]; try discriminate. injection H as ->. contradiction.
Qed.

Lemma resize_tick_changes_rectangles_only_witness :
  rectsOnly threeWindows
    (store (snd (ResizeHandler._handleResizeUpdate CONFIG [1; 2; 3]
                   resizingEast (mkRect 8 8 650 1064)
                   (mkWorld threeWindows [])))).
Proof.
  exact (proj1 (resize_tick_changes_rectangles_only CONFIG [1; 2; 3]
                  resizingEast (mkRect 8 8 650 1064)
                  (mkWorld threeWindows []) wf_threeWindows)).
Defined.

(* ------------------------------------------------------------------ *)
(** ** Arming the resize handler *)

(** X12: [_onGrabBegin] of the resize handler either leaves the handler as
    it is, which it does exactly when the grab is no resize or the window
    is not registered as tiled, or records the window, its frame rectangle
    and the grab operation; in that case the operation moves at least one
    edge and never two opposite ones, so that a tick runs at most one
    horizontal and one vertical loop. *)
Theorem resize_grab_begin (h : ResizeHandler.t) (s : StateStore.t)
    (windowId : Z) (frame : Rect) (grabOp : ResizeHandler.GrabOp) :
  let h' := ResizeHandler._onGrabBegin h s windowId frame grabOp in
  let e := ResizeHandler._getResizeEdges grabOp in
  let tiled := match getWindow s windowId with
               | Some st => isTiled st
               | None => false
               end in
  (ResizeHandler._isResizeOp grabOp && tiled = false -> h' = h) /\
  (ResizeHandler._isResizeOp grabOp && tiled = true ->
     h' = ResizeHandler.mkHandler (Some windowId) (Some frame) grabOp /\
     ResizeHandler.e_left e || ResizeHandler.e_right e
       || ResizeHandler.e_top e || ResizeHandler.e_bottom e = true /\
     ResizeHandler.e_left e && ResizeHandler.e_right e = false /\
     ResizeHandler.e_top e && ResizeHandler.e_bottom e = false) /\
  (ResizeHandler._isResizeOp grabOp = false ->
     ResizeHandler.e_left e || ResizeHandler.e_right e
       || ResizeHandler.e_top e || ResizeHandler.e_bottom e = false).
Proof.
  unfold ResizeHandler._onGrabBegin.
  destruct (getWindow s windowId) as [st|]; [destruct (isTiled st)|];
    destruct grabOp; cbn; repeat split; intros; try discriminate; reflexivity.
Qed.

Lemma resize_grab_begin_witness :
  ResizeHandler._onGrabBegin resizingWest twoHalves 1 (mkRect 8 8 948 1064)
    ResizeHandler.RESIZING_E
  = ResizeHandler.mkHandler (Some 1) (Some (mkRect 8 8 948 1064))
      ResizeHandler.RESIZING_E.
Proof.
  exact (proj1 (proj1 (proj2 (resize_grab_begin resizingWest twoHalves 1
                                (mkRect 8 8 948 1064)
                                ResizeHandler.RESIZING_E)) eq_refl)).
Defined.

(* ------------------------------------------------------------------ *)
(** ** Swapping *)

Lemma isPointInRect_centreIn (cur r : Rect) :
  SwapDetector._isPointInRect (2 * x cur + width cur) (2 * y cur + height cur) r
  = true <-> centreIn cur r.
Proof.
  unfold SwapDetector._isPointInRect, centreIn.
  rewrite !andb_true_iff, !Z.leb_le. tauto.
Qed.

Lemma firstUnder_spec (dragged : Z) (cur : Rect) (l : list WindowState) :
  match SwapDetector.firstUnder dragged (2 * x cur + width cur)
          (2 * y cur + height cur) l with
  | Some t =>
      exists pre st post,
        l = pre ++ st :: post /\ id st = t /\ t <> dragged /\
        centreIn cur (rect st) /\
        Forall (fun o => id o = dragged \/ ~ centreIn cur (rect o)) pre
  | None => Forall (fun o => id o = dragged \/ ~ centreIn cur (rect o)) l
  end.
Proof.
  induction l as [|a l IH]; cbn [SwapDetector.firstUnder]; [constructor|].
  destruct (id a =? dragged) eqn:Eid.
  - apply Z.eqb_eq in Eid.
    destruct (SwapDetector.firstUnder dragged _ _ l) as [t|].
    + destruct IH as [pre [st [post [-> H]]]].
      exists (a :: pre), st, post. split; [reflexivity|].
      destruct H as [H1 [H2 [H3 H4]]].
      split; [exact H1|]. split; [exact H2|]. split; [exact H3|].
      constructor; [now left | exact H4].
    + constructor; [now left | exact IH].
  - apply Z.eqb_neq in Eid.
    destruct (SwapDetector._isPointInRect _ _ (rect a)) eqn:Ein.
    + apply isPointInRect_centreIn in Ein.
      exists [], a, l. split; [reflexivity|]. split; [reflexivity|].
      split; [exact Eid|]. split; [exact Ein | constructor].
    + assert (Hout : ~ centreIn cur (rect a)).
      { intros Hc. apply isPointInRect_centreIn in Hc. congruence. }
      destruct (SwapDetector.firstUnder dragged _ _ l) as [t|].
      * destruct IH as [pre [st [post [-> H]]]].
        exists (a :: pre), st, post. split; [reflexivity|].
        destruct H as [H1 [H2 [H3 H4]]].
        split; [exact H1|]. split; [exact H2|]. split; [exact H3|].
        constructor; [now right | exact H4].
      * constructor; [now right | exact IH].
Qed.

(** X15: a poll of the swap detector keeps the dragged window and the
    rectangle recorded at the start of the drag, and sets the swap target
    to the first tiled window, in registry order, other than the dragged
    one, whose rectangle contains the centre of the dragged window (edges
    included); there is no target exactly when no such window exists.  A
    detector whose dragged id is 0 is left as it is. *)
Theorem swap_target_is_first_under_centre (s : StateStore.t)
    (currentRect : Rect) (d : SwapDetector.Drag) :
  let d' := SwapDetector._checkForSwap s currentRect d in
  let D := SwapDetector._draggedWindowId d in
  (D = 0 -> d' = d) /\
  (D <> 0 ->
   SwapDetector._draggedWindowId d' = D /\
   SwapDetector._dragStartRect d' = SwapDetector._dragStartRect d /\
   match SwapDetector._potentialSwapTarget d' with
   | Some t =>
       exists pre st post,
         getTiledWindows s = pre ++ st :: post /\ id st = t /\ t <> D /\
         centreIn currentRect (rect st) /\
         Forall (fun o => id o = D \/ ~ centreIn currentRect (rect o)) pre
   | None =>
       Forall (fun o => id o = D \/ ~ centreIn currentRect (rect o))
         (getTiledWindows s)
   end).
Proof.
  cbv zeta. unfold SwapDetector._checkForSwap. split.
  - intros ->. reflexivity.
  - intros Hne. apply Z.eqb_neq in Hne. rewrite Hne.
    cbn [SwapDetector._draggedWindowId SwapDetector._dragStartRect
         SwapDetector._potentialSwapTarget].
    split; [reflexivity|]. split; [reflexivity|].
    apply firstUnder_spec.
Qed.

Lemma swap_target_is_first_under_centre_witness :
  SwapDetector._draggedWindowId
    (SwapDetector._checkForSwap twoHalves (mkRect 900 100 948 1064)
       (SwapDetector.mkDrag 1 (mkRect 8 8 948 1064) None)) = 1.
Proof.
  refine (proj1 (proj2 (swap_target_is_first_under_centre twoHalves
                          (mkRect 900 100 948 1064)
                          (SwapDetector.mkDrag 1 (mkRect 8 8 948 1064) None))
                   _)).
  discriminate.
Defined.

Lemma fields_recalc (cfg : Config) (s : StateStore.t) (i : Z) :
  option_map fields (getWindow (recalculateNeighbors cfg s) i)
  = option_map fields (getWindow s i).
Proof.
  rewrite getWindow_recalculateNeighbors.
  destruct (getWindow s i) as [st|]; cbn [option_map]; [|reflexivity].
  now destruct (isTiled st).
Qed.

Lemma keepsTiling_refl (s : StateStore.t) : keepsTiling s s.
Proof.
  split; [|auto]. intros i st Hst. exists st. auto.
Qed.

Lemma keepsTiling_trans (s1 s2 s3 : StateStore.t) :
  keepsTiling s1 s2 -> keepsTiling s2 s3 -> keepsTiling s1 s3.
Proof.
  intros [P12 N12] [P23 N23]. split.
  - intros i st Hst. destruct (P12 i st Hst) as [st2 [H2 [E1 E2]]].
    destruct (P23 i st2 H2) as [st3 [H3 [F1 F2]]].
    exists st3. repeat split; congruence.
  - intros i Hi. auto.
Qed.

Lemma keepsTiling_recalc (cfg : Config) (s : StateStore.t) :
  keepsTiling s (recalculateNeighbors cfg s).
Proof.
  split.
  - intros i st Hst. rewrite getWindow_recalculateNeighbors, Hst.
    cbn [option_map]. eexists. split; [reflexivity|].
    destruct (isTiled st) eqn:E; [|now split].
    unfold refreshed, withNeighbors. cbn. now split.
  - intros i Hi. now rewrite getWindow_recalculateNeighbors, Hi.
Qed.

Lemma keepsTiling_setWindow (s : StateStore.t) (j : Z) (p : PartialState) :
  getWindow s j <> None ->
  p_isTiled p = None -> p_originalRect p = None ->
  keepsTiling s (setWindow s j p).
Proof.
  intros Hj Ht Ho. split.
  - intros i st Hst. destruct (Z.eq_dec j i) as [->|Hne].
    + rewrite getWindow_setWindow_same, Hst, Ht, Ho.
      eexists. split; [reflexivity|]. now cbn.
    + rewrite getWindow_setWindow_other by exact Hne. exists st. auto.
  - intros i Hi. rewrite getWindow_setWindow_other; [exact Hi|].
    intros ->. contradiction.
Qed.

Lemma swap_others (cfg : Config) (env : TileManager.Env)
    (ev : SwapDetector.SwapEvent) (w : World) (i : Z) :
  i <> SwapDetector.draggedWindow ev ->
  i <> SwapDetector.targetWindowId ev ->
  option_map fields
    (getWindow (store (TileManager._onSwapDetected cfg env ev w)) i)
  = option_map fields (getWindow (store w) i).
Proof.
  intros HD HT. unfold TileManager._onSwapDetected.
  destruct (TileManager._findMetaWindow env (SwapDetector.targetWindowId ev));
    cbn [negb]; [|reflexivity].
  rewrite !store_emit. unfold TileManager.recalc. cbn [store].
  rewrite fields_recalc. f_equal.
  destruct (getWindow (store w) (SwapDetector.targetWindowId ev));
    destruct (getWindow (store w) (SwapDetector.draggedWindow ev));
    rewrite ?getWindow_setState_other by congruence; reflexivity.
Qed.

Lemma swap_fields (cfg : Config) (env : TileManager.Env) (D T : Z)
    (dtr tnr : Rect) (w : World) (dS tS : WindowState) :
  D <> T ->
  getWindow (store w) D = Some dS -> getWindow (store w) T = Some tS ->
  TileManager._findMetaWindow env T = true ->
  let w' := TileManager._onSwapDetected cfg env
              (SwapDetector.mkSwapEvent D T dtr tnr) w in
  option_map fields (getWindow (store w') D)
    = Some (D, dtr, originalRect dS, zone tS, isTiled dS) /\
  option_map fields (getWindow (store w') T)
    = Some (T, tnr, originalRect tS, zone dS, isTiled tS).
Proof.
  intros Hne HD HT Hfind. cbv zeta. unfold TileManager._onSwapDetected.
  cbn [SwapDetector.draggedWindow SwapDetector.targetWindowId
       SwapDetector.draggedTargetRect SwapDetector.targetNewRect].
  rewrite Hfind. cbn [negb]. rewrite !store_emit, HD, HT.
  cbn [option_map orDefault].
  unfold TileManager.recalc. cbn [store]. rewrite !fields_recalc.
  unfold TileManager.setState. cbn [store]. rewrite !store_emit.
  split.
  - rewrite getWindow_setWindow_other by congruence.
    rewrite getWindow_setWindow_same, HD. reflexivity.
  - rewrite getWindow_setWindow_same.
    rewrite getWindow_setWindow_other by exact Hne. rewrite HT. reflexivity.
Qed.

(** X16: what a committed swap touches.  When the target window cannot be
    found, nothing happens.  Otherwise exactly two rectangles are sent to
    the compositor, the target's for the dragged window and then the drag
    start rectangle for the target.  In both cases the registry keeps the
    same windows with their tiled flags and original rectangles, and
    windows other than the two keep everything but their neighbour lists. *)
Theorem swap_touches_two_windows (cfg : Config) (env : TileManager.Env)
    (ev : SwapDetector.SwapEvent) (w : World) :
  let D := SwapDetector.draggedWindow ev in
  let T := SwapDetector.targetWindowId ev in
  let w' := TileManager._onSwapDetected cfg env ev w in
  (TileManager._findMetaWindow env T = false -> w' = w) /\
  (TileManager._findMetaWindow env T = true ->
   calls w' = calls w ++
     [MoveResize D (SwapDetector.draggedTargetRect ev);
      MoveResize T (SwapDetector.targetNewRect ev)]) /\
  keepsTiling (store w) (store w') /\
  (forall i, i <> D -> i <> T ->
     option_map fields (getWindow (store w') i)
     = option_map fields (getWindow (store w) i)).
Proof.
  cbv zeta. unfold TileManager._onSwapDetected.
  destruct (TileManager._findMetaWindow env (SwapDetector.targetWindowId ev));
    cbn [negb]; cycle 1.
  { split; [reflexivity|]. split; [discriminate|].
    split; [apply keepsTiling_refl | reflexivity]. }
  rewrite !store_emit.
  set (D := SwapDetector.draggedWindow ev).
  set (T := SwapDetector.targetWindowId ev).
  set (w2 := emit _ (emit _ w)).
  set (w3 := match getWindow (store w) D with Some _ => _ | None => w2 end).
  set (w4 := match getWindow (store w) T with Some _ => _ | None => w3 end).
  assert (C3 : calls w3 = calls w2)
    by (subst w3; now destruct (getWindow (store w) D)).
  assert (C4 : calls w4 = calls w3)
    by (subst w4; now destruct (getWindow (store w) T)).
  assert (K3 : keepsTiling (store w) (store w3)).
  { subst w3. destruct (getWindow (store w) D) eqn:ED;
      [|apply keepsTiling_refl].
    unfold TileManager.setState. cbn [store].
    change (store w2) with (store w).
    apply keepsTiling_setWindow; [congruence | reflexivity | reflexivity]. }
  assert (K4 : keepsTiling (store w3) (store w4)).
  { subst w4. destruct (getWindow (store w) T) as [tS|] eqn:ET;
      [|apply keepsTiling_refl].
    unfold TileManager.setState. cbn [store].
    apply keepsTiling_setWindow; [|reflexivity|reflexivity].
    destruct (proj1 K3 T tS ET) as [st' [-> _]]. discriminate. }
  split; [discriminate|]. split; [|split].
  - intros _. unfold TileManager.recalc. cbn [calls].
    rewrite C4, C3. subst w2. unfold emit. cbn [calls].
    now rewrite <- app_assoc.
  - unfold TileManager.recalc. cbn [store].
    eapply keepsTiling_trans; [|apply keepsTiling_recalc].
    eapply keepsTiling_trans; [exact K3 | exact K4].
  - intros i HD HT. unfold TileManager.recalc. cbn [store].
    rewrite fields_recalc. f_equal.
    assert (E4 : getWindow (store w4) i = getWindow (store w3) i).
    { subst w4. destruct (getWindow (store w) T); [|reflexivity].
      apply getWindow_setState_other. congruence. }
    assert (E3 : getWindow (store w3) i = getWindow (store w) i).
    { subst w3. destruct (getWindow (store w) D); [|reflexivity].
      rewrite getWindow_setState_other by congruence. reflexivity. }
    congruence.
Qed.

(** X17: swapping back.  When the dragged window [D] has been swapped
    with [T], dragging [D] onto [T] once more, from the rectangle it then
    has, gives every window of the registry the id, rectangle, original
    rectangle, zone and tiled flag it had before the first swap. *)
Theorem swap_back_restores (cfg : Config) (env : TileManager.Env) (D T : Z)
    (w : World) (dS tS : WindowState) :
  wf (store w) -> D <> T ->
  getWindow (store w) D = Some dS -> getWindow (store w) T = Some tS ->
  TileManager._findMetaWindow env T = true ->
  let w1 := TileManager._onSwapDetected cfg env
              (SwapDetector.mkSwapEvent D T (rect tS) (rect dS)) w in
  exists dS1 tS1,
    getWindow (store w1) D = Some dS1 /\ getWindow (store w1) T = Some tS1 /\
    rect dS1 = rect tS /\ rect tS1 = rect dS /\
    forall i,
      option_map fields
        (getWindow
           (store (TileManager._onSwapDetected cfg env
                     (SwapDetector.mkSwapEvent D T (rect tS1) (rect dS1)) w1))
           i)
      = option_map fields (getWindow (store w) i).
Proof.
  intros Hwf Hne HD HT Hfind w1.
  destruct (swap_fields cfg env D T (rect tS) (rect dS) w dS tS
              Hne HD HT Hfind) as [FD FT].
  fold w1 in FD, FT.
  destruct (getWindow (store w1) D) as [dS1|] eqn:ED1; [|discriminate].
  destruct (getWindow (store w1) T) as [tS1|] eqn:ET1; [|discriminate].
  cbn [option_map] in FD, FT. unfold fields in FD, FT.
  injection FD as D1 D2 D3 D4 D5. injection FT as T1 T2 T3 T4 T5.
  exists dS1, tS1. split; [reflexivity|]. split; [reflexivity|].
  split; [exact D2|]. split; [exact T2|]. intros i.
  destruct (swap_fields cfg env D T (rect tS1) (rect dS1) w1 dS1 tS1
              Hne ED1 ET1 Hfind) as [GD GT].
  destruct (Z.eq_dec i D) as [->|HiD]; [|destruct (Z.eq_dec i T) as [->|HiT]].
  - rewrite GD, HD. cbn [option_map]. unfold fields.
    rewrite (wf_get_id _ _ _ Hwf HD). congruence.
  - rewrite GT, HT. cbn [option_map]. unfold fields.
    rewrite (wf_get_id _ _ _ Hwf HT). congruence.
  - rewrite swap_others by assumption.
    subst w1. now rewrite swap_others by assumption.
Qed.

Lemma swap_back_restores_witness :
  exists dS1 tS1,
    getWindow
      (store (TileManager._onSwapDetected CONFIG (desktop [1; 2])
                (SwapDetector.mkSwapEvent 1 2 (rect rightHalf) (rect leftHalf))
                (mkWorld twoHalves []))) 1 = Some dS1 /\
    getWindow
      (store (TileManager._onSwapDetected CONFIG (desktop [1; 2])
                (SwapDetector.mkSwapEvent 1 2 (rect rightHalf) (rect leftHalf))
                (mkWorld twoHalves []))) 2 = Some tS1 /\
    rect dS1 = rect rightHalf /\ rect tS1 = rect leftHalf /\
    forall i,
      option_map fields
        (getWindow
           (store (TileManager._onSwapDetected CONFIG (desktop [1; 2])
                     (SwapDetector.mkSwapEvent 1 2 (rect tS1) (rect dS1))
                     (TileManager._onSwapDetected CONFIG (desktop [1; 2])
                        (SwapDetector.mkSwapEvent 1 2 (rect rightHalf)
                           (rect leftHalf))
                        (mkWorld twoHalves []))))
           i)
      = option_map fields (getWindow twoHalves i).
Proof.
  refine (swap_back_restores CONFIG (desktop [1; 2]) 1 2
            (mkWorld twoHalves []) leftHalf rightHalf wf_twoHalves _ _ _ _).
  - discriminate.
  - reflexivity.
  - reflexivity.
  - reflexivity.
Defined.

(* ------------------------------------------------------------------ *)
(** ** Redistribution, removal and untiling *)

Lemma relaid_refl (s : StateStore.t) : relaid s s.
Proof.
  split; [|auto]. intros i st Hst. exists st. repeat split; auto.
Qed.

Lemma relaid_trans (s1 s2 s3 : StateStore.t) :
  relaid s1 s2 -> relaid s2 s3 -> relaid s1 s3.
Proof.
  intros [P12 N12] [P23 N23]. split; [|auto].
  intros i st Hst.
  destruct (P12 i st Hst) as [st2 [H2 [E1 [E2 [E3 [E4 E5]]]]]].
  destruct (P23 i st2 H2) as [st3 [H3 [F1 [F2 [F3 [F4 F5]]]]]].
  exists st3. split; [exact H3|].
  split; [congruence|]. split; [congruence|]. split; [congruence|].
  split; [congruence|]. intros Hu.
  rewrite F5 by congruence. now apply E5.
Qed.

Lemma relaid_recalc (cfg : Config) (s : StateStore.t) :
  relaid s (recalculateNeighbors cfg s).
Proof.
  split.
  - intros i st Hst. rewrite getWindow_recalculateNeighbors, Hst.
    cbn [option_map]. eexists. split; [reflexivity|].
    destruct (isTiled st) eqn:E; [|repeat split; auto].
    unfold refreshed, withNeighbors. cbn. repeat split; auto.
  - intros i Hi. now rewrite getWindow_recalculateNeighbors, Hi.
Qed.

Lemma relaid_setRect (s : StateStore.t) (j : Z) (r : Rect) (st : WindowState) :
  wf s -> getWindow s j = Some st -> isTiled st = true ->
  relaid s (setWindow s j (justRect r)).
Proof.
  intros Hwf Hj Ht. split.
  - intros i st0 Hst. destruct (Z.eq_dec j i) as [->|Hne].
    + rewrite getWindow_setWindow_same, Hst.
      eexists. split; [reflexivity|]. cbn.
      split; [symmetry; exact (wf_get_id _ _ _ Hwf Hst)|].
      repeat split; auto. intros Hu. congruence.
    + rewrite getWindow_setWindow_other by exact Hne. exists st0.
      repeat split; auto.
  - intros i Hi. rewrite getWindow_setWindow_other; [exact Hi|].
    intros ->. congruence.
Qed.

Section Redistribute.
Variable env : TileManager.Env.
Variable workArea : Rect.
Variable gap windowWidth : Z.

Lemma layoutEqual_relaid (w0 : World) (l : list WindowState) :
  Forall (fun t => exists st, getWindow (store w0) (id t) = Some st /\
                              isTiled st = true) l ->
  forall w cx,
    wf (store w) -> relaid (store w0) (store w) ->
    wf (store (fst (fold_left
                      (TileManager.layoutEqual env workArea gap windowWidth)
                      l (w, cx)))) /\
    relaid (store w0)
      (store (fst (fold_left
                     (TileManager.layoutEqual env workArea gap windowWidth)
                     l (w, cx)))).
Proof.
  induction 1 as [|t l [st [Hst Ht]] Hl IH]; intros w cx Hwf Hrel;
    cbn [fold_left]; [now split|].
  destruct (TileManager.layoutEqual env workArea gap windowWidth (w, cx) t)
    as [w1 cx1] eqn:E.
  pose proof (layoutEqual_store env workArea gap windowWidth w cx t)
    as [Hs _].
  rewrite E in Hs. cbn [fst] in Hs.
  destruct (proj1 Hrel _ _ Hst) as [st' [Hst' [_ [_ [_ [Ht' _]]]]]].
  apply IH.
  - rewrite Hs. now apply wf_setWindow.
  - apply (relaid_trans _ (store w)); [exact Hrel|].
    rewrite Hs. apply (relaid_setRect _ _ _ st'); [exact Hwf|exact Hst'|].
    congruence.
Qed.

Lemma layoutEqual_targets (l : list WindowState) :
  forall S, incl l S ->
  forall w cx, exists new,
    calls (fst (fold_left
                  (TileManager.layoutEqual env workArea gap windowWidth)
                  l (w, cx))) = calls w ++ new /\
    Forall (targets env S) new.
Proof.
  induction l as [|t l IH]; intros S Hincl w cx; cbn [fold_left].
  - exists []. split; [now rewrite app_nil_r | constructor].
  - destruct (TileManager.layoutEqual env workArea gap windowWidth (w, cx) t)
      as [w1 cx1] eqn:E.
    destruct (IH S (fun a Ha => Hincl a (or_intror Ha)) w1 cx1)
      as [new [E1 F1]].
    unfold TileManager.layoutEqual in E.
    destruct (TileManager._findMetaWindow env (id t)) eqn:Hm;
      injection E as <- <-.
    + eexists (MoveResize (id t) _ :: new). split.
      * rewrite E1. cbn [calls emit setRect]. now rewrite <- app_assoc.
      * constructor; [|exact F1].
        exists t. eexists. split; [apply Hincl; now left|]. now split.
    + exists new. split; [exact E1 | exact F1].
Qed.

End Redistribute.

Lemma tiled_present (s : StateStore.t) :
  wf s ->
  Forall (fun t => exists st, getWindow s (id t) = Some st /\
                              isTiled st = true) (getTiledWindows s).
Proof.
  intros Hwf. apply Forall_forall. intros t Ht. exists t.
  split; [apply getWindow_of_value; [exact Hwf | now apply tiled_in_all]|].
  unfold getTiledWindows in Ht. now apply filter_In in Ht.
Qed.

Lemma redistribute_relaid (cfg : Config) (env : TileManager.Env) (w : World) :
  wf (store w) ->
  wf (store (TileManager._redistributeAfterRemoval cfg env w)) /\
  relaid (store w) (store (TileManager._redistributeAfterRemoval cfg env w)).
Proof.
  intros Hwf. unfold TileManager._redistributeAfterRemoval.
  destruct (getTiledWindows (store w)) as [|first rest] eqn:ET;
    [split; [exact Hwf | apply relaid_refl]|].
  destruct (TileManager._findMetaWindow env (id first)); cbn [negb];
    [|split; [exact Hwf | apply relaid_refl]].
  pose proof (tiled_present (store w) Hwf) as Hpres. rewrite ET in Hpres.
  match goal with
  | |- context [fold_left (TileManager.layoutEqual env ?wa ?g ?ww) ?l
                  (w, ?cx)] =>
      destruct (layoutEqual_relaid env wa g ww w l Hpres w cx Hwf
                  (relaid_refl _)) as [W1 R1]
  end.
  unfold TileManager.recalc. cbn [store]. split.
  - now apply wf_recalculateNeighbors.
  - eapply relaid_trans; [exact R1 | apply relaid_recalc].
Qed.

Lemma redistribute_calls (cfg : Config) (env : TileManager.Env) (w : World) :
  exists new,
    calls (TileManager._redistributeAfterRemoval cfg env w) = calls w ++ new /\
    Forall (targets env (getTiledWindows (store w))) new.
Proof.
  unfold TileManager._redistributeAfterRemoval.
  destruct (getTiledWindows (store w)) as [|first rest] eqn:ET.
  { exists []. split; [now rewrite app_nil_r | constructor]. }
  destruct (TileManager._findMetaWindow env (id first)); cbn [negb]; cycle 1.
  { exists []. split; [now rewrite app_nil_r | constructor]. }
  unfold TileManager.recalc. cbn [calls].
  apply layoutEqual_targets, incl_refl.
Qed.

(** X18: a redistribution re-lays tiled windows and nothing else.  The
    registry keeps the same windows, each with its id, original
    rectangle, zone and tiled flag, and a window that is not tiled keeps
    its rectangle too; every call to the compositor is a rectangle for a
    tiled window that the manager can find.  With no tiled window, or when
    the first tiled window cannot be found, nothing happens at all, not
    even for the tiled windows that could be found. *)
Theorem redistribution_relays_tiled_only (cfg : Config)
    (env : TileManager.Env) (w : World) :
  wf (store w) ->
  let w' := TileManager._redistributeAfterRemoval cfg env w in
  relaid (store w) (store w') /\
  (exists new,
     calls w' = calls w ++ new /\
     Forall (targets env (getTiledWindows (store w))) new) /\
  (getTiledWindows (store w) = [] -> w' = w) /\
  (forall first rest,
     getTiledWindows (store w) = first :: rest ->
     TileManager._findMetaWindow env (id first) = false -> w' = w).
Proof.
  intros Hwf w'. subst w'.
  split; [exact (proj2 (redistribute_relaid cfg env w Hwf))|].
  split; [apply redistribute_calls|].
  unfold TileManager._redistributeAfterRemoval. split.
  - now intros ->.
  - intros first rest -> Hm. now rewrite Hm.
Qed.

Lemma redistribution_relays_tiled_only_witness :
  relaid threeEqual
    (store (TileManager._redistributeAfterRemoval CONFIG (desktop [1; 2; 3])
              (mkWorld threeEqual []))).
Proof.
  refine (proj1 (redistribution_relays_tiled_only CONFIG (desktop [1; 2; 3])
                   (mkWorld threeEqual []) _)).
  apply wf_recalculateNeighbors.
  repeat apply wf_setWindow. exact wf_empty.
Defined.

Lemma getWindow_removeWindow_same (s : StateStore.t) (i : Z) :
  getWindow (removeWindow s i) i = None.
Proof.
  unfold removeWindow. destruct (JSMap.has i (_windows s)) eqn:E.
  - unfold getWindow. cbn [_windows _notifyChange].
    unfold _removeFromNeighbors. now rewrite get_map_values, get_delete_same.
  - now apply has_get in E.
Qed.

Lemma getWindow_removeWindow_other (s : StateStore.t) (i j : Z) :
  j <> i ->
  option_map fields (getWindow (removeWindow s i) j)
  = option_map fields (getWindow s j).
Proof.
  intros Hne. unfold removeWindow.
  destruct (JSMap.has i (_windows s)); [|reflexivity].
  unfold getWindow. cbn [_windows _notifyChange].
  unfold _removeFromNeighbors.
  rewrite get_map_values, get_delete_other by congruence.
  now destruct (JSMap.get j (_windows s)).
Qed.

Lemma remove_then_redistribute (cfg : Config) (env : TileManager.Env)
    (i : Z) (w : World) (wasTiled : bool) :
  wf (store w) ->
  let w1 := mkWorld (removeWindow (store w) i) (calls w) in
  let w' := if wasTiled
            then TileManager._redistributeAfterRemoval cfg env w1 else w1 in
  getWindow (store w') i = None /\
  (forall j st, j <> i -> getWindow (store w) j = Some st ->
     exists st', getWindow (store w') j = Some st' /\
       id st' = id st /\ originalRect st' = originalRect st /\
       zone st' = zone st /\ isTiled st' = isTiled st /\
       (isTiled st = false -> rect st' = rect st)) /\
  (forall j, getWindow (store w) j = None -> getWindow (store w') j = None) /\
  exists new,
    calls w' = calls w ++ new /\
    Forall (forOtherTiled (store w) i) new /\
    (wasTiled = false -> new = []).
Proof.
  intros Hwf w1 w'.
  assert (Hwf1 : wf (store w1)) by (now apply wf_removeWindow).
  assert (Hrel : relaid (store w1) (store w')).
  { subst w'. destruct wasTiled; [|apply relaid_refl].
    exact (proj2 (redistribute_relaid cfg env w1 Hwf1)). }
  assert (Hcalls : exists new,
             calls w' = calls w ++ new /\
             Forall (targets env (getTiledWindows (store w1))) new /\
             (wasTiled = false -> new = [])).
  { subst w'. destruct wasTiled.
    - destruct (redistribute_calls cfg env w1) as [new [E F]].
      exists new. split; [exact E|]. split; [exact F | discriminate].
    - exists []. split; [now rewrite app_nil_r|]. now split. }
  split; [|split; [|split]].
  - apply (proj2 Hrel). apply getWindow_removeWindow_same.
  - intros j st Hne Hst.
    pose proof (getWindow_removeWindow_other (store w) i j Hne) as Hf.
    rewrite Hst in Hf. cbn [option_map] in Hf.
    destruct (getWindow (removeWindow (store w) i) j) as [st1|] eqn:E1;
      [|discriminate].
    cbn [option_map] in Hf. unfold fields in Hf.
    injection Hf as F1 F2 F3 F4 F5.
    destruct (proj1 Hrel j st1 E1) as [st' [H' [G1 [G2 [G3 [G4 G5]]]]]].
    exists st'. split; [exact H'|].
    split; [congruence|]. split; [congruence|]. split; [congruence|].
    split; [congruence|]. intros Hu. rewrite G5 by congruence. exact F2.
  - intros j Hj. apply (proj2 Hrel).
    destruct (Z.eq_dec j i) as [->|Hne];
      [apply getWindow_removeWindow_same|].
    pose proof (getWindow_removeWindow_other (store w) i j Hne) as Hf.
    rewrite Hj in Hf. change (store w1) with (removeWindow (store w) i).
    now destruct (getWindow (removeWindow (store w) i) j).
  - destruct Hcalls as [new [E [F N]]]. exists new.
    split; [exact E|]. split; [|exact N].
    eapply Forall_impl; [|exact F].
    intros c [t [r [Hin [_ ->]]]].
    pose proof (getWindow_of_value (store w1) t Hwf1 (tiled_in_all _ _ Hin))
      as Ht.
    assert (Hne : id t <> i).
    { intros Heq. rewrite Heq in Ht.
      change (store w1) with (removeWindow (store w) i) in Ht.
      rewrite getWindow_removeWindow_same in Ht. discriminate. }
    pose proof (getWindow_removeWindow_other (store w) i (id t) Hne) as Hf.
    change (store w1) with (removeWindow (store w) i) in Ht.
    rewrite Ht in Hf. cbn [option_map] in Hf.
    destruct (getWindow (store w) (id t)) as [st|] eqn:Est; [|discriminate].
    cbn [option_map] in Hf. unfold fields in Hf.
    injection Hf as F1 F2 F3 F4 F5.
    exists (id t), r, st. split; [reflexivity|]. split; [exact Hne|].
    split; [exact Est|].
    unfold getTiledWindows in Hin. apply filter_In in Hin as [_ Htil].
    congruence.
Qed.

(** X19: when a window goes away, [_onWindowRemoved] drops its entry;
    every other window stays registered with its id, original rectangle,
    zone and tiled flag, a window that is not tiled also with its
    rectangle, and no entry appears; the compositor is only sent rectangles
    for other windows that were registered as tiled, and nothing at all
    when the window that went away was unknown or not tiled. *)
Theorem window_removed_effects (cfg : Config) (env : TileManager.Env)
    (windowId : Z) (w : World) :
  wf (store w) ->
  let w' := TileManager._onWindowRemoved cfg env windowId w in
  getWindow (store w') windowId = None /\
  (forall j st, j <> windowId -> getWindow (store w) j = Some st ->
     exists st', getWindow (store w') j = Some st' /\
       id st' = id st /\ originalRect st' = originalRect st /\
       zone st' = zone st /\ isTiled st' = isTiled st /\
       (isTiled st = false -> rect st' = rect st)) /\
  (forall j, getWindow (store w) j = None -> getWindow (store w') j = None) /\
  (exists new,
     calls w' = calls w ++ new /\
     Forall (forOtherTiled (store w) windowId) new) /\
  ((forall st, getWindow (store w) windowId = Some st -> isTiled st = false) ->
   calls w' = calls w).
Proof.
  intros Hwf w'. subst w'. unfold TileManager._onWindowRemoved.
  set (wasTiled := match getWindow (store w) windowId with
                   | Some st => isTiled st
                   | None => false
                   end).
  destruct (remove_then_redistribute cfg env windowId w wasTiled Hwf)
    as [H1 [H2 [H3 [new [E [F N]]]]]].
  split; [exact H1|]. split; [exact H2|]. split; [exact H3|].
  split; [exists new; now split|].
  intros Hun. rewrite E, N; [apply app_nil_r|].
  subst wasTiled. destruct (getWindow (store w) windowId) as [st|];
    [now apply Hun | reflexivity].
Qed.

Lemma window_removed_effects_witness :
  getWindow
    (store (TileManager._onWindowRemoved CONFIG (desktop [1; 3]) 2
              (mkWorld threeEqual []))) 2 = None.
Proof.
  refine (proj1 (window_removed_effects CONFIG (desktop [1; 3]) 2
                   (mkWorld threeEqual []) _)).
  apply wf_recalculateNeighbors.
  repeat apply wf_setWindow. exact wf_empty.
Defined.

(** X20: snapping and untiling.  [_onSnapDetected] registers the window
    as tiled at the rectangle of the zone, with the frame rectangle it had
    as original rectangle, and sends that one rectangle to the compositor.
    [untileWindow] then does nothing when the window cannot be found;
    otherwise it first sends the window back to exactly that frame
    rectangle, drops it from the registry, and afterwards only sends
    rectangles to other windows, which all stay registered with their
    original rectangle, zone and tiled flag. *)
Theorem snap_then_untile (cfg : Config) (env : TileManager.Env)
    (window : Z) (zone0 : string) (w : World) :
  wf (store w) ->
  let target :=
    LayoutEngine.calculateSnapRect cfg zone0 (TileManager.workAreaOf env window) in
  let frame := TileManager.frameRect env window in
  let w1 := TileManager._onSnapDetected cfg env window zone0 w in
  let w2 := TileManager.untileWindow cfg env window w1 in
  option_map fields (getWindow (store w1) window)
    = Some (window, target, Some frame, zone0, true) /\
  calls w1 = calls w ++ [MoveResize window target] /\
  (TileManager._findMetaWindow env window = false -> w2 = w1) /\
  (TileManager._findMetaWindow env window = true ->
   getWindow (store w2) window = None /\
   (exists rest,
      calls w2 = calls w1 ++ MoveResize window frame :: rest /\
      Forall (fun c => exists j r, c = MoveResize j r /\ j <> window) rest) /\
   (forall j st, j <> window -> getWindow (store w) j = Some st ->
      exists st', getWindow (store w2) j = Some st' /\
        originalRect st' = originalRect st /\ zone st' = zone st /\
        isTiled st' = isTiled st)).
Proof.
  intros Hwf target frame w1 w2.
  assert (Hwf1 : wf (store w1)).
  { subst w1. unfold TileManager._onSnapDetected, TileManager.recalc.
    cbn [store]. apply wf_recalculateNeighbors.
    rewrite store_emit. unfold TileManager.setState. cbn [store].
    now apply wf_setWindow. }
  assert (F1 : option_map fields (getWindow (store w1) window)
               = Some (window, target, Some frame, zone0, true)).
  { subst w1. unfold TileManager._onSnapDetected, TileManager.recalc.
    cbn [store]. rewrite fields_recalc, store_emit.
    unfold TileManager.setState. cbn [store].
    now rewrite getWindow_setWindow_same. }
  assert (O1 : forall j, j <> window ->
                 option_map fields (getWindow (store w1) j)
                 = option_map fields (getWindow (store w) j)).
  { intros j Hne. subst w1.
    unfold TileManager._onSnapDetected, TileManager.recalc.
    cbn [store]. rewrite fields_recalc, store_emit.
    unfold TileManager.setState. cbn [store].
    now rewrite getWindow_setWindow_other by congruence. }
  split; [exact F1|]. split; [reflexivity|].
  destruct (getWindow (store w1) window) as [st1|] eqn:E1; [|discriminate].
  cbn [option_map] in F1. unfold fields in F1.
  injection F1 as A1 A2 A3 A4 A5.
  subst w2. unfold TileManager.untileWindow. rewrite E1, A3.
  split.
  - intros ->. reflexivity.
  - intros ->. cbn [negb].
    set (w1e := emit (MoveResize window frame) w1).
    destruct (remove_then_redistribute cfg env window w1e true Hwf1)
      as [H1 [H2 [_ [new [E [F _]]]]]].
    cbv zeta in H1, H2, E. split; [exact H1|]. split.
    + exists new. split.
      * rewrite E. unfold w1e, emit. cbn [calls].
        now rewrite <- app_assoc.
      * eapply Forall_impl; [|exact F].
        intros c [j [r [st [-> [Hne _]]]]]. now exists j, r.
    + intros j st Hne Hst.
      pose proof (O1 j Hne) as Hf. rewrite Hst in Hf.
      destruct (getWindow (store w1) j) as [stj|] eqn:Ej; [|discriminate].
      cbn [option_map] in Hf. unfold fields in Hf.
      injection Hf as B1 B2 B3 B4 B5.
      destruct (H2 j stj Hne Ej) as [st' [H' [G1 [G2 [G3 [G4 _]]]]]].
      exists st'. split; [exact H'|]. repeat split; congruence.
Qed.

Lemma snap_then_untile_witness :
  option_map fields
    (getWindow
       (store (TileManager._onSnapDetected CONFIG (desktop [1; 2; 3]) 3 "top"
                 (mkWorld twoHalves []))) 3)
  = Some (3, LayoutEngine.calculateSnapRect CONFIG "top" screen,
          Some (mkRect 50 50 800 600), "top"%string, true).
Proof.
  exact (proj1 (snap_then_untile CONFIG (desktop [1; 2; 3]) 3 "top"
                  (mkWorld twoHalves []) wf_twoHalves)).
Defined.

(* ------------------------------------------------------------------ *)
(** ** Auto-tiling *)

Lemma layoutEqual_end (env : TileManager.Env) (workArea : Rect)
    (gap windowWidth : Z) (l : list WindowState) :
  forall w cx,
    snd (fold_left (TileManager.layoutEqual env workArea gap windowWidth)
           l (w, cx))
    = cx + Z.of_nat (List.length l) * (windowWidth + gap).
Proof.
  induction l as [|t l IH]; intros w cx; cbn [fold_left].
  - cbn. lia.
  - destruct (TileManager.layoutEqual env workArea gap windowWidth (w, cx) t)
      as [w1 cx1] eqn:E.
    pose proof (layoutEqual_store env workArea gap windowWidth w cx t)
      as [_ Hx].
    rewrite E in Hx. cbn [snd] in Hx. rewrite IH, Hx.
    cbn [List.length]. lia.
Qed.

(** X21: auto-tiling a window that is not registered yet.  With no tiled
    window it is maximized; otherwise the tiled windows keep their registry
    order and take the first slots of an equal division of the work area
    into one more slot than there were tiled windows, and the new window
    takes the last one, which ends at the right margin or fewer pixels
    short of it than there are windows.  In both cases the new window is
    registered as tiled, with the frame rectangle it had as original
    rectangle. *)
Theorem auto_tile_appends (cfg : Config) (env : TileManager.Env)
    (window : Z) (w : World) :
  wf (store w) ->
  getWindow (store w) window = None ->
  let T := getTiledWindows (store w) in
  let n := Z.of_nat (List.length T) in
  let workArea := TileManager.workAreaOf env window in
  let g := INNER_GAP cfg in
  let ww := (width workArea - g * (n + 1 + 1)) / (n + 1) in
  let last := slotAt workArea g ww (x workArea + g + n * (ww + g)) in
  let w' := TileManager._autoTileWindow cfg env window w in
  (T = [] ->
   option_map fields (getWindow (store w') window)
   = Some (window, getMaximizedRect workArea g,
           Some (TileManager.frameRect env window), "maximize"%string, true)) /\
  (T <> [] ->
   option_map fields (getWindow (store w') window)
   = Some (window, last, Some (TileManager.frameRect env window),
           "auto"%string, true) /\
   (forall k t, nth_error T k = Some t ->
      option_map rect (getWindow (store w') (id t))
      = Some (slotAt workArea g ww (x workArea + g + Z.of_nat k * (ww + g)))) /\
   x workArea + width workArea - g - (n + 1) < getRightEdge last
     <= x workArea + width workArea - g).
Proof.
  intros Hwf Hnew. cbv zeta. split.
  - intros HT. unfold TileManager._autoTileWindow, TileManager.recalc.
    rewrite HT. cbn [store].
    rewrite fields_recalc, store_emit.
    unfold TileManager.setState. cbn [store].
    rewrite getWindow_setWindow_same. reflexivity.
  - intros Hne.
    assert (Hrow : TileManager._autoTileWindow cfg env window w
                   = TileManager.recalc cfg
                       (TileManager._redistributeWindows cfg env window w)).
    { unfold TileManager._autoTileWindow.
      destruct (getTiledWindows (store w)); [contradiction | reflexivity]. }
    rewrite Hrow. clear Hrow Hne.
    unfold TileManager.recalc, TileManager._redistributeWindows.
    cbn [store].
    set (T := getTiledWindows (store w)).
    set (n := Z.of_nat (List.length T)).
    set (workArea := TileManager.workAreaOf env window).
    set (g := INNER_GAP cfg).
    set (ww := (width workArea - g * (n + 1 + 1)) / (n + 1)).
    destruct (fold_left (TileManager.layoutEqual env workArea g ww) T
                (w, x workArea + g)) as [w1 cx] eqn:E.
    assert (Hcx : cx = x workArea + g + n * (ww + g)).
    { pose proof (layoutEqual_end env workArea g ww T w (x workArea + g))
        as H.
      rewrite E in H. exact H. }
    rewrite store_emit. unfold TileManager.setState. cbn [store].
    split; [|split].
    + rewrite fields_recalc, getWindow_setWindow_same. subst cx.
      reflexivity.
    + intros k t Hk. rewrite rect_recalc.
      assert (Hin : In t T) by (eapply nth_error_In; exact Hk).
      assert (Hid : window <> id t).
      { intros Heq.
        pose proof (getWindow_of_value (store w) t Hwf
                      (tiled_in_all _ _ Hin)) as Ht.
        rewrite <- Heq in Ht. congruence. }
      rewrite getWindow_setWindow_other by exact Hid.
      pose proof (layoutEqual_slots env workArea g ww T w (x workArea + g)
                    k t (NoDup_tiled_ids (store w) Hwf) Hk) as Hs.
      rewrite E in Hs. exact Hs.
    + unfold slotAt, getRightEdge. cbn [x width].
      assert (Hn : 0 < n + 1) by lia.
      pose proof (Z.mul_div_le (width workArea - g * (n + 1 + 1)) (n + 1) Hn).
      pose proof (Z.mul_succ_div_gt (width workArea - g * (n + 1 + 1))
                    (n + 1) Hn).
      fold ww in H, H0. nia.
Qed.

Lemma auto_tile_appends_witness :
  option_map fields
    (getWindow
       (store (TileManager._autoTileWindow CONFIG (desktop [1; 2; 3]) 3
                 (mkWorld twoHalves []))) 3)
  = Some (3, slotAt screen 8 ((1920 - 8 * (2 + 1 + 1)) / (2 + 1))
               (0 + 8 + 2 * ((1920 - 8 * (2 + 1 + 1)) / (2 + 1) + 8)),
          Some (mkRect 50 50 800 600), "auto"%string, true).
Proof.
  refine (proj1 (proj2 (auto_tile_appends CONFIG (desktop [1; 2; 3]) 3
                          (mkWorld twoHalves []) wf_twoHalves _) _)).
  - reflexivity.
  - discriminate.
Defined.

(* ------------------------------------------------------------------ *)
(** ** Gaps *)

Lemma In_insertBy {A : Type} (key : A -> Z) (a b : A) (l : list A) :
  In b (TileManager.insertBy key a l) <-> b = a \/ In b l.
Proof.
  induction l as [|h t IH]; cbn [TileManager.insertBy].
  - cbn. intuition.
  - destruct (key a <=? key h); cbn [In]; [intuition|].
    rewrite IH. intuition.
Qed.

Lemma In_sortBy {A : Type} (key : A -> Z) (b : A) (l : list A) :
  In b (TileManager.sortBy key l) <-> In b l.
Proof.
  unfold TileManager.sortBy. induction l as [|a l IH]; cbn [fold_right].
  - reflexivity.
  - rewrite In_insertBy, IH. cbn. intuition.
Qed.

Lemma zoneBetween_spec (cfg : Config) (workArea : Rect) (cursorX a b : Z)
    (z : GapDetector.GapZone) :
  GapDetector.zoneBetween cfg workArea cursorX a b = Some z ->
  z = GapDetector.mkGapZone
        (mkRect a (y workArea + INNER_GAP cfg) (b - a)
           (height workArea - INNER_GAP cfg * 2)) "horizontal" /\
  MIN_WINDOW_WIDTH cfg <= b - a /\ a <= cursorX <= b.
Proof.
  unfold GapDetector.zoneBetween.
  destruct (MIN_WINDOW_WIDTH cfg <=? b - a) eqn:E1; [|discriminate].
  destruct ((a <=? cursorX) && (cursorX <=? b)) eqn:E2; [|discriminate].
  intros H. injection H as <-.
  apply Z.leb_le in E1. apply andb_true_iff in E2 as [E2 E3].
  apply Z.leb_le in E2. apply Z.leb_le in E3. auto.
Qed.

Lemma gapsBetween_spec (cfg : Config) (workArea : Rect) (cursorX : Z)
    (l : list WindowState) (z : GapDetector.GapZone) :
  GapDetector.gapsBetween cfg workArea cursorX l = Some z ->
  exists leftWin rightWin,
    In leftWin l /\ In rightWin l /\
    GapDetector.zoneBetween cfg workArea cursorX
      (x (rect leftWin) + width (rect leftWin) + INNER_GAP cfg)
      (x (rect rightWin) - INNER_GAP cfg) = Some z.
Proof.
  induction l as [|a l IH]; [discriminate|].
  destruct l as [|b l']; [discriminate|].
  cbn [GapDetector.gapsBetween].
  destruct (GapDetector.zoneBetween cfg workArea cursorX
              (x (rect a) + width (rect a) + INNER_GAP cfg)
              (x (rect b) - INNER_GAP cfg)) as [z0|] eqn:E.
  - intros H. injection H as <-. exists a, b.
    split; [now left|]. split; [right; now left | exact E].
  - intros H. destruct (IH H) as [lw [rw [H1 [H2 H3]]]].
    exists lw, rw. split; [now right|]. split; [now right | exact H3].
Qed.

Lemma last_In {A : Type} (l : list A) (a d : A) : In (last (a :: l) d) (a :: l).
Proof.
  revert a. induction l as [|b l IH]; intros a; [now left|].
  right. apply (IH b).
Qed.

(** X22: a zone reported by the gap detector is sound.  The cursor is on a
    monitor and outside the edge zones; the zone is a horizontal one, at
    least [MIN_WINDOW_WIDTH] wide, spans the cursor's x position and the
    height of the work area less the gap at top and bottom; it starts one
    gap inside the work area or one gap right of a tiled window, and ends
    one gap inside the work area or one gap left of a tiled window; and no
    tiled window of the workspace, the dragged one apart, contains the
    cursor. *)
Theorem gap_zone_sound (cfg : Config) (monitor : option Rect)
    (workspace : list Z) (dragged : option Z) (s : StateStore.t)
    (cursorX cursorY : Z) (zone0 : GapDetector.GapZone) :
  GapDetector._checkForGap cfg monitor workspace dragged s cursorX cursorY
  = Some zone0 ->
  let r := GapDetector.g_rect zone0 in
  let g := INNER_GAP cfg in
  exists workArea,
    monitor = Some workArea /\
    SwapDetector._isInEdgeZone cfg monitor cursorX cursorY = false /\
    GapDetector.orientation zone0 = "horizontal"%string /\
    MIN_WINDOW_WIDTH cfg <= width r /\
    x r <= cursorX <= x r + width r /\
    y r = y workArea + g /\ height r = height workArea - g * 2 /\
    (x r = x workArea + g \/
     exists t, gapCandidate workspace dragged s t /\
               x r = getRightEdge (rect t) + g) /\
    (getRightEdge r = x workArea + width workArea - g \/
     exists t, gapCandidate workspace dragged s t /\
               getRightEdge r = x (rect t) - g) /\
    (forall t, gapCandidate workspace dragged s t ->
       GapDetector.cursorInside cursorX cursorY t = false).
Proof.
  unfold GapDetector._checkForGap.
  destruct (SwapDetector._isInEdgeZone cfg monitor cursorX cursorY) eqn:Eedge;
    [discriminate|].
  set (cand := filter _ (getTiledWindows s)).
  assert (Hcand : forall t, In t cand <-> gapCandidate workspace dragged s t).
  { intros t. unfold cand, gapCandidate. rewrite filter_In, andb_true_iff.
    split.
    - intros [H1 [H2 H3]]. split; [exact H1|]. split; [exact H2|].
      destruct dragged as [d|]; [|discriminate].
      intros Heq. injection Heq as ->. rewrite Z.eqb_refl in H3.
      discriminate.
    - intros [H1 [H2 H3]]. split; [exact H1|]. split; [exact H2|].
      destruct dragged as [d|]; [|reflexivity].
      apply negb_true_iff, Z.eqb_neq. congruence. }
  destruct cand as [|c0 cand0] eqn:Ecand; [discriminate|].
  rewrite <- Ecand in *. clear Ecand c0 cand0.
  unfold GapDetector._findGapAtCursor.
  destruct monitor as [workArea|]; [|discriminate].
  unfold GapDetector.findGap.
  set (sorted := TileManager.sortBy (fun st => x (rect st)) cand).
  assert (Hsorted : forall t, In t sorted -> gapCandidate workspace dragged s t).
  { intros t Ht. apply Hcand. now apply In_sortBy in Ht. }
  destruct (existsb (GapDetector.cursorInside cursorX cursorY) sorted)
    eqn:Eins; [discriminate|].
  assert (Hout : forall t, gapCandidate workspace dragged s t ->
                   GapDetector.cursorInside cursorX cursorY t = false).
  { intros t Ht. apply Hcand in Ht.
    apply (In_sortBy (fun st => x (rect st))) in Ht. fold sorted in Ht.
    destruct (GapDetector.cursorInside cursorX cursorY t) eqn:Et;
      [|reflexivity].
    assert (existsb (GapDetector.cursorInside cursorX cursorY) sorted = true)
      by (apply existsb_exists; now exists t).
    congruence. }
  destruct sorted as [|firstWindow more] eqn:Es; [discriminate|].
  rewrite <- Es in *.
  assert (Hfirst : In firstWindow sorted) by (rewrite Es; now left).
  assert (Hlast : In (last sorted firstWindow) sorted)
    by (rewrite Es; apply last_In).
  intros Hz. exists workArea.
  set (r := GapDetector.g_rect zone0). set (g := INNER_GAP cfg).
  split; [reflexivity|]. split; [reflexivity|].
  assert (Hgen : forall a b,
            GapDetector.zoneBetween cfg workArea cursorX a b = Some zone0 ->
            GapDetector.orientation zone0 = "horizontal"%string /\
            MIN_WINDOW_WIDTH cfg <= width r /\
            x r <= cursorX <= x r + width r /\
            y r = y workArea + g /\ height r = height workArea - g * 2 /\
            x r = a /\ getRightEdge r = b).
  { intros a b Hab. apply zoneBetween_spec in Hab as [-> [H1 H2]].
    subst r. unfold getRightEdge.
    cbn [GapDetector.g_rect GapDetector.orientation x y width height].
    repeat split; try reflexivity; lia. }
  destruct (GapDetector.zoneBetween cfg workArea cursorX
              (x workArea + INNER_GAP cfg)
              (x (rect firstWindow) - INNER_GAP cfg)) as [z1|] eqn:E1.
  { injection Hz as ->.
    destruct (Hgen _ _ E1) as [G1 [G2 [G3 [G4 [G5 [G6 G7]]]]]].
    repeat (split; [assumption|]). split; [now left|].
    split; [|exact Hout]. right. exists firstWindow. split; auto. }
  destruct (GapDetector.gapsBetween cfg workArea cursorX sorted) as [z2|] eqn:E2.
  { injection Hz as ->.
    apply gapsBetween_spec in E2 as [lw [rw [Hl [Hr E2]]]].
    destruct (Hgen _ _ E2) as [G1 [G2 [G3 [G4 [G5 [G6 G7]]]]]].
    repeat (split; [assumption|]). split; [|split; [|exact Hout]].
    - right. exists lw. split; [auto|]. exact G6.
    - right. exists rw. split; auto. }
  destruct (Hgen _ _ Hz) as [G1 [G2 [G3 [G4 [G5 [G6 G7]]]]]].
  repeat (split; [assumption|]). split; [|split; [|exact Hout]].
  - right. exists (last sorted firstWindow). split; [auto|]. exact G6.
  - now left.
Qed.

Lemma gap_zone_sound_witness :
  exists workArea,
    Some screen = Some workArea /\
    SwapDetector._isInEdgeZone CONFIG (Some screen) 1200 500 = false /\
    GapDetector.orientation
      (GapDetector.mkGapZone (mkRect 964 8 948 1064) "horizontal")
    = "horizontal"%string /\
    200 <= 948 /\ 964 <= 1200 <= 964 + 948 /\
    8 = y workArea + 8 /\ 1064 = height workArea - 8 * 2 /\
    (964 = x workArea + 8 \/
     exists t, gapCandidate [1; 2] (Some 2) twoHalves t /\
               964 = getRightEdge (rect t) + 8) /\
    (964 + 948 = x workArea + width workArea - 8 \/
     exists t, gapCandidate [1; 2] (Some 2) twoHalves t /\
               964 + 948 = x (rect t) - 8) /\
    (forall t, gapCandidate [1; 2] (Some 2) twoHalves t ->
       GapDetector.cursorInside 1200 500 t = false).
Proof.
  exact (gap_zone_sound CONFIG (Some screen) [1; 2] (Some 2) twoHalves
           1200 500
           (GapDetector.mkGapZone (mkRect 964 8 948 1064) "horizontal")
           eq_refl).
Defined.

(* ------------------------------------------------------------------ *)
(** ** Insert zones *)

Section InsertZone.
Variable cfg : Config.
Variable workArea : Rect.
Variable dragged : option Z.
Variable cursorX : Z.
Variable tiledWindows : list WindowState.

Lemma isDragged_false (st : WindowState) :
  InsertDetector.isDragged dragged st = false <-> dragged <> Some (id st).
Proof.
  unfold InsertDetector.isDragged. destruct dragged as [d|].
  - rewrite Z.eqb_neq. split; congruence.
  - split; [discriminate | reflexivity].
Qed.

Lemma neighbours_boundary (win : WindowState) (boundary : Z)
    (near : Rect -> Z) :
  In win tiledWindows -> dragged <> Some (id win) ->
  let others :=
    filter (fun o => negb (InsertDetector.isDragged dragged o)
                     && negb (id o =? id win)
                     && (Z.abs (near (rect o) - boundary) <? INNER_GAP cfg * 2))
      tiledWindows in
  Nat.eqb (List.length others) 0 = false ->
  boundaryOf cfg dragged tiledWindows win others boundary near.
Proof.
  intros Hin Hd others Hlen. split; [|split; [exact Hin|split; [exact Hd|]]].
  - intros E. rewrite E in Hlen. discriminate.
  - intros o Ho. unfold others in Ho. apply filter_In in Ho as [Ho Hc].
    apply andb_true_iff in Hc as [Hc H3].
    apply andb_true_iff in Hc as [H1 H2].
    apply negb_true_iff in H1, H2.
    split; [exact Ho|]. split; [now apply isDragged_false|].
    split; [now apply Z.eqb_neq | now apply Z.ltb_lt].
Qed.

Lemma scan_spec (todo : list WindowState) (z : InsertDetector.InsertZone) :
  incl todo tiledWindows ->
  InsertDetector.scan cfg workArea dragged cursorX tiledWindows todo = Some z ->
  InsertDetector.orientation z = "vertical"%string /\
  Z.abs (cursorX - InsertDetector.position z)
    < InsertDetector.boundaryThreshold /\
  width (InsertDetector.insertRect z) = 200 /\
  y (InsertDetector.insertRect z) = y workArea + OUTER_GAP cfg /\
  height (InsertDetector.insertRect z) = height workArea - OUTER_GAP cfg * 2 /\
  exists win others,
    InsertDetector.affectedWindowIds z = id win :: map id others /\
    ((InsertDetector.position z = getRightEdge (rect win) /\
      x (InsertDetector.insertRect z) = InsertDetector.position z /\
      boundaryOf cfg dragged tiledWindows win others
        (InsertDetector.position z) x) \/
     (InsertDetector.position z = x (rect win) /\
      x (InsertDetector.insertRect z) = InsertDetector.position z - 100 /\
      boundaryOf cfg dragged tiledWindows win others
        (InsertDetector.position z) getRightEdge)).
Proof.
  induction todo as [|win rest IH]; intros Hincl; [discriminate|].
  cbn [InsertDetector.scan].
  assert (Hrest : incl rest tiledWindows)
    by (intros a Ha; apply Hincl; now right).
  assert (Hwin : In win tiledWindows) by (apply Hincl; now left).
  destruct (InsertDetector.isDragged dragged win) eqn:Ed; [now apply IH|].
  apply isDragged_false in Ed.
  destruct ((Z.abs (cursorX - (x (rect win) + width (rect win)))
             <? InsertDetector.boundaryThreshold)
            && negb (Nat.eqb
                       (List.length
                          (InsertDetector.rightNeighborsOf cfg dragged
                             tiledWindows win
                             (x (rect win) + width (rect win)))) 0))
    eqn:Er.
  { intros H. injection H as <-.
    apply andb_true_iff in Er as [Hnear Hlen].
    apply Z.ltb_lt in Hnear. apply negb_true_iff in Hlen.
    cbn [InsertDetector.orientation InsertDetector.position
         InsertDetector.insertRect InsertDetector.affectedWindowIds
         x y width height].
    repeat (split; [first [reflexivity | exact Hnear]|]).
    exists win. eexists. split; [reflexivity|]. left.
    split; [reflexivity|]. split; [reflexivity|].
    exact (neighbours_boundary win _ x Hwin Ed Hlen). }
  destruct ((Z.abs (cursorX - x (rect win))
             <? InsertDetector.boundaryThreshold)
            && negb (Nat.eqb
                       (List.length
                          (InsertDetector.leftNeighborsOf cfg dragged
                             tiledWindows win (x (rect win)))) 0))
    eqn:El; [|now apply IH].
  intros H. injection H as <-.
  apply andb_true_iff in El as [Hnear Hlen].
  apply Z.ltb_lt in Hnear. apply negb_true_iff in Hlen.
  cbn [InsertDetector.orientation InsertDetector.position
       InsertDetector.insertRect InsertDetector.affectedWindowIds
       x y width height].
  repeat (split; [first [reflexivity | exact Hnear]|]).
  exists win. eexists. split; [reflexivity|]. right.
  split; [reflexivity|]. split; [reflexivity|].
  exact (neighbours_boundary win _ getRightEdge Hwin Ed Hlen).
Qed.

End InsertZone.

(** X24: a zone reported by the insert detector is sound.  The cursor is
    outside the edge zones and less than the boundary threshold away from
    the reported position, which is the right or the left edge of a tiled
    window that is not being dragged; the affected windows are that window
    followed by at least one other tiled window, none of them the dragged
    one, whose facing edge is less than two gaps away from the position;
    the preview is 200 wide, starts at the position for a right edge and
    100 to the left of it for a left edge, and spans the height of the work
    area less the outer gap at top and bottom. *)
Theorem insert_zone_sound (cfg : Config) (monitor : option Rect)
    (workArea : Rect) (dragged : option Z) (s : StateStore.t)
    (cursorX cursorY : Z) (z : InsertDetector.InsertZone) :
  InsertDetector._checkForInsertZone cfg monitor workArea dragged s
    cursorX cursorY = Some z ->
  SwapDetector._isInEdgeZone cfg monitor cursorX cursorY = false /\
  InsertDetector.orientation z = "vertical"%string /\
  Z.abs (cursorX - InsertDetector.position z)
    < InsertDetector.boundaryThreshold /\
  width (InsertDetector.insertRect z) = 200 /\
  y (InsertDetector.insertRect z) = y workArea + OUTER_GAP cfg /\
  height (InsertDetector.insertRect z) = height workArea - OUTER_GAP cfg * 2 /\
  exists win others,
    InsertDetector.affectedWindowIds z = id win :: map id others /\
    ((InsertDetector.position z = getRightEdge (rect win) /\
      x (InsertDetector.insertRect z) = InsertDetector.position z /\
      boundaryOf cfg dragged (getTiledWindows s) win others
        (InsertDetector.position z) x) \/
     (InsertDetector.position z = x (rect win) /\
      x (InsertDetector.insertRect z) = InsertDetector.position z - 100 /\
      boundaryOf cfg dragged (getTiledWindows s) win others
        (InsertDetector.position z) getRightEdge)).
Proof.
  unfold InsertDetector._checkForInsertZone.
  destruct (getTiledWindows s) as [|t0 T0] eqn:ET; [discriminate|].
  rewrite <- ET. clear ET t0 T0.
  destruct (SwapDetector._isInEdgeZone cfg monitor cursorX cursorY);
    [discriminate|].
  intros H. split; [reflexivity|].
  unfold InsertDetector._findInsertZone in H.
  exact (scan_spec cfg workArea dragged cursorX (getTiledWindows s)
           (getTiledWindows s) z (incl_refl _) H).
Qed.

Lemma insert_zone_sound_witness :
  SwapDetector._isInEdgeZone CONFIG (Some screen) 960 500 = false /\
  InsertDetector.orientation
    (InsertDetector.mkInsertZone "vertical" 956 [1; 2]
       (mkRect 956 8 200 1064)) = "vertical"%string.
Proof.
  pose proof (insert_zone_sound CONFIG (Some screen) screen None twoHalves
                960 500
                (InsertDetector.mkInsertZone "vertical" 956 [1; 2]
                   (mkRect 956 8 200 1064)) eq_refl) as H.
  exact (conj (proj1 H) (proj1 (proj2 H))).
Defined.

(* ------------------------------------------------------------------ *)
(** ** Filling a gap *)

(** X23: filling a gap and untiling.  [_onGapFillDetected] sends the gap
    rectangle to the compositor and registers the window as tiled there,
    zone "gap-fill"; every other window keeps everything but its neighbour
    lists.  The original rectangle it records is the frame rectangle read
    after the move, so that [untileWindow], when it can find the window,
    sends it to that rectangle, not to where it was before the drag, and
    drops it from the registry. *)
Theorem gap_fill_then_untile (cfg : Config) (env : TileManager.Env)
    (window : Z) (gapRect framed : Rect) (w : World) :
  wf (store w) ->
  let w1 := TileManager._onGapFillDetected cfg window gapRect framed w in
  let w2 := TileManager.untileWindow cfg env window w1 in
  option_map fields (getWindow (store w1) window)
    = Some (window, gapRect, Some framed, "gap-fill"%string, true) /\
  calls w1 = calls w ++ [MoveResize window gapRect] /\
  (forall j, j <> window ->
     option_map fields (getWindow (store w1) j)
     = option_map fields (getWindow (store w) j)) /\
  (TileManager._findMetaWindow env window = true ->
   getWindow (store w2) window = None /\
   exists rest,
     calls w2 = calls w1 ++ MoveResize window framed :: rest /\
     Forall (fun c => exists j r, c = MoveResize j r /\ j <> window) rest).
Proof.
  intros Hwf w1 w2.
  assert (Hwf1 : wf (store w1)).
  { subst w1. unfold TileManager._onGapFillDetected, TileManager.recalc.
    cbn [store]. apply wf_recalculateNeighbors.
    unfold TileManager.setState. cbn [store]. rewrite store_emit.
    now apply wf_setWindow. }
  assert (F1 : option_map fields (getWindow (store w1) window)
               = Some (window, gapRect, Some framed, "gap-fill"%string, true)).
  { subst w1. unfold TileManager._onGapFillDetected, TileManager.recalc.
    cbn [store]. rewrite fields_recalc.
    unfold TileManager.setState. cbn [store]. rewrite store_emit.
    now rewrite getWindow_setWindow_same. }
  split; [exact F1|]. split; [reflexivity|]. split.
  - intros j Hne. subst w1.
    unfold TileManager._onGapFillDetected, TileManager.recalc.
    cbn [store]. rewrite fields_recalc.
    unfold TileManager.setState. cbn [store]. rewrite store_emit.
    now rewrite getWindow_setWindow_other by congruence.
  - destruct (getWindow (store w1) window) as [st1|] eqn:E1; [|discriminate].
    cbn [option_map] in F1. unfold fields in F1.
    injection F1 as A1 A2 A3 A4 A5.
    subst w2. unfold TileManager.untileWindow. rewrite E1, A3.
    intros ->. cbn [negb].
    destruct (remove_then_redistribute cfg env window
                (emit (MoveResize window framed) w1) true Hwf1)
      as [H1 [_ [_ [new [E [F _]]]]]].
    cbv zeta in H1, E. split; [exact H1|].
    exists new. split.
    + rewrite E. unfold emit. cbn [calls]. now rewrite <- app_assoc.
    + eapply Forall_impl; [|exact F].
      intros c [j [r [st [-> [Hne _]]]]]. now exists j, r.
Qed.

Lemma gap_fill_then_untile_witness :
  option_map fields
    (getWindow
       (store (TileManager._onGapFillDetected CONFIG 3 (mkRect 964 8 948 1064)
                 (mkRect 964 8 940 1064) (mkWorld twoHalves []))) 3)
  = Some (3, mkRect 964 8 948 1064, Some (mkRect 964 8 940 1064),
          "gap-fill"%string, true).
Proof.
  exact (proj1 (gap_fill_then_untile CONFIG (desktop [1; 2; 3]) 3
                  (mkRect 964 8 948 1064) (mkRect 964 8 940 1064)
                  (mkWorld twoHalves []) wf_twoHalves)).
Defined.

(* ------------------------------------------------------------------ *)
(** ** The row an insertion lays out *)

Lemma nth_error_skipn_cons {A : Type} (l : list A) (n : nat) (a : A) :
  nth_error l n = Some a -> skipn n l = a :: skipn (S n) l.
Proof.
  revert n. induction l as [|b l IH]; intros [|n] H; try discriminate.
  - now injection H as ->.
  - cbn [skipn]. cbn [nth_error] in H. now rewrite (IH n H).
Qed.

Lemma nth_error_combine {A B : Type} (l1 : list A) (l2 : list B) (n : nat) :
  List.length l2 = List.length l1 -> (n < List.length l1)%nat ->
  exists a b, nth_error l1 n = Some a /\ nth_error l2 n = Some b /\
              nth_error (combine l1 l2) n = Some (a, b).
Proof.
  revert l2 n. induction l1 as [|a l1 IH]; intros [|b l2] n Hlen Hn;
    cbn [List.length] in *; try lia.
  destruct n as [|n].
  - exists a, b. now repeat split.
  - destruct (IH l2 n) as [a' [b' H]]; [lia | lia |].
    exists a', b'. exact H.
Qed.

Lemma map_fst_combine {A B : Type} (l1 : list A) (l2 : list B) :
  List.length l2 = List.length l1 -> map fst (combine l1 l2) = l1.
Proof.
  revert l2. induction l1 as [|a l1 IH]; intros [|b l2] Hlen;
    cbn [List.length] in *; try lia; [reflexivity|].
  cbn [combine map fst]. f_equal. apply IH. lia.
Qed.

Lemma findInsertIndex_bound (position : Z) (l : list WindowState) (i : nat) :
  (i <= TileManager.findInsertIndex position l i <= i + List.length l)%nat.
Proof.
  revert i. induction l as [|t l IH]; intros i;
    cbn [TileManager.findInsertIndex List.length]; [lia|].
  destruct (2 * position <? 2 * x (rect t) + width (rect t)); [lia|].
  specialize (IH (S i)). lia.
Qed.

Lemma insertBy_perm {A : Type} (key : A -> Z) (a : A) (l : list A) :
  Permutation (TileManager.insertBy key a l) (a :: l).
Proof.
  induction l as [|h t IH]; cbn [TileManager.insertBy]; [reflexivity|].
  destruct (key a <=? key h); [reflexivity|].
  rewrite IH. apply perm_swap.
Qed.

Lemma sortBy_perm {A : Type} (key : A -> Z) (l : list A) :
  Permutation (TileManager.sortBy key l) l.
Proof.
  unfold TileManager.sortBy. induction l as [|a l IH]; cbn [fold_right];
    [reflexivity|].
  rewrite insertBy_perm. now constructor.
Qed.

Lemma filtered_ids_distinct (keep : WindowState -> bool)
    (ws : list WindowState) :
  NoDup (map id ws) -> NoDup (map id (filter keep ws)).
Proof.
  induction ws as [|t ws IH]; intros Hnd; cbn [filter map] in *;
    [constructor|].
  inversion Hnd as [|? ? Hfresh Hrest]; subst.
  destruct (keep t); [|now apply IH].
  cbn [map]. constructor; [|now apply IH].
  rewrite in_map_iff. intros [o [Ho Hin]].
  apply Hfresh. rewrite in_map_iff. exists o.
  split; [exact Ho|]. apply filter_In in Hin. tauto.
Qed.

Section RowPlan.
Variable cfg : Config.
Variable env : TileManager.Env.
Variable inserted : Z.
Variable framed : Rect.
Variable workArea : Rect.
Variable newWindowWidth : Z.

Let step := placeSlot cfg env inserted framed workArea newWindowWidth.
Let g := INNER_GAP cfg.

Section Loop.
Variable sorted : list WindowState.
Variable windowWidths : list Z.
Variable insertIndex : nat.
Hypothesis Hlen : List.length windowWidths = List.length sorted.

Let C := combine sorted windowWidths.
Let E := fun p : WindowState * Z => Existing (fst p) (snd p).
Let repo := TileManager.reposition cfg env inserted framed workArea sorted
              windowWidths newWindowWidth insertIndex.

Lemma reposition_after (k : nat) :
  forall wi i cx w,
    (insertIndex < i)%nat -> (wi + k = List.length sorted)%nat ->
    repo k i wi cx w = fst (fold_left step (map E (skipn wi C)) (w, cx)).
Proof.
  induction k as [|k IH]; intros wi i cx w Hi Hk.
  - rewrite skipn_all2; [reflexivity|].
    unfold C. rewrite length_combine. lia.
  - unfold repo. cbn [TileManager.reposition].
    replace (Nat.eqb i insertIndex) with false
      by (symmetry; apply Nat.eqb_neq; lia).
    destruct (nth_error_combine sorted windowWidths wi Hlen)
      as [t [wd [H1 [H2 H3]]]]; [lia|].
    rewrite H1, H2. fold C in H3.
    rewrite (nth_error_skipn_cons C wi (t, wd) H3).
    cbn [map fold_left]. unfold E at 1. cbn [fst snd].
    unfold step at 2. cbn [placeSlot slotWidth].
    apply (IH (S wi) (S i)); lia.
Qed.

Lemma reposition_before (m : nat) :
  forall i cx w,
    (i + m = insertIndex)%nat -> (insertIndex <= List.length sorted)%nat ->
    repo (S (List.length sorted) - i) i i cx w
    = fst (fold_left step
             (map E (firstn m (skipn i C)) ++ Inserted
              :: map E (skipn insertIndex C))
             (w, cx)).
Proof.
  induction m as [|m IH]; intros i cx w Hi Hk.
  - assert (i = insertIndex) by lia. subst i.
    replace (S (List.length sorted) - insertIndex)%nat
      with (S (List.length sorted - insertIndex)) by lia.
    unfold repo. cbn [TileManager.reposition].
    rewrite Nat.eqb_refl. cbn [firstn map app fold_left].
    unfold step at 2. cbn [placeSlot slotWidth].
    apply reposition_after; lia.
  - replace (S (List.length sorted) - i)%nat
      with (S (List.length sorted - i)) by lia.
    unfold repo. cbn [TileManager.reposition].
    replace (Nat.eqb i insertIndex) with false
      by (symmetry; apply Nat.eqb_neq; lia).
    destruct (nth_error_combine sorted windowWidths i Hlen)
      as [t [wd [H1 [H2 H3]]]]; [lia|].
    rewrite H1, H2. fold C in H3.
    rewrite (nth_error_skipn_cons C i (t, wd) H3).
    cbn [firstn map app fold_left]. unfold E at 1. cbn [fst snd].
    unfold step at 2. cbn [placeSlot slotWidth].
    replace (List.length sorted - i)%nat
      with (S (List.length sorted) - S i)%nat by lia.
    apply (IH (S i)); lia.
Qed.

Lemma reposition_plan (cx : Z) (w : World) :
  (insertIndex <= List.length sorted)%nat ->
  repo (S (List.length sorted)) 0 0 cx w
  = fst (fold_left step (rowPlan sorted windowWidths insertIndex) (w, cx)).
Proof.
  intros Hk.
  pose proof (reposition_before insertIndex 0%nat cx w eq_refl Hk) as H.
  rewrite Nat.sub_0_r in H. exact H.
Qed.

Lemma rowPlan_ids :
  Permutation (map (slotId inserted) (rowPlan sorted windowWidths insertIndex))
    (inserted :: map id sorted).
Proof.
  unfold rowPlan. rewrite map_app. cbn [map slotId].
  rewrite !map_map. cbn [slotId].
  rewrite <- Permutation_middle. constructor.
  rewrite <- map_app, firstn_skipn.
  rewrite <- (map_map fst id). fold C.
  unfold C. now rewrite map_fst_combine.
Qed.

End Loop.

Lemma plan_end (P : list Slot) :
  forall w cx,
    snd (fold_left step P (w, cx))
    = cx + TileManager.sumZ
             (map (fun s => slotWidth newWindowWidth s + g) P).
Proof.
  induction P as [|s P IH]; intros w cx; cbn [fold_left map].
  - cbn. lia.
  - rewrite sumZ_cons.
    destruct s as [t wd|]; unfold step at 2; cbn [placeSlot slotWidth];
      rewrite IH; fold g; lia.
Qed.

Lemma plan_untouched (P : list Slot) (i : Z) :
  ~ In i (map (slotId inserted) P) ->
  forall w cx,
    getWindow (store (fst (fold_left step P (w, cx)))) i
    = getWindow (store w) i.
Proof.
  induction P as [|s P IH]; intros Hni w cx; cbn [fold_left];
    [reflexivity|].
  cbn [map In] in Hni.
  destruct s as [t wd|]; unfold step at 2; cbn [placeSlot];
    rewrite IH by tauto; cbn [slotId] in Hni.
  - destruct (TileManager._findMetaWindow env (id t)); [|reflexivity].
    rewrite getWindow_setRect_other by tauto. now rewrite store_emit.
  - unfold TileManager.setState. cbn [store].
    rewrite getWindow_setWindow_other by tauto. now rewrite store_emit.
Qed.

Lemma plan_calls (P : list Slot) :
  forall w cx c,
    In c (calls w) -> In c (calls (fst (fold_left step P (w, cx)))).
Proof.
  induction P as [|s P IH]; intros w cx c Hc; cbn [fold_left]; [exact Hc|].
  destruct s as [t wd|]; unfold step at 2; cbn [placeSlot]; apply IH.
  - destruct (TileManager._findMetaWindow env (id t)); [|exact Hc].
    unfold setRect, emit. cbn [calls]. apply in_or_app. now left.
  - unfold TileManager.setState, emit. cbn [calls].
    apply in_or_app. now left.
Qed.

Lemma step_existing (w : World) (cx : Z) (t : WindowState) (wd : Z) :
  step (w, cx) (Existing t wd)
  = (if TileManager._findMetaWindow env (id t)
     then setRect (id t) (mkRect cx (y workArea + g) wd (height workArea - g * 2))
            (emit (MoveResize (id t)
                     (mkRect cx (y workArea + g) wd (height workArea - g * 2)))
               w)
     else w,
     cx + wd + g).
Proof. reflexivity. Qed.

Lemma step_inserted (w : World) (cx : Z) :
  step (w, cx) Inserted
  = (TileManager.setState inserted
       (tiledAt (mkRect cx (y workArea + g) newWindowWidth
                   (height workArea - g * 2))
          framed "inserted"%string)
       (emit (MoveResize inserted
                (mkRect cx (y workArea + g) newWindowWidth
                   (height workArea - g * 2)))
          w),
     cx + newWindowWidth + g).
Proof. reflexivity. Qed.

Lemma plan_slot (P : list Slot) :
  forall j s w cx,
    NoDup (map (slotId inserted) P) ->
    nth_error P j = Some s ->
    let w' := fst (fold_left step P (w, cx)) in
    let r := slotRect workArea g newWindowWidth cx P j s in
    match s with
    | Inserted =>
        option_map fields (getWindow (store w') inserted)
        = Some (inserted, r, Some framed, "inserted"%string, true) /\
        In (MoveResize inserted r) (calls w')
    | Existing t wd =>
        TileManager._findMetaWindow env (id t) = true ->
        option_map rect (getWindow (store w') (id t)) = Some r /\
        In (MoveResize (id t) r) (calls w')
    end.
Proof.
  induction P as [|s0 P IH]; intros j s w cx Hnd Hj; [now destruct j|].
  cbn [map] in Hnd. inversion Hnd as [|? ? Hni Hnd']; subst.
  destruct j as [|j]; cbn [nth_error] in Hj.
  - injection Hj as ->. cbv zeta. cbn [fold_left].
    assert (Hr : slotRect workArea g newWindowWidth cx (s :: P) 0 s
                 = mkRect cx (y workArea + g) (slotWidth newWindowWidth s)
                     (height workArea - g * 2)).
    { unfold slotRect. cbn [firstn map]. unfold TileManager.sumZ.
      cbn [fold_left]. f_equal. lia. }
    rewrite Hr. clear Hr.
    destruct s as [t wd|]; cbn [slotWidth slotId] in *.
    + intros Hfound. rewrite step_existing, Hfound. split.
      * rewrite plan_untouched by exact Hni. apply rect_setRect_same.
      * apply plan_calls. unfold setRect, emit. cbn [calls].
        apply in_or_app. right. now left.
    + rewrite step_inserted. split.
      * rewrite plan_untouched by exact Hni.
        unfold TileManager.setState. cbn [store].
        now rewrite getWindow_setWindow_same.
      * apply plan_calls. unfold TileManager.setState, emit. cbn [calls].
        apply in_or_app. right. now left.
  - cbv zeta. cbn [fold_left].
    assert (Hr : slotRect workArea g newWindowWidth cx (s0 :: P) (S j) s
                 = slotRect workArea g newWindowWidth
                     (cx + slotWidth newWindowWidth s0 + g) P j s).
    { unfold slotRect. cbn [firstn map].
      rewrite sumZ_cons. f_equal. lia. }
    rewrite Hr. clear Hr.
    destruct s0 as [t0 wd0|]; cbn [slotWidth].
    + rewrite step_existing. exact (IH j s _ _ Hnd' Hj).
    + rewrite step_inserted. exact (IH j s _ _ Hnd' Hj).
Qed.

End RowPlan.

Lemma findInsertIndex_spec (position : Z) (l : list WindowState) :
  forall i0,
    let k := TileManager.findInsertIndex position l i0 in
    (forall i t, nth_error l i = Some t -> (i0 + i < k)%nat ->
       2 * x (rect t) + width (rect t) <= 2 * position) /\
    (forall t, nth_error l (k - i0) = Some t ->
       2 * position < 2 * x (rect t) + width (rect t)).
Proof.
  induction l as [|a l IH]; intros i0; cbn [TileManager.findInsertIndex].
  - split; [intros [|i] t H; discriminate|].
    intros t H. rewrite Nat.sub_diag in H. discriminate.
  - destruct (2 * position <? 2 * x (rect a) + width (rect a)) eqn:E.
    + split; [intros i t _ Hlt; lia|].
      intros t H. rewrite Nat.sub_diag in H. injection H as <-.
      now apply Z.ltb_lt.
    + apply Z.ltb_ge in E. destruct (IH (S i0)) as [H1 H2].
      pose proof (findInsertIndex_bound position l (S i0)) as Hb.
      split.
      * intros [|i] t Hn Hlt; cbn [nth_error] in Hn.
        -- injection Hn as <-. exact E.
        -- apply (H1 i t Hn). lia.
      * intros t Hn.
        replace (TileManager.findInsertIndex position l (S i0) - i0)%nat
          with (S (TileManager.findInsertIndex position l (S i0) - S i0))
          in Hn by lia.
        apply (H2 t Hn).
Qed.

Lemma rowFor_ids (env : TileManager.Env) (inserted : Z) (w : World) :
  wf (store w) ->
  NoDup (inserted
         :: map id (TileManager.sortBy (fun st => x (rect st))
                      (TileManager.rowFor env inserted w))).
Proof.
  intros Hwf. constructor.
  - intros Hin. apply in_map_iff in Hin as [t [Hid Hin]].
    apply In_sortBy in Hin. unfold TileManager.rowFor in Hin.
    apply filter_In in Hin as [_ Hc]. apply andb_true_iff in Hc as [Hc _].
    apply negb_true_iff, Z.eqb_neq in Hc. contradiction.
  - eapply Permutation_NoDup.
    + apply Permutation_map. symmetry. apply sortBy_perm.
    + unfold TileManager.rowFor. apply filtered_ids_distinct.
      now apply NoDup_tiled_ids.
Qed.

Lemma insertIntoRow_plan (cfg : Config) (R : Rounding)
    (env : TileManager.Env) (inserted : Z) (framed : Rect) (position : Z)
    (w : World) :
  let workArea := TileManager.workAreaOf env inserted in
  let sorted := TileManager.sortBy (fun st => x (rect st))
                  (TileManager.rowFor env inserted w) in
  let plan := TileManager.planWidths cfg R (width workArea)
                (map (fun st => width (rect st)) sorted) in
  let k := TileManager.findInsertIndex position sorted 0 in
  List.length (snd plan) = List.length sorted /\
  TileManager.insertIntoRow cfg R env inserted framed position w
  = TileManager.recalc cfg
      (fst (fold_left (placeSlot cfg env inserted framed workArea (fst plan))
              (rowPlan sorted (snd plan) k)
              (w, x workArea + INNER_GAP cfg))).
Proof.
  intros workArea sorted plan k.
  pose proof (findInsertIndex_bound position sorted 0) as Hb.
  fold k in Hb.
  assert (Hlen : List.length (snd plan) = List.length sorted).
  { unfold plan.
    rewrite (proj2 (proj2 (planWidths_min cfg R (width workArea)
                             (map (fun st => width (rect st)) sorted)))).
    apply length_map. }
  split; [exact Hlen|].
  unfold TileManager.insertIntoRow.
  fold workArea sorted. fold plan. destruct plan as [nw ws] eqn:Ep.
  cbn [fst snd] in *. fold k. f_equal.
  apply (reposition_plan cfg env inserted framed workArea nw sorted ws k
           Hlen).
  lia.
Qed.

(** X25: the row an insertion lays out, before the overlap correction,
    when the windows of the row have widths that sum to something
    positive.  The new window goes before the first window, in order of x,
    whose centre lies right of the drop position, and last when there is
    none.  The loop never runs off the end of the window array: the row
    has one slot more than there were windows, the slots follow each other
    from the left margin, each exactly one gap after the preceding one,
    with the planned widths; the new window is sent to its slot and
    registered there as tiled, zone "inserted", and its original rectangle
    is the frame rectangle read back after that move, not the one it had
    before; every existing window that can be found is sent to its slot
    and registered there. *)
Theorem insertion_lays_out_row (cfg : Config) (R : Rounding)
    (env : TileManager.Env) (inserted : Z) (framed : Rect) (position : Z)
    (w : World) :
  wf (store w) ->
  0 < TileManager.sumZ
        (map (fun st => width (rect st)) (TileManager.rowFor env inserted w)) ->
  let workArea := TileManager.workAreaOf env inserted in
  let g := INNER_GAP cfg in
  let sorted := TileManager.sortBy (fun st => x (rect st))
                  (TileManager.rowFor env inserted w) in
  let plan := TileManager.planWidths cfg R (width workArea)
                (map (fun st => width (rect st)) sorted) in
  let k := TileManager.findInsertIndex position sorted 0 in
  let P := rowPlan sorted (snd plan) k in
  let w' := TileManager.insertIntoRow cfg R env inserted framed position w in
  (k <= List.length sorted)%nat /\
  (forall i t, nth_error sorted i = Some t -> (i < k)%nat ->
     2 * x (rect t) + width (rect t) <= 2 * position) /\
  (forall t, nth_error sorted k = Some t ->
     2 * position < 2 * x (rect t) + width (rect t)) /\
  List.length P = S (List.length sorted) /\
  forall j s, nth_error P j = Some s ->
    let r := slotRect workArea g (fst plan) (x workArea + g) P j s in
    match s with
    | Inserted =>
        option_map fields (getWindow (store w') inserted)
        = Some (inserted, r, Some framed, "inserted"%string, true) /\
        In (MoveResize inserted r) (calls w')
    | Existing t wd =>
        TileManager._findMetaWindow env (id t) = true ->
        option_map rect (getWindow (store w') (id t)) = Some r /\
        In (MoveResize (id t) r) (calls w')
    end.
Proof.
  intros Hwf _ workArea g sorted plan k P w'.
  pose proof (findInsertIndex_bound position sorted 0) as Hb.
  fold k in Hb.
  destruct (findInsertIndex_spec position sorted 0%nat) as [S1 S2].
  fold k in S1, S2. rewrite Nat.sub_0_r in S2.
  destruct (insertIntoRow_plan cfg R env inserted framed position w)
    as [Hlen Hw'].
  fold workArea sorted in Hlen, Hw'. fold plan in Hlen, Hw'.
  fold k in Hw'. fold P in Hw'. fold w' in Hw'.
  assert (Hnd : NoDup (map (slotId inserted) P)).
  { eapply Permutation_NoDup;
      [symmetry; apply (rowPlan_ids inserted sorted (snd plan) k Hlen)|].
    now apply rowFor_ids. }
  split; [lia|]. split; [intros i t Hn Hlt; now apply (S1 i t Hn)|].
  split; [exact S2|]. split.
  - pose proof (Permutation_length
                  (rowPlan_ids inserted sorted (snd plan) k Hlen)) as HL.
    rewrite !length_map in HL. cbn [List.length] in HL.
    rewrite length_map in HL. exact HL.
  - intros j s Hj.
    pose proof (plan_slot cfg env inserted framed workArea (fst plan) P j s w
                  (x workArea + g) Hnd Hj) as Hs.
    cbv zeta in Hs. cbv zeta. rewrite Hw'.
    unfold TileManager.recalc. cbn [store calls].
    destruct s as [t wd|];
      [rewrite rect_recalc | rewrite fields_recalc]; exact Hs.
Qed.

(** Window 3 dropped on the boundary between the two halves of [screen]:
    it takes the middle one of three slots of 629 pixels, and the frame
    read back after the move, here 640 wide because the application
    refuses to be narrower, is what the registry keeps as its original
    rectangle. *)
Lemma insertion_lays_out_row_witness :
  option_map fields
    (getWindow
       (store (TileManager.insertIntoRow CONFIG exactRounding
                 (desktop [1; 2; 3]) 3 (mkRect 645 8 640 1064) 956
                 (mkWorld twoHalves []))) 3)
  = Some (3, mkRect 645 8 629 1064, Some (mkRect 645 8 640 1064),
          "inserted"%string, true) /\
  In (MoveResize 3 (mkRect 645 8 629 1064))
    (calls (TileManager.insertIntoRow CONFIG exactRounding
              (desktop [1; 2; 3]) 3 (mkRect 645 8 640 1064) 956
              (mkWorld twoHalves []))).
Proof.
  refine (proj2 (proj2 (proj2 (proj2
            (insertion_lays_out_row CONFIG exactRounding (desktop [1; 2; 3])
               3 (mkRect 645 8 640 1064) 956 (mkWorld twoHalves [])
               wf_twoHalves _))))
            1%nat Inserted _).
  - reflexivity.
  - reflexivity.
Defined.

(* ------------------------------------------------------------------ *)
(** ** The overlap correction *)

Section Correction.
Variable cfg : Config.
Variable env : TileManager.Env.
Variable primaryWindowId : Z.

Lemma moveContiguous_eq (gap : Z) (w : World) (cx : Z)
    (a : TileManager.ActualWindow) :
  TileManager.moveContiguous gap (w, cx) a
  = (if 2 <? Z.abs (cx - x (TileManager.a_rect a))
     then setRect (TileManager.a_id a)
            (mkRect cx (y (TileManager.a_rect a))
               (width (TileManager.a_rect a)) (height (TileManager.a_rect a)))
            (emit (MoveResize (TileManager.a_id a)
                     (mkRect cx (y (TileManager.a_rect a))
                        (width (TileManager.a_rect a))
                        (height (TileManager.a_rect a))))
               w)
     else w,
     cx + width (TileManager.a_rect a) + gap).
Proof. reflexivity. Qed.

Lemma moveContiguous_effects (actual : Z -> Rect) (w0 : World)
    (l : list TileManager.ActualWindow) :
  Forall (fun a => TileManager.a_rect a = actual (TileManager.a_id a) /\
                   exists st, getWindow (store w0) (TileManager.a_id a) = Some st
                              /\ isTiled st = true) l ->
  forall w cx,
    wf (store w) -> relaid (store w0) (store w) ->
    let w' := fst (fold_left (TileManager.moveContiguous (INNER_GAP cfg)) l
                     (w, cx)) in
    wf (store w') /\ relaid (store w0) (store w') /\
    exists new,
      calls w' = calls w ++ new /\
      Forall (fun c => exists i r, c = MoveResize i r /\
                         y r = y (actual i) /\ height r = height (actual i) /\
                         width r = width (actual i)) new.
Proof.
  induction 1 as [|a l [Ha [st [Hst Ht]]] Hl IH]; intros w cx Hwf Hrel;
    cbn [fold_left].
  - split; [exact Hwf|]. split; [exact Hrel|].
    exists []. split; [now rewrite app_nil_r | constructor].
  - rewrite moveContiguous_eq.
    destruct (proj1 Hrel _ _ Hst) as [st' [Hst' [_ [_ [_ [Ht' _]]]]]].
    destruct (2 <? Z.abs (cx - x (TileManager.a_rect a))).
    + match goal with
      | |- context [fold_left _ l (setRect ?i ?r ?w1, ?cx1)] =>
          destruct (IH (setRect i r w1) cx1) as [W [Rl [new [E F]]]]
      end.
      * unfold setRect. cbn [store]. now apply wf_setWindow.
      * apply (relaid_trans _ (store w)); [exact Hrel|].
        unfold setRect. cbn [store]. rewrite store_emit.
        apply (relaid_setRect _ _ _ st'); [exact Hwf | exact Hst'|].
        congruence.
      * split; [exact W|]. split; [exact Rl|].
        eexists (MoveResize (TileManager.a_id a) _ :: new). split.
        -- rewrite E. unfold setRect, emit. cbn [calls].
           now rewrite <- app_assoc.
        -- constructor; [|exact F].
           eexists. eexists. split; [reflexivity|].
           cbn [y height width]. rewrite Ha. auto.
    + apply IH; assumption.
Qed.

Lemma find_some_In {A : Type} (p : A -> bool) (l : list A) (a : A) :
  find p l = Some a -> In a l /\ p a = true.
Proof. apply find_some. Qed.

Lemma correct_effects (actuals : list (Z -> Rect)) (workArea : Rect) :
  forall w,
    wf (store w) ->
    let w' := TileManager._correctLayoutOverlaps cfg env actuals
                primaryWindowId workArea w in
    wf (store w') /\ relaid (store w) (store w') /\
    exists new,
      calls w' = calls w ++ new /\
      Forall (correctionCall cfg actuals primaryWindowId) new.
Proof.
  induction actuals as [|actual later IH]; intros w Hwf;
    cbn [TileManager._correctLayoutOverlaps].
  { split; [exact Hwf|]. split; [apply relaid_refl|].
    exists []. split; [now rewrite app_nil_r | constructor]. }
  assert (Hnone : wf (store w) /\ relaid (store w) (store w) /\
                  exists new, calls w = calls w ++ new /\
                    Forall (correctionCall cfg (actual :: later)
                              primaryWindowId) new).
  { split; [exact Hwf|]. split; [apply relaid_refl|].
    exists []. split; [now rewrite app_nil_r | constructor]. }
  cbv zeta.
  set (tiledStates := filter _ (getTiledWindows (store w))).
  destruct (List.length tiledStates <? 2)%nat; [exact Hnone|].
  set (actualWindows := TileManager.sortBy _ _).
  destruct (TileManager.needsCorrection (INNER_GAP cfg) actualWindows);
    cbn [negb]; [|exact Hnone].
  assert (Hall : Forall
            (fun a => TileManager.a_rect a = actual (TileManager.a_id a) /\
                      exists st,
                        getWindow (store w) (TileManager.a_id a) = Some st /\
                        isTiled st = true) actualWindows).
  { apply Forall_forall. intros a Ha. unfold actualWindows in Ha.
    apply In_sortBy in Ha. apply in_map_iff in Ha as [st [<- Hin]].
    cbn [TileManager.a_rect TileManager.a_id]. split; [reflexivity|].
    apply filter_In in Hin as [Hin _]. unfold tiledStates in Hin.
    apply filter_In in Hin as [Hin _].
    exists st. split.
    - apply getWindow_of_value; [exact Hwf | now apply tiled_in_all].
    - unfold getTiledWindows in Hin. now apply filter_In in Hin. }
  destruct (moveContiguous_effects actual w actualWindows Hall w
              (x workArea + INNER_GAP cfg) Hwf (relaid_refl _))
    as [W1 [R1 [new1 [E1 F1]]]].
  destruct (fold_left (TileManager.moveContiguous (INNER_GAP cfg))
              actualWindows (w, x workArea + INNER_GAP cfg))
    as [w1 currentX] eqn:Efold.
  cbn [fst] in W1, R1, E1.
  assert (F1' : Forall (correctionCall cfg (actual :: later) primaryWindowId)
                  new1).
  { eapply Forall_impl; [|exact F1].
    intros c [i [r [-> [H1 [H2 H3]]]]]. exists i, r, actual.
    split; [now left|]. split; [reflexivity|]. auto. }
  assert (Hmoved : wf (store w1) /\ relaid (store w) (store w1) /\
                   exists new, calls w1 = calls w ++ new /\
                     Forall (correctionCall cfg (actual :: later)
                               primaryWindowId) new).
  { split; [exact W1|]. split; [exact R1|]. now exists new1. }
  destruct (0 <? currentX - INNER_GAP cfg - (x workArea + width workArea))
    eqn:Eover; [|exact Hmoved].
  apply Z.ltb_lt in Eover.
  destruct (find TileManager.isPrimary actualWindows) as [primary|] eqn:Efind;
    [|exact Hmoved].
  apply find_some_In in Efind as [Hin Hprim].
  destruct (currentX - INNER_GAP cfg - (x workArea + width workArea)
            + MIN_WINDOW_WIDTH cfg <? width (TileManager.a_rect primary))
    eqn:Eroom; [|exact Hmoved].
  apply Z.ltb_lt in Eroom.
  rewrite Forall_forall in Hall.
  destruct (Hall primary Hin) as [Hrect [st [Hst Ht]]].
  destruct (proj1 R1 _ _ Hst) as [st1 [Hst1 [_ [_ [_ [Ht1 _]]]]]].
  match goal with
  | |- context [TileManager._correctLayoutOverlaps cfg env later
                  primaryWindowId workArea ?W] =>
      set (w2 := W);
      destruct (IH w2) as [W3 [R3 [new3 [E3 F3]]]]
  end.
  { unfold w2, setRect. cbn [store]. now apply wf_setWindow. }
  assert (R2 : relaid (store w1) (store w2)).
  { unfold w2, setRect. cbn [store]. rewrite store_emit.
    apply (relaid_setRect _ _ _ st1); [exact W1 | exact Hst1|].
    congruence. }
  split; [exact W3|]. split.
  - eapply relaid_trans; [exact R1|].
    eapply relaid_trans; [exact R2 | exact R3].
  - eexists (new1 ++ MoveResize (TileManager.a_id primary) _ :: new3).
    split.
    + rewrite E3. unfold w2, setRect, emit. cbn [calls].
      rewrite E1. now rewrite <- !app_assoc.
    + apply Forall_app. split; [exact F1'|]. constructor.
      * eexists. eexists. exists actual. split; [now left|].
        split; [reflexivity|]. cbn [x y width height].
        rewrite <- Hrect. split; [reflexivity|]. split; [reflexivity|].
        right. split; [|split; [reflexivity | lia]].
        assert (Hp : In primary
                       (map (fun st0 => TileManager.mkActual (id st0)
                               (actual (id st0))
                               (id st0 =? primaryWindowId))
                          (filter (fun st0 =>
                                     TileManager._findMetaWindow env (id st0))
                             tiledStates))).
        { apply (In_sortBy (fun a => x (TileManager.a_rect a))).
          exact Hin. }
        apply in_map_iff in Hp as [st0 [<- _]].
        cbn [TileManager.isPrimary TileManager.a_id] in *.
        now apply Z.eqb_eq.
      * eapply Forall_impl; [|exact F3].
        intros c [i [r [a [Ha Hrest]]]]. exists i, r, a.
        split; [now right | exact Hrest].
Qed.

End Correction.

(** X26: what the overlap correction may do, whatever the compositor
    reports.  The registry keeps the same windows, each with its id,
    original rectangle, zone and tiled flag, and windows that are not tiled
    keep their rectangle.  Every rectangle sent to the compositor keeps the
    vertical position and the height that were read back for the window,
    and the width too, unless it shrinks the primary window where it
    stands, and then to a width still above [MIN_WINDOW_WIDTH].  With
    fewer than two tiled windows on the workspace nothing happens. *)
Theorem correction_effects (cfg : Config) (env : TileManager.Env)
    (actuals : list (Z -> Rect)) (primaryWindowId : Z) (workArea : Rect)
    (w : World) :
  wf (store w) ->
  let w' := TileManager._correctLayoutOverlaps cfg env actuals
              primaryWindowId workArea w in
  relaid (store w) (store w') /\
  (exists new,
     calls w' = calls w ++ new /\
     Forall (correctionCall cfg actuals primaryWindowId) new) /\
  ((List.length
      (filter (fun st => memZ (id st) (TileManager.workspaceWindows env))
         (getTiledWindows (store w))) < 2)%nat ->
   w' = w).
Proof.
  intros Hwf w'.
  destruct (correct_effects cfg env primaryWindowId actuals workArea w Hwf)
    as [_ [Hrel Hcalls]].
  split; [exact Hrel|]. split; [exact Hcalls|].
  intros Hfew. subst w'.
  destruct actuals as [|actual later];
    cbn [TileManager._correctLayoutOverlaps]; [reflexivity|].
  apply Nat.ltb_lt in Hfew. cbv zeta. now rewrite Hfew.
Qed.

Lemma correction_effects_witness :
  relaid twoHalves
    (store (TileManager._correctLayoutOverlaps CONFIG (desktop [1; 2])
              [fun i => if i =? 1 then mkRect 8 8 948 1064
                        else mkRect 900 8 948 1064]
              2 screen (mkWorld twoHalves []))).
Proof.
  exact (proj1 (correction_effects CONFIG (desktop [1; 2])
                  [fun i => if i =? 1 then mkRect 8 8 948 1064
                            else mkRect 900 8 948 1064]
                  2 screen (mkWorld twoHalves []) wf_twoHalves)).
Defined.

(* ------------------------------------------------------------------ *)
(** ** An insertion as a whole *)

Lemma relaid_except (i : Z) (s s' : StateStore.t) :
  relaid s s' -> relaidExcept i s s'.
Proof.
  intros [P N]. split.
  - intros j st _ Hst. now apply P.
  - intros j _ Hj. now apply N.
Qed.

Lemma relaidExcept_refl (i : Z) (s : StateStore.t) : relaidExcept i s s.
Proof. apply relaid_except, relaid_refl. Qed.

Lemma relaidExcept_trans (i : Z) (s1 s2 s3 : StateStore.t) :
  relaidExcept i s1 s2 -> relaidExcept i s2 s3 -> relaidExcept i s1 s3.
Proof.
  intros [P12 N12] [P23 N23]. split; [|auto].
  intros j st Hne Hst.
  destruct (P12 j st Hne Hst) as [st2 [H2 [E1 [E2 [E3 [E4 E5]]]]]].
  destruct (P23 j st2 Hne H2) as [st3 [H3 [F1 [F2 [F3 [F4 F5]]]]]].
  exists st3. split; [exact H3|].
  split; [congruence|]. split; [congruence|]. split; [congruence|].
  split; [congruence|]. intros Hu.
  rewrite F5 by congruence. now apply E5.
Qed.

Lemma relaidExcept_setWindow (i : Z) (s : StateStore.t) (p : PartialState) :
  relaidExcept i s (setWindow s i p).
Proof.
  split.
  - intros j st Hne Hst. rewrite getWindow_setWindow_other by congruence.
    exists st. repeat split; auto.
  - intros j Hne Hj. now rewrite getWindow_setWindow_other by congruence.
Qed.

Lemma In_rowPlan (sorted : list WindowState) (ws : list Z) (k : nat)
    (t : WindowState) (wd : Z) :
  In (Existing t wd) (rowPlan sorted ws k) -> In t sorted.
Proof.
  unfold rowPlan. intros H.
  assert (Hc : In (t, wd) (combine sorted ws)).
  { rewrite <- (firstn_skipn k (combine sorted ws)).
    apply in_or_app. apply in_app_or in H as [H|[H|H]]; [|discriminate|].
    - left. apply in_map_iff in H as [[t' wd'] [Heq Hin]].
      cbn [fst snd] in Heq. now injection Heq as -> ->.
    - right. apply in_map_iff in H as [[t' wd'] [Heq Hin]].
      cbn [fst snd] in Heq. now injection Heq as -> ->. }
  now apply in_combine_l in Hc.
Qed.

Lemma plan_relaid (cfg : Config) (env : TileManager.Env) (inserted : Z)
    (framed workArea : Rect) (nw : Z) (w0 : World) (P : list Slot) :
  Forall (fun s => match s with
                   | Existing t _ =>
                       id t <> inserted /\
                       exists st, getWindow (store w0) (id t) = Some st /\
                                  isTiled st = true
                   | Inserted => True
                   end) P ->
  forall w cx,
    wf (store w) -> relaidExcept inserted (store w0) (store w) ->
    wf (store (fst (fold_left (placeSlot cfg env inserted framed workArea nw)
                      P (w, cx)))) /\
    relaidExcept inserted (store w0)
      (store (fst (fold_left (placeSlot cfg env inserted framed workArea nw)
                     P (w, cx)))).
Proof.
  induction 1 as [|s P Hs HP IH]; intros w cx Hwf Hrel; cbn [fold_left];
    [now split|].
  destruct s as [t wd|].
  - destruct Hs as [Hne [st [Hst Ht]]].
    rewrite step_existing.
    destruct (TileManager._findMetaWindow env (id t)); [|now apply IH].
    destruct (proj1 Hrel _ _ Hne Hst) as [st' [Hst' [_ [_ [_ [Ht' _]]]]]].
    apply IH.
    + unfold setRect. cbn [store]. now apply wf_setWindow.
    + apply (relaidExcept_trans _ _ (store w)); [exact Hrel|].
      apply relaid_except. unfold setRect. cbn [store]. rewrite store_emit.
      apply (relaid_setRect _ _ _ st'); [exact Hwf | exact Hst'|].
      congruence.
  - rewrite step_inserted. apply IH.
    + unfold TileManager.setState. cbn [store]. now apply wf_setWindow.
    + apply (relaidExcept_trans _ _ (store w)); [exact Hrel|].
      unfold TileManager.setState. cbn [store]. rewrite store_emit.
      apply relaidExcept_setWindow.
Qed.

(** X27: an insertion as a whole, overlap correction included and
    whatever the compositor reports.  The new window ends up registered as
    tiled, in zone "maximize" when it had no tiled window of the workspace
    to join and "inserted" otherwise; in both cases its original rectangle
    is the frame rectangle read back after it was moved, not the one it
    had before.  Every other window stays registered with its id, original
    rectangle, zone and tiled flag, a window that is not tiled also with
    its rectangle, and no other entry appears. *)
Theorem insertion_registers (cfg : Config) (R : Rounding)
    (env : TileManager.Env) (actuals : list (Z -> Rect))
    (inserted : Z) (framed : Rect) (position : Z) (w : World) :
  wf (store w) ->
  let w' := TileManager._onInsertDetected cfg R env actuals inserted framed
              position w in
  (exists st,
     getWindow (store w') inserted = Some st /\
     isTiled st = true /\
     originalRect st = Some framed /\
     zone st = match TileManager.rowFor env inserted w with
               | [] => "maximize"%string
               | _ :: _ => "inserted"%string
               end) /\
  relaidExcept inserted (store w) (store w').
Proof.
  intros Hwf w'. subst w'. unfold TileManager._onInsertDetected.
  destruct (TileManager.rowFor env inserted w) as [|r0 row] eqn:Erow.
  - unfold TileManager.setState. cbn [store]. rewrite store_emit. split.
    + rewrite getWindow_setWindow_same. eexists. split; [reflexivity|].
      now cbn.
    + apply relaidExcept_setWindow.
  - destruct (insertIntoRow_plan cfg R env inserted framed position w)
      as [Hlen Hplan].
    set (workArea := TileManager.workAreaOf env inserted) in *.
    set (sorted := TileManager.sortBy (fun st => x (rect st))
                     (TileManager.rowFor env inserted w)) in *.
    set (plan := TileManager.planWidths cfg R (width workArea)
                   (map (fun st => width (rect st)) sorted)) in *.
    set (P := rowPlan sorted (snd plan)
                (TileManager.findInsertIndex position sorted 0)) in *.
    set (w1 := fst (fold_left
                      (placeSlot cfg env inserted framed workArea (fst plan))
                      P (w, x workArea + INNER_GAP cfg))) in *.
    assert (HP : Forall (fun s => match s with
                          | Existing t _ =>
                              id t <> inserted /\
                              exists st, getWindow (store w) (id t) = Some st
                                         /\ isTiled st = true
                          | Inserted => True
                          end) P).
    { apply Forall_forall. intros [t wd|] Hin; [|exact I].
      apply In_rowPlan in Hin. apply In_sortBy in Hin.
      unfold TileManager.rowFor in Hin. apply filter_In in Hin as [Hin Hc].
      apply andb_true_iff in Hc as [Hc _].
      apply negb_true_iff, Z.eqb_neq in Hc. split; [exact Hc|].
      exists t. split.
      - apply getWindow_of_value; [exact Hwf | now apply tiled_in_all].
      - unfold getTiledWindows in Hin. now apply filter_In in Hin. }
    destruct (plan_relaid cfg env inserted framed workArea (fst plan) w P HP
                w (x workArea + INNER_GAP cfg) Hwf (relaidExcept_refl _ _))
      as [W1 R1].
    fold w1 in W1, R1.
    assert (Hnd : NoDup (map (slotId inserted) P)).
    { eapply Permutation_NoDup;
        [symmetry; apply (rowPlan_ids inserted sorted (snd plan) _ Hlen)|].
      now apply rowFor_ids. }
    assert (Hin : In Inserted P).
    { unfold P, rowPlan. apply in_or_app. right. now left. }
    apply In_nth_error in Hin as [j Hj].
    pose proof (plan_slot cfg env inserted framed workArea (fst plan) P j
                  Inserted w (x workArea + INNER_GAP cfg) Hnd Hj) as [Hf _].
    fold w1 in Hf.
    rewrite Hplan.
    assert (W2 : wf (store (TileManager.recalc cfg w1)))
      by (unfold TileManager.recalc; cbn [store];
          now apply wf_recalculateNeighbors).
    destruct (correct_effects cfg env inserted actuals workArea
                (TileManager.recalc cfg w1) W2) as [_ [R3 _]].
    assert (R2 : relaid (store w1) (store (TileManager.recalc cfg w1)))
      by (unfold TileManager.recalc; cbn [store]; apply relaid_recalc).
    split.
    + destruct (getWindow (store w1) inserted) as [st1|] eqn:E1;
        [|discriminate].
      cbn [option_map] in Hf. unfold fields in Hf.
      injection Hf as A1 A2 A3 A4 A5.
      destruct (proj1 R2 _ _ E1) as [st2 [E2 [_ [B2 [B3 [B4 _]]]]]].
      destruct (proj1 R3 _ _ E2) as [st3 [E3 [_ [C2 [C3 [C4 _]]]]]].
      exists st3. split; [exact E3|].
      split; [congruence|]. split; [congruence|]. congruence.
    + eapply relaidExcept_trans; [exact R1|].
      apply relaid_except. eapply relaid_trans; [exact R2 | exact R3].
Qed.

Lemma insertion_registers_witness :
  ((exists st,
      getWindow
        (store (TileManager._onInsertDetected CONFIG exactRounding
                  (desktop [1; 2; 3]) reportedAfterInsert 3
                  (mkRect 645 8 629 1064) 956 (mkWorld twoHalves []))) 3
      = Some st /\
      isTiled st = true /\
      originalRect st = Some (mkRect 645 8 629 1064) /\
      zone st = "inserted"%string) /\
   relaidExcept 3 twoHalves
     (store (TileManager._onInsertDetected CONFIG exactRounding
               (desktop [1; 2; 3]) reportedAfterInsert 3
               (mkRect 645 8 629 1064) 956 (mkWorld twoHalves [])))) /\
  calls (TileManager._onInsertDetected CONFIG exactRounding
           (desktop [1; 2; 3]) reportedAfterInsert 3
           (mkRect 645 8 629 1064) 956 (mkWorld twoHalves []))
  = [MoveResize 1 (mkRect 8 8 629 1064);
     MoveResize 3 (mkRect 645 8 629 1064);
     MoveResize 2 (mkRect 1282 8 629 1064);
     MoveResize 3 (mkRect 716 8 629 1064);
     MoveResize 2 (mkRect 1353 8 629 1064);
     MoveResize 3 (mkRect 645 8 567 1064);
     MoveResize 3 (mkRect 716 8 567 1064);
     MoveResize 2 (mkRect 1291 8 629 1064)].
Proof.
  split.
  - exact (insertion_registers CONFIG exactRounding (desktop [1; 2; 3])
             reportedAfterInsert 3 (mkRect 645 8 629 1064) 956
             (mkWorld twoHalves []) wf_twoHalves).
  - reflexivity.
Defined.

(* ------------------------------------------------------------------ *)
(** ** Snapping two windows side by side *)

Lemma halves_adjacent (cfg : Config) (workArea : Rect)
    (a b : WindowState) :
  0 <= INNER_GAP cfg -> INNER_GAP cfg + 1 <= EDGE_TOLERANCE cfg ->
  NEIGHBOR_OVERLAP_MIN cfg <= height workArea - 2 * INNER_GAP cfg ->
  rect a = getLeftHalfRect workArea (INNER_GAP cfg) ->
  rect b = getRightHalfRect workArea (INNER_GAP cfg) ->
  adjacent cfg DRight a b = true /\ adjacent cfg DLeft b a = true.
Proof.
  intros Hg Htol Hov Ha Hb.
  assert (H : adjacent cfg DRight a b = true).
  { unfold adjacent, nearEdge, hasVerticalOverlap, getRightEdge.
    rewrite Ha, Hb. unfold getLeftHalfRect, getRightHalfRect.
    cbn [x y width height].
    pose proof (Z.mul_div_le (width workArea - INNER_GAP cfg * 3) 2
                  ltac:(lia)).
    pose proof (Z.mul_succ_div_gt (width workArea - INNER_GAP cfg * 3) 2
                  ltac:(lia)).
    apply andb_true_iff. split.
    - apply Z.leb_le. lia.
    - apply Z.leb_le. lia. }
  split; [exact H|]. now rewrite <- adjacent_right_left.
Qed.

(** X28: snapping one window to the left half and then another to the
    right half of the same work area makes them neighbours: each is
    registered at its half, the second is in the right list of the first
    and the first in the left list of the second, so that a resize of the
    edge between them reaches the other window.  This needs a gap that
    is not negative and, with the pixel a rounded half may lose, within
    [EDGE_TOLERANCE], and a work area high enough for the required
    overlap. *)
Theorem snapped_halves_are_neighbours (cfg : Config) (env : TileManager.Env)
    (A B : Z) (w : World) :
  wf (store w) -> A <> B ->
  TileManager.workAreaOf env A = TileManager.workAreaOf env B ->
  0 <= INNER_GAP cfg -> INNER_GAP cfg + 1 <= EDGE_TOLERANCE cfg ->
  NEIGHBOR_OVERLAP_MIN cfg
    <= height (TileManager.workAreaOf env A) - 2 * INNER_GAP cfg ->
  let workArea := TileManager.workAreaOf env A in
  let w2 := TileManager._onSnapDetected cfg env B "right"
              (TileManager._onSnapDetected cfg env A "left" w) in
  exists stA stB,
    getWindow (store w2) A = Some stA /\ getWindow (store w2) B = Some stB /\
    rect stA = getLeftHalfRect workArea (INNER_GAP cfg) /\
    rect stB = getRightHalfRect workArea (INNER_GAP cfg) /\
    In B (right (neighbors stA)) /\ In A (left (neighbors stB)).
Proof.
  intros Hwf Hne Hsame Hg Htol Hov workArea w2.
  set (s1 := store (TileManager._onSnapDetected cfg env A "left" w)).
  set (pB := tiledAt (LayoutEngine.calculateSnapRect cfg "right"
                        (TileManager.workAreaOf env B))
               (TileManager.frameRect env B) "right"%string).
  set (s2 := setWindow s1 B pB).
  assert (Hw2 : store w2 = recalculateNeighbors cfg s2) by reflexivity.
  assert (Hwf1 : wf s1).
  { unfold s1, TileManager._onSnapDetected, TileManager.recalc.
    cbn [store]. apply wf_recalculateNeighbors. rewrite store_emit.
    unfold TileManager.setState. cbn [store]. now apply wf_setWindow. }
  assert (Hwf2 : wf s2) by (now apply wf_setWindow).
  assert (HA1 : option_map fields (getWindow s1 A)
                = Some (A, getLeftHalfRect workArea (INNER_GAP cfg),
                        Some (TileManager.frameRect env A), "left"%string,
                        true)).
  { unfold s1, TileManager._onSnapDetected, TileManager.recalc.
    cbn [store]. rewrite fields_recalc, store_emit.
    unfold TileManager.setState. cbn [store].
    now rewrite getWindow_setWindow_same. }
  assert (HA2 : getWindow s2 A = getWindow s1 A)
    by (unfold s2; apply getWindow_setWindow_other; congruence).
  destruct (getWindow s1 A) as [a|] eqn:Ea; [|discriminate].
  cbn [option_map] in HA1. unfold fields in HA1.
  injection HA1 as A1 A2 A3 A4 A5.
  assert (HB2 : exists b, getWindow s2 B = Some b /\ id b = B /\
                  rect b = getRightHalfRect workArea (INNER_GAP cfg) /\
                  isTiled b = true).
  { unfold s2. rewrite getWindow_setWindow_same. eexists.
    split; [reflexivity|]. cbn. repeat split.
    unfold workArea. now rewrite Hsame. }
  destruct HB2 as [b [Eb [B1 [B2 B5]]]].
  assert (Ta : In a (getTiledWindows s2)).
  { unfold getTiledWindows. apply filter_In. split; [|exact A5].
    now apply (value_of_getWindow s2 A). }
  assert (Tb : In b (getTiledWindows s2)).
  { unfold getTiledWindows. apply filter_In. split; [|exact B5].
    now apply (value_of_getWindow s2 B). }
  destruct (halves_adjacent cfg workArea a b Hg Htol Hov A2 B2)
    as [Hab Hba].
  exists (refreshed cfg (getTiledWindows s2) a),
         (refreshed cfg (getTiledWindows s2) b).
  rewrite Hw2, !getWindow_recalculateNeighbors, HA2, Eb.
  cbn [option_map]. rewrite A5, B5.
  split; [reflexivity|]. split; [reflexivity|].
  split; [exact A2|]. split; [exact B2|].
  unfold refreshed, withNeighbors. cbn [neighbors]. split.
  - apply (In_findNeighbors cfg DRight a (getTiledWindows s2) B).
    exists b. split; [exact Tb|]. split; [exact B1|].
    split; [congruence | exact Hab].
  - apply (In_findNeighbors cfg DLeft b (getTiledWindows s2) A).
    exists a. split; [exact Ta|]. split; [exact A1|].
    split; [congruence | exact Hba].
Qed.

Lemma snapped_halves_are_neighbours_witness :
  exists stA stB,
    getWindow
      (store (TileManager._onSnapDetected CONFIG (desktop [1; 2]) 2 "right"
                (TileManager._onSnapDetected CONFIG (desktop [1; 2]) 1 "left"
                   (mkWorld empty [])))) 1 = Some stA /\
    getWindow
      (store (TileManager._onSnapDetected CONFIG (desktop [1; 2]) 2 "right"
                (TileManager._onSnapDetected CONFIG (desktop [1; 2]) 1 "left"
                   (mkWorld empty [])))) 2 = Some stB /\
    rect stA = getLeftHalfRect screen 8 /\
    rect stB = getRightHalfRect screen 8 /\
    In 2 (right (neighbors stA)) /\ In 1 (left (neighbors stB)).
Proof.
  refine (snapped_halves_are_neighbours CONFIG (desktop [1; 2]) 1 2
            (mkWorld empty []) wf_empty _ _ _ _ _).
  - discriminate.
  - reflexivity.
  - cbn. lia.
  - cbn. lia.
  - cbn. lia.
Defined.

(* ------------------------------------------------------------------ *)
(** ** A resize from start to end *)

Section ResizeEast.
Variable cfg : Config.
Variable workspace : list Z.
Variable h : ResizeHandler.t.
Variable delta : Z.

Lemma adjustRight_place (w : World) (nb : WindowState) :
  memZ (id nb) workspace = true ->
  MIN_WINDOW_WIDTH cfg <= width (rect nb) - delta ->
  ResizeHandler.adjustRight cfg workspace h delta w nb
  = ResizeHandler.place (id nb) (movedRight delta nb) w.
Proof.
  intros Hm Hmin. unfold ResizeHandler.adjustRight, ResizeHandler._getMetaWindow.
  rewrite Hm. cbn [negb].
  replace (width (rect nb) - delta <? MIN_WINDOW_WIDTH cfg) with false
    by (symmetry; apply Z.ltb_ge; exact Hmin).
  reflexivity.
Qed.

Lemma pushed_rects (l : list WindowState) :
  NoDup (map id l) ->
  Forall (fun nb => memZ (id nb) workspace = true /\
                    MIN_WINDOW_WIDTH cfg <= width (rect nb) - delta) l ->
  forall w nb, In nb l ->
    option_map rect
      (getWindow
         (store (fold_left (ResizeHandler.adjustRight cfg workspace h delta)
                   l w)) (id nb))
    = Some (movedRight delta nb).
Proof.
  induction l as [|a l IH]; intros Hnd Hall w nb Hin; [destruct Hin|].
  cbn [map] in Hnd. inversion Hnd as [|? ? Hni Hnd']; subst.
  inversion Hall as [|? ? [Hm Hmin] Hall']; subst.
  cbn [fold_left]. rewrite (adjustRight_place w a Hm Hmin).
  destruct Hin as [<-|Hin]; [|now apply IH].
  assert (Hkeep : forall l' w',
            ~ In (id a) (map id l') ->
            Forall (fun nb => memZ (id nb) workspace = true /\
                              MIN_WINDOW_WIDTH cfg <= width (rect nb) - delta)
              l' ->
            getWindow
              (store (fold_left
                        (ResizeHandler.adjustRight cfg workspace h delta)
                        l' w')) (id a)
            = getWindow (store w') (id a)).
  { induction l' as [|b l' IH']; intros w' Hn Hf; [reflexivity|].
    inversion Hf as [|? ? [Hm' Hmin'] Hf']; subst.
    cbn [fold_left]. rewrite (adjustRight_place w' b Hm' Hmin').
    rewrite IH'; [|intros Hi; apply Hn; now right | exact Hf'].
    unfold ResizeHandler.place.
    rewrite getWindow_setRect_other; [now rewrite !store_emit|].
    intros Heq. apply Hn. left. exact Heq. }
  rewrite (Hkeep l _ Hni Hall'). unfold ResizeHandler.place.
  apply rect_setRect_same.
Qed.

End ResizeEast.

(** X29: a resize of the right edge from start to end.  A tiled window
    whose registry rectangle is the last rectangle of the handler has its
    right edge dragged by [delta]; its right neighbours are other tiled
    windows of the workspace that pass the adjacency test and have room
    for [delta].  After the tick and the end of the resize the window is
    registered at the rectangle the compositor reported, each of those
    neighbours at its rectangle moved and narrowed by [delta], and each is
    still a right neighbour of the window, which is a left neighbour of
    it. *)
Theorem resize_east_keeps_neighbours (cfg : Config) (workspace : list Z)
    (rid : Z) (lastRect currentRect : Rect) (w : World) (a : WindowState) :
  let h := ResizeHandler.mkHandler (Some rid) (Some lastRect)
             ResizeHandler.RESIZING_E in
  let delta := width currentRect - width lastRect in
  let snapshot := getNeighbors (store w) (Some rid) DRight in
  wf (store w) -> rid <> 0 -> delta <> 0 ->
  getWindow (store w) rid = Some a -> isTiled a = true ->
  rect a = lastRect ->
  x currentRect = x lastRect -> y currentRect = y lastRect ->
  height currentRect = height lastRect ->
  NoDup (map id snapshot) ->
  Forall (pushable cfg workspace rid a delta) snapshot ->
  let w1 := snd (ResizeHandler._handleResizeUpdate cfg workspace h
                   currentRect w) in
  let w2 := ResizeHandler._handleResizeComplete cfg rid currentRect w1 in
  forall nb, In nb snapshot ->
    exists a' nb',
      getWindow (store w2) rid = Some a' /\
      getWindow (store w2) (id nb) = Some nb' /\
      rect a' = currentRect /\ rect nb' = movedRight delta nb /\
      In (id nb) (right (neighbors a')) /\ In rid (left (neighbors nb')).
Proof.
  intros h delta snapshot Hwf Hrid Hdelta Ha Hta Hra Hx Hy Hh Hnd Hall
    w1 w2 nb Hnb.
  set (wf0 := fold_left (ResizeHandler.adjustRight cfg workspace h delta)
                snapshot w).
  assert (Hw1 : w1 = setRect rid currentRect wf0).
  { unfold w1, ResizeHandler._handleResizeUpdate.
    cbn [ResizeHandler._resizingWindowId ResizeHandler._lastRect h
         ResizeHandler._resizeDirection ResizeHandler._getResizeEdges
         ResizeHandler.e_left ResizeHandler.e_right ResizeHandler.e_top
         ResizeHandler.e_bottom andb].
    replace (rid =? 0) with false by (symmetry; now apply Z.eqb_neq).
    cbv zeta. cbn [snd].
    replace (x currentRect + width currentRect - (x lastRect + width lastRect))
      with delta by (unfold delta; lia).
    replace (delta =? 0) with false by (symmetry; now apply Z.eqb_neq).
    cbn [negb]. reflexivity. }
  assert (Hpre : Forall (fun nb0 => getWindow (store w) (id nb0) <> None)
                   snapshot).
  { apply Forall_forall. intros n Hn.
    rewrite (getNeighbors_entries (store w) rid DRight n Hwf Hn).
    discriminate. }
  destruct (tickFrame_fold cfg workspace h delta DRight w snapshot Hpre w
              (tickFrame_refl _ _ Hwf)) as [Wf [Rf _]].
  change (fold_left (adjustStep cfg workspace h delta DRight) snapshot w)
    with wf0 in Wf, Rf.
  assert (Hpush : Forall (fun n => memZ (id n) workspace = true /\
                            MIN_WINDOW_WIDTH cfg <= width (rect n) - delta)
                    snapshot).
  { eapply Forall_impl; [|exact Hall].
    intros n [_ [_ [H3 [H4 _]]]]. now split. }
  pose proof (pushed_rects cfg workspace h delta snapshot Hnd Hpush w nb Hnb)
    as Hrect.
  fold wf0 in Hrect.
  rewrite Forall_forall in Hall.
  destruct (Hall nb Hnb) as [Hne [Htn [Hmn [Hmin Hadj]]]].
  assert (Hnbw : getWindow (store w) (id nb) = Some nb).
  { exact (getNeighbors_entries (store w) rid DRight nb Hwf Hnb). }
  destruct (Rf _ _ Hnbw) as [nb1 [Hnb1 [N1 [_ [_ [N4 _]]]]]].
  destruct (Rf _ _ Ha) as [a1 [Ha1 [_ [_ [_ [A4 _]]]]]].
  rewrite Hnb1 in Hrect. cbn [option_map] in Hrect.
  injection Hrect as Hrect.
  set (s3 := setWindow (setWindow (store wf0) rid (justRect currentRect))
               rid (justRect currentRect)).
  assert (Hw2 : store w2 = recalculateNeighbors cfg s3).
  { unfold w2, ResizeHandler._handleResizeComplete. rewrite Hw1.
    reflexivity. }
  assert (Hwf3 : wf s3) by (unfold s3; now repeat apply wf_setWindow).
  assert (Ha3 : exists a3, getWindow s3 rid = Some a3 /\ id a3 = rid /\
                  rect a3 = currentRect /\ isTiled a3 = true).
  { unfold s3. rewrite getWindow_setWindow_same.
    rewrite getWindow_setWindow_same, Ha1.
    eexists. split; [reflexivity|]. cbn. repeat split. congruence. }
  destruct Ha3 as [a3 [Ea3 [I3 [R3 T3]]]].
  assert (Hnb3 : getWindow s3 (id nb) = Some nb1).
  { unfold s3. rewrite !getWindow_setWindow_other by congruence.
    exact Hnb1. }
  assert (Ta : In a3 (getTiledWindows s3)).
  { unfold getTiledWindows. apply filter_In. split; [|exact T3].
    now apply (value_of_getWindow s3 rid). }
  assert (Tn : In nb1 (getTiledWindows s3)).
  { unfold getTiledWindows. apply filter_In. split; [|congruence].
    now apply (value_of_getWindow s3 (id nb)). }
  assert (Hadj3 : adjacent cfg DRight a3 nb1 = true).
  { rewrite <- Hadj. unfold adjacent, nearEdge, hasVerticalOverlap,
      getRightEdge.
    rewrite R3, Hrect, Hra. unfold movedRight. cbn [x y width height].
    rewrite Hx, Hy, Hh.
    replace (x lastRect + width currentRect - (x (rect nb) + delta))
      with (x lastRect + width lastRect - x (rect nb))
      by (unfold delta; lia).
    reflexivity. }
  exists (refreshed cfg (getTiledWindows s3) a3),
         (refreshed cfg (getTiledWindows s3) nb1).
  rewrite Hw2, !getWindow_recalculateNeighbors, Ea3, Hnb3.
  cbn [option_map]. rewrite T3.
  replace (isTiled nb1) with true by congruence.
  split; [reflexivity|]. split; [reflexivity|].
  split; [exact R3|]. split; [exact Hrect|].
  unfold refreshed, withNeighbors. cbn [neighbors]. split.
  - apply (In_findNeighbors cfg DRight a3 (getTiledWindows s3) (id nb)).
    exists nb1. split; [exact Tn|]. split; [exact N1|].
    split; [congruence | exact Hadj3].
  - apply (In_findNeighbors cfg DLeft nb1 (getTiledWindows s3) rid).
    exists a3. split; [exact Ta|]. split; [exact I3|].
    split; [congruence|]. now rewrite <- adjacent_right_left.
Qed.

Lemma resize_east_keeps_neighbours_witness :
  exists a' nb',
    getWindow
      (store (ResizeHandler._handleResizeComplete CONFIG 1
                (mkRect 8 8 550 1064)
                (snd (ResizeHandler._handleResizeUpdate CONFIG [1; 2; 3]
                        resizingEast (mkRect 8 8 550 1064)
                        (mkWorld threeWindows []))))) 1 = Some a' /\
    getWindow
      (store (ResizeHandler._handleResizeComplete CONFIG 1
                (mkRect 8 8 550 1064)
                (snd (ResizeHandler._handleResizeUpdate CONFIG [1; 2; 3]
                        resizingEast (mkRect 8 8 550 1064)
                        (mkWorld threeWindows []))))) (id upperRight)
    = Some nb' /\
    rect a' = mkRect 8 8 550 1064 /\
    rect nb' = movedRight (550 - 600) upperRight /\
    In (id upperRight) (right (neighbors a')) /\ In 1 (left (neighbors nb')).
Proof.
  refine (resize_east_keeps_neighbours CONFIG [1; 2; 3] 1
            (mkRect 8 8 600 1064) (mkRect 8 8 550 1064)
            (mkWorld threeWindows [])
            (mkWindowState 1 (mkRect 8 8 600 1064) (Some (mkRect 0 0 600 400))
               "left" true (mkNeighbors [] [2; 3] [] []))
            wf_threeWindows _ _ _ _ _ _ _ _ _ _ upperRight _).
  - discriminate.
  - discriminate.
  - reflexivity.
  - reflexivity.
  - reflexivity.
  - reflexivity.
  - reflexivity.
  - reflexivity.
  - vm_compute. constructor; [intros [H|[]]; discriminate|].
    constructor; [intros []|constructor].
  - vm_compute. constructor; [|constructor; [|constructor]];
      repeat split; discriminate.
  - vm_compute. now left.
Defined.

(* ------------------------------------------------------------------ *)
(** ** Committing a snap *)

Lemma snapPolls_grabbed (cfg : Config) (ps : list (option Rect * (Z * Z))) :
  forall d,
    SnapDetector._grabbedWindow (fold_left (snapPoll cfg) ps d)
    = SnapDetector._grabbedWindow d.
Proof.
  induction ps as [|[[wa|] [px py]] ps IH]; intros d; cbn [fold_left];
    [reflexivity| |]; rewrite IH; reflexivity.
Qed.

Lemma snapPolls_off_monitor (cfg : Config)
    (ps : list (option Rect * (Z * Z))) :
  Forall (fun p => fst p = None) ps ->
  forall d, fold_left (snapPoll cfg) ps d = d.
Proof.
  induction 1 as [|[m [px py]] ps Hp Hps IH]; intros d; cbn [fold_left];
    [reflexivity|].
  cbn [fst] in Hp. subst m. now rewrite IH.
Qed.

(** X30: which snap a release commits.  Through any number of polls the
    detector keeps the window it grabbed, and the end of a grab of another
    window commits nothing.  The zone committed for the grabbed window is
    the one [_detectZone] found at the last poll that had the pointer on a
    monitor, polls off every monitor leaving the zone as it was; when that
    poll found no zone, nothing is committed. *)
Theorem snap_commits_last_polled_zone (cfg : Config) (window : Z)
    (ps : list (option Rect * (Z * Z))) (d0 : SnapDetector.t) :
  SnapDetector._grabbedWindow d0 = Some window ->
  let d := fold_left (snapPoll cfg) ps d0 in
  SnapDetector._grabbedWindow d = Some window /\
  (forall other, other <> window -> SnapDetector._onGrabEnd other d = None) /\
  (Forall (fun p => fst p = None) ps ->
   SnapDetector._onGrabEnd window d = SnapDetector._onGrabEnd window d0) /\
  (forall pre workArea px py post,
     ps = pre ++ (Some workArea, (px, py)) :: post ->
     Forall (fun p => fst p = None) post ->
     SnapDetector._onGrabEnd window d
     = option_map (pair window)
         (SnapDetector._detectZone px py workArea (SNAP_THRESHOLD cfg))).
Proof.
  intros Hg d.
  assert (Hgd : SnapDetector._grabbedWindow d = Some window)
    by (unfold d; now rewrite snapPolls_grabbed).
  split; [exact Hgd|]. split; [|split].
  - intros other Hne. unfold SnapDetector._onGrabEnd. rewrite Hgd.
    replace (window =? other) with false
      by (symmetry; apply Z.eqb_neq; congruence).
    reflexivity.
  - intros Hoff. unfold d. now rewrite snapPolls_off_monitor.
  - intros pre workArea px py post -> Hoff. unfold d.
    rewrite fold_left_app. cbn [fold_left].
    rewrite snapPolls_off_monitor by exact Hoff.
    unfold snapPoll at 1. cbn [fst snd SnapDetector._checkCursorPosition].
    unfold SnapDetector._onGrabEnd.
    cbn [SnapDetector._grabbedWindow SnapDetector._currentZone].
    rewrite snapPolls_grabbed, Hg, Z.eqb_refl.
    now destruct (SnapDetector._detectZone px py workArea (SNAP_THRESHOLD cfg)).
Qed.

Lemma snap_commits_last_polled_zone_witness :
  SnapDetector._onGrabEnd 7
    (fold_left (snapPoll CONFIG)
       [(Some screen, (900, 500)); (Some screen, (10, 500)); (None, (-5, 500))]
       (SnapDetector.mkDetector (Some 7) None))
  = option_map (pair 7) (SnapDetector._detectZone 10 500 screen 50).
Proof.
  refine (proj2 (proj2 (proj2
            (snap_commits_last_polled_zone CONFIG 7
               [(Some screen, (900, 500)); (Some screen, (10, 500));
                (None, (-5, 500))]
               (SnapDetector.mkDetector (Some 7) None) eq_refl)))
            [(Some screen, (900, 500))] screen 10 500 [(None, (-5, 500))]
            eq_refl _).
  constructor; [reflexivity | constructor].
Defined.
